(** * SimplyMaid origin core: schemas, validation, registries, content resolution

    A shallow embedding of [src/core/origincore.ts] (and of the theme schema of
    [src/core/origintheme.ts]) together with the properties of its validation
    and content-resolution pipeline.

    Layout:
    - JavaScript values (trees for untrusted input, a heap for objects whose
      identity matters);
    - the part of the Zod library the schemas use, as an interpreter
      [safeParse] over schema descriptions;
    - the schemas, transcribed combinator by combinator;
    - the program state (heap, the three registries, console) and an
      exception/state monad;
    - the functions of the source, in source order;
    - the theorems. *)

From stdpp Require Import base gmap strings list pretty.
From Stdlib Require Import Ascii QArith.

Close Scope Q_scope.

Set Default Proof Using "Type".

(* ====================================================================== *)
(** * JavaScript values *)
(* ====================================================================== *)

(** A JavaScript number: a finite value, an infinity, or NaN. *)
Inductive number :=
  | Finite (q : Q)
  | Infinite (negative : bool)
  | NaN.

(** Primitive values. [POther] stands for every value that is neither one of
    the primitives listed, nor an array, nor a plain object (a function, a
    symbol, a Date, a Map, ...): all of them are truthy and rejected by every
    typed Zod schema used here. *)
Inductive prim :=
  | PUndefined
  | PNull
  | PBool (b : bool)
  | PNum (n : number)
  | PStr (s : string)
  | POther.

(** Untrusted data as a tree (what a JSON payload or a literal denotes).
    Object properties are kept in insertion order. The induction principles
    of the nested types are stated with the theorems. *)
Unset Elimination Schemes.

Inductive value :=
  | VPrim (p : prim)
  | VArr (elems : list value)
  | VObj (props : list (string * value)).

Abbreviation VUndefined := (VPrim PUndefined).
Abbreviation VNull := (VPrim PNull).
Abbreviation VBool b := (VPrim (PBool b)).
Abbreviation VNum n := (VPrim (PNum n)).
Abbreviation VStr s := (VPrim (PStr s)).

Definition int (z : Z) : number := Finite (inject_Z z).
Definition frac (n : Z) (d : positive) : number := Finite (Qmake n d).

(** Own-property lookup in an insertion-ordered property list. *)
Fixpoint assoc {A : Type} (k : string) (l : list (string * A)) : option A :=
  match l with
  | [] => None
  | (k', a) :: rest => if String.eqb k k' then Some a else assoc k rest
  end.

(** [props[k]]: the property, or [undefined]. *)
Definition getProp (k : string) (props : list (string * value)) : value :=
  default VUndefined (assoc k props).

(** [k in props]. *)
Definition hasProp {A : Type} (k : string) (props : list (string * A)) : bool :=
  bool_decide (is_Some (assoc k props)).

(** [v.k] for a value that is already known to be an object; a primitive or an
    array has none of the keys read in this program. *)
Definition get (v : value) (k : string) : value :=
  match v with
  | VObj props => getProp k props
  | _ => VUndefined
  end.

Definition isNaN (n : number) : bool :=
  match n with NaN => true | _ => false end.

Definition isZero (n : number) : bool :=
  match n with Finite q => Qeq_bool q 0 | _ => false end.

(** ToBoolean on primitives. *)
Definition truthyPrim (p : prim) : bool :=
  match p with
  | PUndefined | PNull => false
  | PBool b => b
  | PNum n => negb (isNaN n) && negb (isZero n)
  | PStr s => negb (String.eqb s "")
  | POther => true
  end.

Definition truthy (v : value) : bool :=
  match v with
  | VPrim p => truthyPrim p
  | VArr _ | VObj _ => true
  end.

Definition isUndefined (v : value) : bool :=
  match v with VUndefined => true | _ => false end.

(** Number.isInteger *)
Definition isInteger (n : number) : bool :=
  match n with
  | Finite q => (Qnum q mod Zpos (Qden q) =? 0)%Z
  | _ => false
  end.

(** [n >= q] and [n > q] against a finite bound. *)
Definition geQ (n : number) (q : Q) : bool :=
  match n with
  | Finite x => Qle_bool q x
  | Infinite negative => negb negative
  | NaN => false
  end.

Definition gtQ (n : number) (q : Q) : bool :=
  match n with
  | Finite x => negb (Qle_bool x q)
  | Infinite negative => negb negative
  | NaN => false
  end.

Definition leQ (n : number) (q : Q) : bool :=
  match n with
  | Finite x => Qle_bool x q
  | Infinite negative => negative
  | NaN => false
  end.

Definition ltQ (n : number) (q : Q) : bool :=
  match n with
  | Finite x => negb (Qle_bool q x)
  | Infinite negative => negative
  | NaN => false
  end.

(** Functions of the JavaScript runtime and of Zod's string formats that the
    program calls but does not define. Every result below holds for any
    implementation of them. *)
Class Runtime := {
  (** [new URL(s)] succeeds: the test behind [z.string().url()]. *)
  isURL : string → bool;
  (** Zod's ISO-8601 pattern behind [z.string().datetime()]. *)
  isDatetime : string → bool;
  (** [String(n)] for a number. *)
  numberToString : number → string;
  (** [JSON.stringify] on an acyclic value that is not [undefined]. *)
  JSON_stringify : value → string;
  (** [JSON.parse]; [None] when it throws a SyntaxError. *)
  JSON_parse : string → option value;
  (** [String(Object.prototype[k])] for a member [k] of [Object.prototype]. *)
  prototypeMemberString : string → string;
  (** The result of the [n]-th draw, when that draw is [randomUUID()]. *)
  randomUUID : nat → string;
  (** The result of the [n]-th draw, when it is [new Date().toISOString()]. *)
  toISOString : nat → string;
}.

(* ====================================================================== *)
(** * Zod: schema descriptions and [safeParse] *)
(* ====================================================================== *)

Inductive stringCheck := CkUrl | CkDatetime.

Inductive numberCheck :=
  | CkMin (bound : Q) (inclusive : bool)
  | CkMax (bound : Q) (inclusive : bool)
  | CkInt.

(** What an object schema does with keys outside its shape: [z.object] strips
    them, [.strict()] makes each of them an issue. *)
Inductive unknownKeys := Strip | Strict.

Inductive schema :=
  | ZAny
  | ZUnknown
  | ZString (checks : list stringCheck)
  | ZNumber (checks : list numberCheck)
  | ZBoolean
  | ZLiteral (lit : string)
  | ZEnum (options : list string)
  | ZArray (element : schema)
  | ZTuple (items : list schema)
  | ZRecord (valueType : schema)
  | ZObject (shape : list (string * schema)) (mode : unknownKeys)
  | ZDiscriminatedUnion (discriminator : string) (options : list schema)
  | ZOptional (inner : schema)
  | ZDefault (inner : schema) (defaultValue : value)
  | ZEffects (inner : schema) (refinement : value → bool).

Set Elimination Schemes.

(** The literal a discriminated-union option declares for the discriminator
    key (Zod builds its options map from these). *)
Definition discriminatorOf (d : string) (o : schema) : option string :=
  match o with
  | ZObject shape _ =>
      match assoc d shape with
      | Some (ZLiteral lit) => Some lit
      | _ => None
      end
  | _ => None
  end.

Definition isTag (tag : value) (lit : option string) : bool :=
  match tag, lit with
  | VStr t, Some l => String.eqb t l
  | _, _ => false
  end.

Section zod_parse.
Context `{Runtime}.

Definition stringCheckOk (s : string) (c : stringCheck) : bool :=
  match c with
  | CkUrl => isURL s
  | CkDatetime => isDatetime s
  end.

Definition numberCheckOk (n : number) (c : numberCheck) : bool :=
  match c with
  | CkMin b inclusive => if inclusive then geQ n b else gtQ n b
  | CkMax b inclusive => if inclusive then leQ n b else ltQ n b
  | CkInt => isInteger n
  end.

Section nested.
(** The parser of the component schemas. *)
Context (rec : schema → value → option value).

(** ZodObject: every key of the shape is parsed against [data[key]]; the
    key is written to the result when the parsed value is not [undefined]
    or the key is present in the input. *)
Fixpoint parseShape (shape : list (string * schema))
    (props : list (string * value)) : option (list (string * value)) :=
  match shape with
  | [] => Some []
  | (k, sk) :: rest =>
      v' ← rec sk (getProp k props);
      out ← parseShape rest props;
      Some (if isUndefined v' && negb (hasProp k props)
            then out else (k, v') :: out)
  end.

(** ZodRecord: every own key of the input is parsed; [__proto__] is never
    written to the result. *)
Fixpoint parseRecord (t : schema) (props : list (string * value))
    : option (list (string * value)) :=
  match props with
  | [] => Some []
  | (k, v) :: rest =>
      v' ← rec t v;
      out ← parseRecord t rest;
      Some (if String.eqb k "__proto__" then out else (k, v') :: out)
  end.

(** ZodTuple without a rest element: same length, item by item. *)
Fixpoint parseTuple (items : list schema) (xs : list value)
    : option (list value) :=
  match items, xs with
  | [], [] => Some []
  | s :: items', x :: xs' =>
      x' ← rec s x;
      out ← parseTuple items' xs';
      Some (x' :: out)
  | _, _ => None
  end.

(** ZodDiscriminatedUnion: the option registered for the input's
    discriminator value parses the input; no option, no parse. *)
Fixpoint parseUnion (d : string) (options : list schema) (v : value)
    : option value :=
  match options with
  | [] => None
  | o :: rest =>
      if isTag (get v d) (discriminatorOf d o) then rec o v
      else parseUnion d rest v
  end.
End nested.

Definition unknownKeysOk (mode : unknownKeys)
    (shape : list (string * schema)) (props : list (string * value)) : bool :=
  match mode with
  | Strip => true
  | Strict => forallb (λ kv, hasProp kv.1 shape) props
  end.

(** [schema.safeParse(v)]: [Some out] for [{success: true, data: out}],
    [None] for [{success: false, error}] (the issue list is not modelled). *)
Fixpoint safeParse (s : schema) (v : value) {struct s} : option value :=
  match s with
  | ZAny | ZUnknown => Some v
  | ZString checks =>
      match v with
      | VStr x => if forallb (stringCheckOk x) checks then Some v else None
      | _ => None
      end
  | ZNumber checks =>
      match v with
      | VNum n =>
          if isNaN n then None
          else if forallb (numberCheckOk n) checks then Some v else None
      | _ => None
      end
  | ZBoolean =>
      match v with VBool _ => Some v | _ => None end
  | ZLiteral lit =>
      match v with
      | VStr x => if String.eqb x lit then Some v else None
      | _ => None
      end
  | ZEnum options =>
      match v with
      | VStr x => if existsb (String.eqb x) options then Some v else None
      | _ => None
      end
  | ZArray element =>
      match v with
      | VArr xs => VArr <$> mapM (safeParse element) xs
      | _ => None
      end
  | ZTuple items =>
      match v with
      | VArr xs => VArr <$> parseTuple safeParse items xs
      | _ => None
      end
  | ZRecord t =>
      match v with
      | VObj props => VObj <$> parseRecord safeParse t props
      | _ => None
      end
  | ZObject shape mode =>
      match v with
      | VObj props =>
          out ← parseShape safeParse shape props;
          if unknownKeysOk mode shape props then Some (VObj out) else None
      | _ => None
      end
  | ZDiscriminatedUnion d options =>
      match v with
      | VObj _ => parseUnion safeParse d options v
      | _ => None
      end
  | ZOptional inner =>
      match v with
      | VUndefined => Some VUndefined
      | _ => safeParse inner v
      end
  | ZDefault inner d =>
      match v with
      | VUndefined => safeParse inner d
      | _ => safeParse inner v
      end
  | ZEffects inner refinement =>
      v' ← safeParse inner v;
      if refinement v' then Some v' else None
  end.
End zod_parse.

(** The builder API, under the names of the library: [z.object], [z.string],
    ..., and its methods as functions applied with [|>], so that
    [z.object({..}).strict().optional()] reads
    [z.object [..] |> z.strict |> z.optional]. *)
Notation "x |> f" := (f x) (at level 45, left associativity, only parsing).

Module z.
Definition any : schema := ZAny.
Definition unknown : schema := ZUnknown.
Definition number : schema := ZNumber [].
Definition boolean : schema := ZBoolean.
Definition literal (lit : string) : schema := ZLiteral lit.
Definition enum (options : list string) : schema := ZEnum options.
Definition array (element : schema) : schema := ZArray element.
Definition tuple (items : list schema) : schema := ZTuple items.
Definition record (valueType : schema) : schema := ZRecord valueType.
Definition object (shape : list (string * schema)) : schema :=
  ZObject shape Strip.
Definition discriminatedUnion (discriminator : string)
    (options : list schema) : schema :=
  ZDiscriminatedUnion discriminator options.

Definition strict (s : schema) : schema :=
  match s with ZObject shape _ => ZObject shape Strict | _ => s end.
Definition optional (s : schema) : schema := ZOptional s.
Definition default (d : value) (s : schema) : schema := ZDefault s d.
Definition refine (check : value → bool) (s : schema) : schema :=
  ZEffects s check.

Definition addStringCheck (c : stringCheck) (s : schema) : schema :=
  match s with ZString checks => ZString (checks ++ [c]) | _ => s end.
Definition addNumberCheck (c : numberCheck) (s : schema) : schema :=
  match s with ZNumber checks => ZNumber (checks ++ [c]) | _ => s end.
Definition url := addStringCheck CkUrl.
Definition datetime := addStringCheck CkDatetime.
Definition min (q : Q) := addNumberCheck (CkMin q true).
Definition max (q : Q) := addNumberCheck (CkMax q true).
Definition int := addNumberCheck CkInt.
Definition positive := addNumberCheck (CkMin 0 false).

Definition string : schema := ZString [].
End z.

(* ====================================================================== *)
(** * The theme schema ([origintheme.ts]) *)
(* ====================================================================== *)

Definition hueSchema : schema :=
  z.number |> z.min 0 |> z.max 360 |> z.default (VNum (int 273)).
Definition saturationSchema : schema :=
  z.number |> z.min 0 |> z.max 100 |> z.default (VNum (int 83)).
Definition lightnessSchema : schema :=
  z.number |> z.min 0 |> z.max 100 |> z.default (VNum (int 60)).
Definition colorGroupSchema : schema :=
  z.object [("hue", hueSchema); ("saturation", saturationSchema);
            ("lightness", lightnessSchema)] |> z.strict.
Definition semanticColorTuple : schema :=
  z.tuple [z.number; z.number; z.number].

Definition spacingSchema : schema :=
  z.object [
    ("base", z.number |> z.default (VNum (int 16)));
    ("scale", z.number |> z.default (VNum (frac 3 2)));
    ("fluid", z.object [
        ("min", z.number |> z.default (VNum (frac 1 2)));
        ("max", z.number |> z.default (VNum (frac 3 2)))] |> z.strict)
  ] |> z.strict.

Definition typographySchema : schema :=
  z.object [
    ("baseSize", z.number |> z.default (VNum (int 16)));
    ("scaleRatio", z.number |> z.default (VNum (frac 5 4)));
    ("fluid", z.object [
        ("minVw", z.number |> z.default (VNum (int 320)));
        ("maxVw", z.number |> z.default (VNum (int 1280)))] |> z.strict)
  ] |> z.strict.

Definition containersSchema : schema :=
  z.object [
    ("maxWidth", z.object [
        ("sm", z.number |> z.default (VNum (int 640)));
        ("md", z.number |> z.default (VNum (int 768)));
        ("lg", z.number |> z.default (VNum (int 1024)));
        ("xl", z.number |> z.default (VNum (int 1280)))] |> z.strict);
    ("padding", z.object [
        ("sm", z.number |> z.default (VNum (int 16)));
        ("md", z.number |> z.default (VNum (int 24)));
        ("lg", z.number |> z.default (VNum (int 32)))] |> z.strict)
  ] |> z.strict.

Definition motionTokensSchema : schema :=
  z.object [
    ("duration", z.object [
        ("instant", z.number |> z.default (VNum (int 50)));
        ("fast", z.number |> z.default (VNum (int 100)));
        ("normal", z.number |> z.default (VNum (int 200)));
        ("slow", z.number |> z.default (VNum (int 300)))] |> z.strict);
    ("easing", z.object [
        ("default", z.string |> z.default (VStr "cubic-bezier(0.4,0,0.2,1)"));
        ("in", z.string |> z.default (VStr "cubic-bezier(0.4,0,1,1)"));
        ("out", z.string |> z.default (VStr "cubic-bezier(0,0,0.2,1)"))]
      |> z.strict)
  ] |> z.strict.

Definition themeSchema : schema :=
  z.object [
    ("colors", z.object [
        ("primary", colorGroupSchema);
        ("secondary", colorGroupSchema);
        ("neutral", colorGroupSchema);
        ("semantic", z.object [
            ("background", semanticColorTuple);
            ("foreground", semanticColorTuple);
            ("accent", semanticColorTuple);
            ("muted", semanticColorTuple);
            ("destructive", semanticColorTuple);
            ("border", semanticColorTuple);
            ("input", semanticColorTuple);
            ("ring", semanticColorTuple);
            ("card", semanticColorTuple);
            ("popover", semanticColorTuple);
            ("cardForeground", semanticColorTuple);
            ("popoverForeground", semanticColorTuple);
            ("primaryForeground", semanticColorTuple);
            ("secondaryForeground", semanticColorTuple);
            ("mutedForeground", semanticColorTuple);
            ("accentForeground", semanticColorTuple);
            ("destructiveForeground", semanticColorTuple)] |> z.strict);
        ("sidebar", z.object [
            ("background", semanticColorTuple);
            ("foreground", semanticColorTuple);
            ("primary", semanticColorTuple);
            ("primaryForeground", semanticColorTuple);
            ("accent", semanticColorTuple);
            ("accentForeground", semanticColorTuple);
            ("border", semanticColorTuple);
            ("ring", semanticColorTuple)] |> z.strict);
        ("chart", z.object [
            ("1", semanticColorTuple);
            ("2", semanticColorTuple);
            ("3", semanticColorTuple);
            ("4", semanticColorTuple);
            ("5", semanticColorTuple)] |> z.strict)] |> z.strict);
    ("spacing", spacingSchema);
    ("typography", typographySchema);
    ("containers", containersSchema);
    ("motion", motionTokensSchema);
    ("darkMode", z.boolean |> z.default (VBool false));
    ("prefersReducedMotion", z.boolean |> z.default (VBool false))
  ] |> z.strict.

(* ====================================================================== *)
(** * The schemas of [origincore.ts] *)
(* ====================================================================== *)

(** ** 3. Feature flags *)

(** Every flag is [z.boolean().default(false)]. *)
Definition flag : schema := z.boolean |> z.default (VBool false).

Definition featureFlagsSchema : schema :=
  z.object [
    ("enablePersonalization", flag);
    ("enableABTesting", flag);
    ("enableVersioning", flag);
    ("enableDrafts", flag);
    ("enableTemplates", flag);
    ("enableAIContent", flag);
    ("enableMarketIntelligence", flag);
    ("enableAdvancedSEO", flag);
    ("enableCompetitorCrawling", flag);
    ("enableVectorSEO", flag);
    ("enableLeadFunnels", flag);
    ("enableMultiRegionDeploy", flag);
    ("enableMicrofrontends", flag);
    ("enableEmailAutomation", flag);
    ("enableN8nWorkflows", flag);
    ("enableProgrammaticSEO", flag);
    ("enableContentClustering", flag);
    ("enableSharedSections", flag);
    ("enableRoutePersonalization", flag);
    ("enableLocalizationSEO", flag);
    ("enableAdvancedCompetitorAnalysis", flag);
    ("enableRecentlyCleaned", flag);
    ("enableProviderFlow", flag)
  ] |> z.strict.

(** ** 4. Localization *)
Definition localeSchema : schema :=
  z.object [
    ("lang", z.string |> z.default (VStr "en"));
    ("region", z.string |> z.optional);
    ("alternateLinks", z.record z.string |> z.optional)
  ] |> z.strict.

(** ** 5. Content clusters *)
Definition contentClusterSchema : schema :=
  z.object [
    ("clusterId", z.string);
    ("label", z.string);
    ("description", z.string |> z.optional);
    ("sectionRefs", z.array z.string |> z.default (VArr []))
  ] |> z.strict.

(** ** 6. Route rules *)
Definition routeRuleSchema : schema :=
  z.object [
    ("pattern", z.string);
    ("type", z.enum ["static"; "dynamic"]);
    ("generateFrom",
       z.enum ["locations"; "services"; "clusters"; "aiGenerated"] |> z.optional);
    ("aiInstructions", z.string |> z.optional)
  ] |> z.strict.

(** ** 7. Vector SEO and AI capabilities *)
Definition vectorSEOSchema : schema :=
  z.object [
    ("enabled", z.boolean);
    ("embeddingModel", z.string |> z.default (VStr "text-embedding-model"));
    ("vectorDB", z.string |> z.default (VStr "pinecone"));
    ("clusterStrategy",
       z.enum ["semantic"; "keyword"; "hybrid"] |> z.default (VStr "semantic"))
  ] |> z.strict |> z.optional.

Definition aiCapabilitiesSchema : schema :=
  z.object [
    ("enabled", z.boolean);
    ("provider", z.enum ["openai"; "custom"]);
    ("model", z.string |> z.default (VStr "gpt-4"));
    ("fallback", z.boolean |> z.default (VBool true));
    ("promptTemplates", z.record z.string |> z.optional);
    ("contentPolicies", z.array z.string |> z.default (VArr []));
    ("competitorAwareContent", z.boolean |> z.default (VBool false));
    ("localizationSupport", z.boolean |> z.default (VBool false))
  ] |> z.strict.

(** ** 8. Competitor analysis *)
Definition competitorAnalysisSchema : schema :=
  z.object [
    ("enabled", z.boolean |> z.default (VBool false));
    ("sources", z.array z.string |> z.default (VArr []));
    ("frequency",
       z.enum ["daily"; "weekly"; "monthly"] |> z.default (VStr "weekly"));
    ("metrics", z.object [
        ("trackSERP", z.boolean |> z.default (VBool true));
        ("trackBacklinks", z.boolean |> z.default (VBool false));
        ("trackLocalCompetitors", z.boolean |> z.default (VBool true))]
      |> z.strict)
  ] |> z.strict.

(** ** 11. Fields and sections *)
Definition fieldFormatEnum : schema := z.enum ["markdown"; "html"].

Definition aiPromptFieldSchema : schema :=
  z.object [
    ("id", z.string);
    ("type", z.literal "aiPrompt");
    ("template", z.string);
    ("variables", z.record z.string |> z.default (VObj []));
    ("constraints", z.array z.string |> z.default (VArr []));
    ("expectedFormat", z.string |> z.default (VStr "markdown"));
    ("fallbackStrategy", z.string |> z.default (VStr "retry"))
  ] |> z.strict.

Definition fieldSchema : schema :=
  z.discriminatedUnion "type" [
    z.object [("id", z.string); ("type", z.literal "text");
              ("value", z.string)] |> z.strict;
    z.object [("id", z.string); ("type", z.literal "richText");
              ("value", z.string); ("format", fieldFormatEnum)] |> z.strict;
    z.object [
      ("id", z.string); ("type", z.literal "image");
      ("src", z.string |> z.url); ("alt", z.string);
      ("width", z.number |> z.optional); ("height", z.number |> z.optional);
      ("optimization", z.object [
          ("quality", z.number |> z.optional);
          ("format", z.enum ["webp"; "avif"; "jpeg"] |> z.optional);
          ("sizes", z.array z.string |> z.optional);
          ("loading", z.enum ["eager"; "lazy"] |> z.optional)]
        |> z.strict |> z.optional)
    ] |> z.strict;
    z.object [
      ("id", z.string); ("type", z.literal "cta");
      ("text", z.string); ("href", z.string |> z.url);
      ("variant", z.enum ["primary"; "secondary"; "ghost"] |> z.optional);
      ("size", z.enum ["sm"; "md"; "lg"; "icon"] |> z.optional);
      ("icon", z.string |> z.optional);
      ("target", z.enum ["_blank"; "_self"] |> z.optional)
    ] |> z.strict;
    z.object [
      ("id", z.string); ("type", z.literal "form");
      ("fields", z.array (z.object [
          ("name", z.string); ("label", z.string);
          ("type", z.enum ["text"; "email"; "tel"; "textarea"]);
          ("required", z.boolean);
          ("placeholder", z.string |> z.optional)] |> z.strict))
    ] |> z.strict;
    z.object [
      ("id", z.string); ("type", z.literal "service");
      ("name", z.string); ("description", z.string);
      ("price", z.number); ("duration", z.number);
      ("image", z.string |> z.url |> z.optional)
    ] |> z.strict;
    aiPromptFieldSchema
  ].

Definition sectionTypeEnum : schema :=
  z.enum [
    "hero"; "text"; "form"; "gallery"; "services"; "aiGenerated";
    "clusteredContent"; "reviewsMarquee"; "howItWorks"; "ourServices";
    "serviceLocations"; "pricingComparison"; "faq"; "bestRatedCleaners";
    "leadCapture"].

Definition pageTypeEnum : schema :=
  z.enum ["service"; "home"; "city"; "about"; "contact"; "blog"; "suburb";
          "cluster"; "landing"].

Definition sectionIntentEnum : schema :=
  z.enum ["default"; "primary"; "secondary"; "accent"].
Definition alignmentEnum : schema := z.enum ["left"; "center"; "right"].
Definition componentSizeEnum : schema :=
  z.enum ["xs"; "sm"; "md"; "lg"; "xl"; "2xl"].
Definition containerSizeEnum : schema :=
  z.enum ["sm"; "md"; "lg"; "xl"; "full"].

Definition sectionSchema : schema :=
  z.object [
    ("id", z.string);
    ("type", sectionTypeEnum);
    ("fields", z.record fieldSchema);
    ("style", z.object [
        ("intent", sectionIntentEnum |> z.optional);
        ("align", alignmentEnum |> z.optional);
        ("padding", componentSizeEnum |> z.optional);
        ("container", containerSizeEnum |> z.optional)]
      |> z.strict |> z.optional);
    ("tracking", z.object [
        ("id", z.string |> z.optional);
        ("events", z.array (z.object [
            ("name", z.string);
            ("data", z.record z.unknown |> z.optional)] |> z.strict)
          |> z.optional)]
      |> z.strict |> z.optional);
    ("seo", z.object [
        ("title", z.string |> z.optional);
        ("description", z.string |> z.optional);
        ("schema", z.object [
            ("type", z.string); ("data", z.record z.unknown)]
          |> z.strict |> z.optional)]
      |> z.strict |> z.optional)
  ] |> z.strict.

(** The source declares [sharedSectionSchema] with [section: z.any()] ahead of
    [sectionSchema] and assigns [sectionSchema] to [shape.section] right after
    defining it, before any parse; this is the schema after that assignment. *)
Definition sharedSectionSchema : schema :=
  z.object [("id", z.string); ("section", sectionSchema)] |> z.strict.

(** ** 9. SEO enhancements *)
Definition seoEnhancementsSchema : schema :=
  z.object [
    ("internalLinking", z.object [
        ("enabled", z.boolean);
        ("strategy", z.enum ["keyword-based"; "cluster-based"; "ai-suggested"])]
      |> z.strict);
    ("schemaEnhancements", z.array z.string |> z.optional);
    ("vectorSEO", vectorSEOSchema);
    ("programmaticSEO", z.object [
        ("enabled", z.boolean |> z.default (VBool false));
        ("routeRules", z.array routeRuleSchema |> z.default (VArr []));
        ("localization", z.boolean |> z.default (VBool false));
        ("contentClusters", z.array contentClusterSchema |> z.default (VArr []));
        ("sharedSections", z.array sharedSectionSchema |> z.default (VArr []));
        ("multilingualSupport", z.array localeSchema |> z.default (VArr []))]
      |> z.strict)
  ] |> z.strict.

(** ** 10. Advanced configuration *)
Definition advancedConfigSchema : schema :=
  z.object [
    ("seo", seoEnhancementsSchema |> z.optional);
    ("aiContent", aiCapabilitiesSchema |> z.optional);
    ("competitorAnalysis", competitorAnalysisSchema |> z.optional)
  ] |> z.strict.

(** ** 12. Page schema *)
Definition pageStatusEnum : schema := z.enum ["draft"; "published"; "archived"].
Definition pagePriorityEnum : schema := z.enum ["high"; "medium"; "low"].

Definition pageSchema : schema :=
  z.object [
    ("id", z.string);
    ("type", pageTypeEnum);
    ("slug", z.string);
    ("status", pageStatusEnum |> z.optional);
    ("priority", pagePriorityEnum |> z.optional);
    ("meta", z.object [
        ("title", z.string |> z.optional);
        ("description", z.string |> z.optional);
        ("image", z.string |> z.url |> z.optional);
        ("schema", z.object [
            ("type", z.string); ("data", z.record z.unknown)]
          |> z.strict |> z.optional);
        ("robots", z.object [
            ("index", z.boolean |> z.optional);
            ("follow", z.boolean |> z.optional);
            ("imageIndex", z.boolean |> z.optional)]
          |> z.strict |> z.optional)]
      |> z.strict |> z.optional);
    ("sections", z.array sectionSchema);
    ("navigation", z.unknown |> z.optional);
    ("locale", localeSchema |> z.optional);
    ("clusterRefs", z.array z.string |> z.default (VArr []));
    ("sharedSectionRefs", z.array z.string |> z.default (VArr []));
    ("version", z.number |> z.int |> z.positive |> z.default (VNum (int 1)));
    ("lastModified", z.string |> z.datetime);
    ("lastModifiedBy", z.string);
    ("publishedAt", z.string |> z.datetime |> z.optional);
    ("publishedBy", z.string |> z.optional)
  ] |> z.strict.

(** ** 19. App config schema *)

(** The refinement of [appConfigSchema], on the parsed object. *)
Definition advancedConfigAllowed (data : value) : bool :=
  if truthy (get data "advancedConfig")
     && negb (truthy (get (get data "featureFlags") "enableAdvancedSEO"))
     && negb (truthy (get (get data "featureFlags") "enableAIContent"))
  then false
  else true.

(** The object schema that [.refine] is called on. *)
Definition appConfigObjectSchema : schema :=
  z.object [
    ("featureFlags", featureFlagsSchema);
    ("theme", themeSchema |> z.optional);
    ("advancedConfig", advancedConfigSchema |> z.optional)
  ].

Definition appConfigSchema : schema :=
  appConfigObjectSchema |> z.refine advancedConfigAllowed.

(* ====================================================================== *)
(** * Objects with identity: the heap *)
(* ====================================================================== *)

(** Sections, pages and templates are JavaScript objects: two variables may
    hold the same object, and a spread copies one level only. Objects
    therefore live in a heap and are passed around as references. An address is
    the position of the object in the heap; allocation appends, so the
    addresses of an execution are pairwise distinct and an object that exists
    is never moved. *)
Definition loc := nat.

Inductive hval :=
  | HPrim (p : prim)
  | HRef (l : loc).

Inductive hobj :=
  | HObject (props : list (string * hval))
  | HArray (elems : list hval).

Abbreviation HUndefined := (HPrim PUndefined).
Abbreviation HStr s := (HPrim (PStr s)).
Abbreviation HNum n := (HPrim (PNum n)).

Definition truthyH (v : hval) : bool :=
  match v with
  | HPrim p => truthyPrim p
  | HRef _ => true
  end.

(** [v ?? d] *)
Definition nullish (v : hval) : bool :=
  match v with
  | HPrim PUndefined | HPrim PNull => true
  | _ => false
  end.

(** Reading a heap value back as a tree. The fuel bounds the depth; it runs
    out only on a cyclic object graph. *)
Fixpoint reify (fuel : nat) (h : list hobj) (v : hval) : option value :=
  match v with
  | HPrim p => Some (VPrim p)
  | HRef l =>
      match fuel with
      | O => None
      | S fuel' =>
          match h !! l with
          | Some (HObject props) =>
              VObj <$> mapM (λ kv, pair kv.1 <$> reify fuel' h kv.2) props
          | Some (HArray elems) => VArr <$> mapM (reify fuel' h) elems
          | None => None
          end
      end
  end.

(** An acyclic value nests at most as deep as the heap has objects. *)
Definition reifyIn (h : list hobj) (v : hval) : option value :=
  reify (S (length h)) h v.

(** Building fresh objects for a tree (what a parser that returns new objects
    does): children first, then the object itself. *)
Section alloc_children.
(** The allocator of the children. *)
Context (rec : value → list hobj → list hobj * hval).

Fixpoint allocElems (xs : list value) (h : list hobj)
    : list hobj * list hval :=
  match xs with
  | [] => (h, [])
  | x :: xs' =>
      let '(h1, r) := rec x h in
      let '(h2, rs) := allocElems xs' h1 in
      (h2, r :: rs)
  end.

Fixpoint allocProps (props : list (string * value)) (h : list hobj)
    : list hobj * list (string * hval) :=
  match props with
  | [] => (h, [])
  | (k, x) :: props' =>
      let '(h1, r) := rec x h in
      let '(h2, rs) := allocProps props' h1 in
      (h2, (k, r) :: rs)
  end.
End alloc_children.

Fixpoint allocValue (v : value) (h : list hobj) : list hobj * hval :=
  match v with
  | VPrim p => (h, HPrim p)
  | VArr xs =>
      let '(h', rs) := allocElems allocValue xs h in
      (h' ++ [HArray rs], HRef (length h'))
  | VObj props =>
      let '(h', rs) := allocProps allocValue props h in
      (h' ++ [HObject rs], HRef (length h'))
  end.

(* ====================================================================== *)
(** * Errors, state and the execution monad *)
(* ====================================================================== *)

(** The exceptions the program can raise. [ValidationError] carries its
    message and its code, in the order of the constructor's parameters; the
    optional [details] payload is not modelled. *)
Inductive exn :=
  | ValidationError (message code : string)
  | Error (message : string)
  | TypeError (message : string)
  | SyntaxError.

Inductive consoleLine :=
  | Warn (text : string)
  | ErrorLine (text : string).

(** [SectionRegistryItem]: the component and the optional generator are
    functions and play no part here. *)
Record SectionRegistryItem := {
  label : string;
  icon : string;
  description : string;
}.

(** The module-level mutable state: the heap, the three registries, the
    console, and the number of values drawn so far from the two
    non-deterministic sources ([randomUUID], [new Date()]). *)
Record State := {
  heap : list hobj;
  _sectionRegistry : gmap string SectionRegistryItem;
  _pageRegistry : gmap string hval;
  _templateRegistry : gmap string hval;
  console : list consoleLine;
  draws : nat;
}.

Definition setHeap (h : list hobj) (s : State) : State :=
  {| heap := h; _sectionRegistry := _sectionRegistry s;
     _pageRegistry := _pageRegistry s;
     _templateRegistry := _templateRegistry s;
     console := console s; draws := draws s |}.

Definition setSectionRegistry (r : gmap string SectionRegistryItem)
    (s : State) : State :=
  {| heap := heap s; _sectionRegistry := r;
     _pageRegistry := _pageRegistry s;
     _templateRegistry := _templateRegistry s;
     console := console s; draws := draws s |}.

Definition setPageRegistry (r : gmap string hval) (s : State) : State :=
  {| heap := heap s; _sectionRegistry := _sectionRegistry s;
     _pageRegistry := r;
     _templateRegistry := _templateRegistry s;
     console := console s; draws := draws s |}.

Definition setTemplateRegistry (r : gmap string hval) (s : State) : State :=
  {| heap := heap s; _sectionRegistry := _sectionRegistry s;
     _pageRegistry := _pageRegistry s;
     _templateRegistry := r;
     console := console s; draws := draws s |}.

Definition setConsole (c : list consoleLine) (s : State) : State :=
  {| heap := heap s; _sectionRegistry := _sectionRegistry s;
     _pageRegistry := _pageRegistry s;
     _templateRegistry := _templateRegistry s;
     console := c; draws := draws s |}.

Definition setDraws (n : nat) (s : State) : State :=
  {| heap := heap s; _sectionRegistry := _sectionRegistry s;
     _pageRegistry := _pageRegistry s;
     _templateRegistry := _templateRegistry s;
     console := console s; draws := n |}.

(** A computation either returns a value or throws, and in both cases leaves a
    state behind. *)
Inductive result (A : Type) :=
  | Ok (a : A) (s : State)
  | Throw (e : exn) (s : State).
Arguments Ok {A} a s.
Arguments Throw {A} e s.

Definition M (A : Type) : Type := State → result A.

Definition finalState {A : Type} (r : result A) : State :=
  match r with Ok _ s => s | Throw _ s => s end.

#[export] Instance M_ret : MRet M := λ A a s, Ok a s.
#[export] Instance M_bind : MBind M := λ A B f m s,
  match m s with
  | Ok a s' => f a s'
  | Throw e s' => Throw e s'
  end.

Definition throw {A : Type} (e : exn) : M A := λ s, Throw e s.
Definition getState : M State := λ s, Ok s s.
Definition modify (f : State → State) : M unit := λ s, Ok tt (f s).

(** [for (const x of xs) body(x)] *)
Fixpoint forOf {A : Type} (xs : list A) (body : A → M unit) : M unit :=
  match xs with
  | [] => mret tt
  | x :: xs' => body x ;; forOf xs' body
  end.

(** [xs.forEach((x, index) => body(x, index))], counting from [index]. *)
Fixpoint forEachFrom {A : Type} (index : nat) (xs : list A)
    (body : A → nat → M unit) : M unit :=
  match xs with
  | [] => mret tt
  | x :: xs' => body x index ;; forEachFrom (S index) xs' body
  end.

Definition forEach {A : Type} (xs : list A) (body : A → nat → M unit)
    : M unit :=
  forEachFrom 0 xs body.

(** Allocation of a new object or array. *)
Definition alloc (o : hobj) : M hval := λ s,
  Ok (HRef (length (heap s))) (setHeap (heap s ++ [o]) s).

Definition allocTree (v : value) : M hval := λ s,
  let '(h, r) := allocValue v (heap s) in Ok r (setHeap h s).

(** [v.k]. Reading a property of [undefined] or [null] throws; the other
    primitives have none of the properties read in this program. *)
Definition readProp (v : hval) (k : string) : M hval := λ s,
  match v with
  | HPrim PUndefined | HPrim PNull =>
      Throw (TypeError ("Cannot read properties of undefined (reading '"
                        +:+ k +:+ "')")) s
  | HPrim _ => Ok HUndefined s
  | HRef l =>
      match heap s !! l with
      | Some (HObject props) => Ok (default HUndefined (assoc k props)) s
      | _ => Ok HUndefined s
      end
  end.

(** The elements of an array value; [None] when the value is not an array
    ([Array.isArray] is false). *)
Definition arrayElems (h : list hobj) (v : hval) : option (list hval) :=
  match v with
  | HRef l =>
      match h !! l with
      | Some (HArray elems) => Some elems
      | _ => None
      end
  | _ => None
  end.

(** The own properties of an object value, as a spread [{...v}] copies them:
    none for a primitive. *)
Definition ownProps (h : list hobj) (v : hval) : list (string * hval) :=
  match v with
  | HRef l =>
      match h !! l with
      | Some (HObject props) => props
      | Some (HArray elems) => imap (λ i x, (pretty i, x)) elems
      | None => []
      end
  | _ => []
  end.

(** [{...props, k: v}]: an existing key keeps its position. *)
Fixpoint setProp {A : Type} (k : string) (v : A) (props : list (string * A))
    : list (string * A) :=
  match props with
  | [] => [(k, v)]
  | (k', v') :: rest =>
      if String.eqb k k' then (k, v) :: rest else (k', v') :: setProp k v rest
  end.

(** [{...a, ...b}] *)
Definition mergeProps {A : Type} (a b : list (string * A))
    : list (string * A) :=
  foldl (λ acc kv, setProp kv.1 kv.2 acc) a b.

(** [console.warn], [console.error] *)
Definition console_warn (text : string) : M unit :=
  modify (λ s, setConsole (console s ++ [Warn text]) s).
Definition console_error (text : string) : M unit :=
  modify (λ s, setConsole (console s ++ [ErrorLine text]) s).

(* ====================================================================== *)
(** * The validated global configuration *)
(* ====================================================================== *)

(** [globalAppConfig] is the frozen result of validating [configData] against
    [appConfigSchema]; it is read through typed property paths. The records
    below are that typed view, with the fields the functions of sections 14-23
    read. The section of a shared-section entry is an object of the heap. *)

Module RouteRule.
Inductive routeType := static | dynamic.
Inductive generateSource := locations | services | clusters | aiGenerated.

Record t := {
  pattern : string;
  type : routeType;
  generateFrom : option generateSource;
  aiInstructions : option string;
}.
End RouteRule.

Module SharedSection.
Record t := {
  id : string;
  section : hval;
}.
End SharedSection.

Module ProgrammaticSEO.
Record t := {
  enabled : bool;
  routeRules : list RouteRule.t;
  localization : bool;
  sharedSections : list SharedSection.t;
}.
End ProgrammaticSEO.

Module Seo.
Record t := { programmaticSEO : ProgrammaticSEO.t }.
End Seo.

Module AiContent.
Record t := { enabled : bool }.
End AiContent.

Module AdvancedConfig.
Record t := {
  seo : option Seo.t;
  aiContent : option AiContent.t;
}.
End AdvancedConfig.

Module FeatureFlags.
Record t := {
  enableAIContent : bool;
  enableAdvancedSEO : bool;
  enableProgrammaticSEO : bool;
  enableSharedSections : bool;
}.
End FeatureFlags.

Module AppConfig.
Record t := {
  featureFlags : FeatureFlags.t;
  advancedConfig : option AdvancedConfig.t;
}.
End AppConfig.

(** [globalAppConfig.advancedConfig?.seo?.programmaticSEO] *)
Definition programmaticSEOOf (cfg : AppConfig.t) : option ProgrammaticSEO.t :=
  adv ← AppConfig.advancedConfig cfg;
  seo ← AdvancedConfig.seo adv;
  Some (Seo.programmaticSEO seo).

(** [globalAppConfig.advancedConfig?.aiContent?.enabled], as a condition. *)
Definition aiContentEnabled (cfg : AppConfig.t) : bool :=
  match AppConfig.advancedConfig cfg ≫= AdvancedConfig.aiContent with
  | Some ai => AiContent.enabled ai
  | None => false
  end.

(* ====================================================================== *)
(** * Strings *)
(* ====================================================================== *)

(** [String(p)] *)
Definition primToString `{Runtime} (p : prim) : string :=
  match p with
  | PUndefined => "undefined"
  | PNull => "null"
  | PBool true => "true"
  | PBool false => "false"
  | PNum n => numberToString n
  | PStr s => s
  | POther => "[object Object]"
  end.

(** A value used as a property key or interpolated into a template literal.
    The signatures of the source make it a string wherever this is used; the
    other cases follow the conversion of primitives and of plain objects. *)
Definition toString `{Runtime} (v : hval) : string :=
  match v with
  | HPrim p => primToString p
  | HRef _ => "[object Object]"
  end.

(** The members of [Object.prototype]: a plain object used as a dictionary
    answers a lookup of one of these keys with the inherited member. *)
Definition objectPrototypeKeys : list string :=
  ["constructor"; "__defineGetter__"; "__defineSetter__"; "hasOwnProperty";
   "__lookupGetter__"; "__lookupSetter__"; "isPrototypeOf";
   "propertyIsEnumerable"; "toString"; "valueOf"; "__proto__";
   "toLocaleString"].

Definition inherited (k : string) : bool :=
  bool_decide (k ∈ objectPrototypeKeys).

(** [registry[k]] as a condition, for a registry whose entries are records
    of the model (objects, hence truthy): an own entry or an inherited member
    (always truthy). *)
Definition registryHas {V : Type} (registry : gmap string V) (k : string)
    : bool :=
  bool_decide (is_Some (registry !! k)) || inherited k.

(** [registry[k]] as a value; as a condition it is [truthyH] of this. *)
Definition registryGet (registry : gmap string hval) (k : string) : hval :=
  match registry !! k with
  | Some v => v
  | None => if inherited k then HPrim POther else HUndefined
  end.

Definition isWhiteSpace (c : ascii) : bool :=
  let n := nat_of_ascii c in
  (n =? 32)%nat || ((9 <=? n)%nat && (n <=? 13)%nat).

(** [s.trim() === '']: every character of [s] is white space (of the ASCII
    range; the multi-byte white-space characters are not recognised). *)
Definition isBlank (s : string) : bool :=
  forallb isWhiteSpace (String.list_ascii_of_string s).

(** [\w] *)
Definition isWord (c : ascii) : bool :=
  let n := nat_of_ascii c in
  ((48 <=? n)%nat && (n <=? 57)%nat) || ((65 <=? n)%nat && (n <=? 90)%nat)
  || ((97 <=? n)%nat && (n <=? 122)%nat) || (n =? 95)%nat.

(** Scanner state of [str.replace(/\${(\w+)}/g, (_, key) => f(key))]: outside
    a candidate, after [$], or inside [${] with the key read so far
    (reversed). A candidate that fails is copied unchanged; none of its
    characters can start another match, except the character it failed on. *)
Inductive scan :=
  | Plain
  | Dollar
  | Key (rkey : list ascii).

Fixpoint replaceFrom (f : string → string) (st : scan) (cs : list ascii)
    : list ascii :=
  match cs with
  | [] =>
      match st with
      | Plain => []
      | Dollar => ["$"%char]
      | Key rkey => "$"%char :: "{"%char :: rev rkey
      end
  | c :: rest =>
      match st with
      | Plain =>
          if Ascii.eqb c "$" then replaceFrom f Dollar rest
          else c :: replaceFrom f Plain rest
      | Dollar =>
          if Ascii.eqb c "{" then replaceFrom f (Key []) rest
          else if Ascii.eqb c "$" then "$"%char :: replaceFrom f Dollar rest
          else "$"%char :: c :: replaceFrom f Plain rest
      | Key rkey =>
          if isWord c then replaceFrom f (Key (c :: rkey)) rest
          else if Ascii.eqb c "}" && negb (bool_decide (rkey = [])) then
            String.list_ascii_of_string (f (String.string_of_list_ascii (rev rkey)))
              ++ replaceFrom f Plain rest
          else
            "$"%char :: "{"%char :: rev rkey
              ++ (if Ascii.eqb c "$" then replaceFrom f Dollar rest
                  else c :: replaceFrom f Plain rest)
      end
  end.

Definition replacePlaceholders (f : string → string) (str : string) : string :=
  String.string_of_list_ascii (replaceFrom f Plain (String.list_ascii_of_string str)).

(* ====================================================================== *)
(** * The functions of [origincore.ts] *)
(* ====================================================================== *)

Section origincore.
Context `{Runtime}.
(** The frozen configuration object. *)
Context (globalAppConfig : AppConfig.t).

(** ** 14. Validation *)

(** [validationUtils.validateSafely] *)
Definition validateSafely (schema : schema) (data : value)
    (errorCode : string) : M value :=
  match safeParse schema data with
  | None => throw (ValidationError "Validation failed" errorCode)
  | Some data' => mret data'
  end.

(** ** 15. Type guards *)

(** [typeGuards.isSection], on a tree. *)
Definition isSection (data : value) : bool :=
  bool_decide (is_Some (safeParse sectionSchema data)).

(** [typeGuards.isSection] on an object of the heap. *)
Definition isSectionAt (h : list hobj) (v : hval) : bool :=
  match reifyIn h v with
  | Some data => isSection data
  | None => false
  end.

(** ** 16. Section registry and page builder *)

(** [sectionRegistryUtils.register] *)
Definition sectionRegistry_register (type : string)
    (item : SectionRegistryItem) : M unit :=
  s ← getState;
  if registryHas (_sectionRegistry s) type then
    throw (Error ("Section type " +:+ type +:+ " already registered"))
  else
    modify (λ s, setSectionRegistry (<[type := item]> (_sectionRegistry s)) s).

(** [sectionRegistryUtils.has] *)
Definition sectionRegistry_has (type : string) : M bool :=
  s ← getState;
  mret (registryHas (_sectionRegistry s) type).

(** One draw from a non-deterministic source. *)
Definition draw (source : nat → string) : M string := λ s,
  Ok (source (draws s)) (setDraws (S (draws s)) s).

(** [pageBuilderUtils.createSection] *)
Definition createSection (type : string) (fields : hval) : M hval :=
  registered ← sectionRegistry_has type;
  if negb registered then
    throw (Error ("Cannot create section: type " +:+ type
                  +:+ " not found in registry"))
  else
    id ← draw randomUUID;
    style ← alloc (HObject []);
    tracking ← alloc (HObject []);
    seo ← alloc (HObject []);
    alloc (HObject [
      ("id", HStr id);
      ("type", HStr type);
      ("fields", fields);
      ("style", style);
      ("tracking", tracking);
      ("seo", seo)]).

(** [pageBuilderUtils.createPage] *)
Definition createPage (type : string) (slug : string) : M hval :=
  match safeParse pageTypeEnum (VStr type) with
  | None =>
      throw (ValidationError ("Invalid page type: " +:+ type)
               "INVALID_PAGE_TYPE")
  | Some _ =>
      if String.eqb slug "" || isBlank slug then
        throw (ValidationError "Invalid slug: must be non-empty string"
                 "INVALID_PAGE_SLUG")
      else
        id ← draw randomUUID;
        sections ← alloc (HArray []);
        clusterRefs ← alloc (HArray []);
        sharedSectionRefs ← alloc (HArray []);
        meta ← alloc (HObject [
          ("title", HUndefined);
          ("description", HUndefined);
          ("image", HUndefined);
          ("schema", HUndefined);
          ("robots", HUndefined)]);
        lastModified ← draw toISOString;
        alloc (HObject [
          ("id", HStr id);
          ("type", HStr type);
          ("slug", HStr slug);
          ("sections", sections);
          ("clusterRefs", clusterRefs);
          ("sharedSectionRefs", sharedSectionRefs);
          ("meta", meta);
          ("version", HNum (int 1));
          ("lastModified", HStr lastModified);
          ("lastModifiedBy", HStr "system");
          ("locale", HUndefined)])
  end.

(** ** 21. Content manager integration *)

(** [registerPage] *)
Definition registerPage (page : hval) : M unit :=
  slug ← readProp page "slug";
  s ← getState;
  if truthyH (registryGet (_pageRegistry s) (toString slug)) then
    throw (Error ("Page slug " +:+ toString slug +:+ " already registered"))
  else
    modify (λ s, setPageRegistry
                   (<[toString slug := page]> (_pageRegistry s)) s).

(** [getPageBySlug] *)
Definition getPageBySlug (slug : string) : M hval :=
  s ← getState;
  mret (registryGet (_pageRegistry s) slug).

(** [arr.push(...xs)] *)
Definition arrayPush (arr : hval) (xs : list hval) : M unit := λ s,
  match arr with
  | HRef l =>
      match heap s !! l with
      | Some (HArray elems) =>
          Ok tt (setHeap (<[l := HArray (elems ++ xs)]> (heap s)) s)
      | _ => Throw (TypeError "push is not a function") s
      end
  | _ => Throw (TypeError "push is not a function") s
  end.

(** The result of [extractProgrammaticSEODetails]. *)
Record ProgrammaticSEODetails := {
  details_routeRules : list RouteRule.t;
  details_localization : bool;
  details_aiInstructions : option string;
}.

Definition truthyString (o : option string) : bool :=
  match o with
  | Some s => negb (String.eqb s "")
  | None => false
  end.

(** [extractProgrammaticSEODetails] *)
Definition extractProgrammaticSEODetails : ProgrammaticSEODetails :=
  let seoConfig := programmaticSEOOf globalAppConfig in
  let routeRules := default [] (ProgrammaticSEO.routeRules <$> seoConfig) in
  {| details_routeRules := routeRules;
     details_localization :=
       default false (ProgrammaticSEO.localization <$> seoConfig);
     details_aiInstructions :=
       find (λ r, truthyString (RouteRule.aiInstructions r)) routeRules
         ≫= RouteRule.aiInstructions |}.

(** [variables[key]] for a caller-supplied variable record. *)
Definition variable (variables : list (string * prim)) (key : string)
    : option prim :=
  assoc key variables.

(** [`${variables[key]}`] *)
Definition interpolate (variables : list (string * prim)) (key : string)
    : string :=
  match variable variables key with
  | Some p => primToString p
  | None => if inherited key then prototypeMemberString key else "undefined"
  end.

Definition ofOptionString (o : option string) : hval :=
  match o with
  | Some s => HStr s
  | None => HUndefined
  end.

(** [generateAIContentSections]. Only the truthiness of [instructions] is
    looked at. The returned array never escapes its callers, who read its
    elements at once: it is kept as a list. *)
Definition generateAIContentSections (instructions : hval)
    (variables : list (string * prim)) : M (list hval) :=
  if negb (truthyH instructions) || negb (aiContentEnabled globalAppConfig)
  then mret []
  else
    let generatedText :=
      "AI generated content for " +:+ interpolate variables "city"
        +:+ " " +:+ interpolate variables "service" in
    textField ← alloc (HObject [
      ("id", HStr "intro"); ("type", HStr "text");
      ("value", HStr generatedText)]);
    fields ← alloc (HObject [("intro", textField)]);
    section ← createSection "text" fields;
    mret [section].

Definition cities : list string := ["sydney"; "melbourne"; "brisbane"].
Definition services : list string := ["house-cleaning"; "end-of-lease"].

(** The body of the innermost loop of [applyProgrammaticSEO]. *)
Definition generatePage (rule : RouteRule.t) (city service : string)
    : M unit :=
  let slug := "/" +:+ city +:+ "/" +:+ service in
  existing ← getPageBySlug slug;
  if negb (truthyH existing) then
    generatedSections ←
      (if FeatureFlags.enableAIContent (AppConfig.featureFlags globalAppConfig)
          && aiContentEnabled globalAppConfig
          && truthyString (RouteRule.aiInstructions rule)
       then generateAIContentSections
              (ofOptionString (RouteRule.aiInstructions rule))
              [("city", PStr city); ("service", PStr service)]
       else mret []);
    newPage ← createPage "city" slug;
    sections ← readProp newPage "sections";
    arrayPush sections generatedSections;;
    registerPage newPage
  else mret tt.

Definition isLocationsRule (rule : RouteRule.t) : bool :=
  match RouteRule.type rule, RouteRule.generateFrom rule with
  | RouteRule.dynamic, Some RouteRule.locations => true
  | _, _ => false
  end.

(** [applyProgrammaticSEO]. The function is [async]; its only [await] is on
    [generateAIContentSections], which never suspends, and runs are taken
    one after the other. The shared [aiInstructions] of the extracted
    details is bound but not read. *)
Definition applyProgrammaticSEO : M unit :=
  if negb (FeatureFlags.enableProgrammaticSEO
             (AppConfig.featureFlags globalAppConfig))
     || negb (default false
                (ProgrammaticSEO.enabled <$> programmaticSEOOf globalAppConfig))
  then mret tt
  else
    let details := extractProgrammaticSEODetails in
    let routeRules := details_routeRules details in
    let aiInstructions := details_aiInstructions details in
    forOf routeRules (λ rule,
      if isLocationsRule rule then
        forOf cities (λ city,
          forOf services (λ service, generatePage rule city service))
      else mret tt).

(** [[...v]] for the values a section list can be read as; [None] when the
    value is not iterable. *)
Definition spread (h : list hobj) (v : hval) : option (list hval) :=
  match v with
  | HPrim (PStr s) =>
      Some ((λ c, HStr (String c EmptyString)) <$> String.list_ascii_of_string s)
  | HPrim _ => None
  | HRef _ => arrayElems h v
  end.

(** [globalAppConfig.advancedConfig?.seo?.programmaticSEO?.sharedSections ?? []] *)
Definition sharedSectionPool : list SharedSection.t :=
  default [] (ProgrammaticSEO.sharedSections <$> programmaticSEOOf globalAppConfig).

(** The loop of [resolveSharedSections] over the ref list, from the point
    where [updatedSections] and [resolvedRefs] hold the given values.
    [updatedSections] is local until the function returns; it is kept as a
    list and becomes an object of the heap when the result is built (no
    other object is created in between). *)
Fixpoint resolveRefs (sharedSections : list SharedSection.t)
    (refIds : list hval) (updatedSections : list hval)
    (resolvedRefs : gset string) : M (list hval) :=
  match refIds with
  | [] => mret updatedSections
  | refId :: rest =>
      match refId with
      | HStr id =>
          match find (λ s, String.eqb (SharedSection.id s) id)
                  sharedSections with
          | None =>
              console_warn
                ("[resolveSharedSections] Shared section not found: " +:+ id);;
              resolveRefs sharedSections rest updatedSections resolvedRefs
          | Some sharedSec =>
              s ← getState;
              if negb (isSectionAt (heap s) (SharedSection.section sharedSec))
              then
                console_error
                  ("[resolveSharedSections] Invalid section structure for "
                   +:+ id);;
                resolveRefs sharedSections rest updatedSections resolvedRefs
              else if bool_decide (id ∈ resolvedRefs) then
                console_warn
                  ("[resolveSharedSections] Duplicate shared section reference: "
                   +:+ id);;
                resolveRefs sharedSections rest updatedSections resolvedRefs
              else
                resolveRefs sharedSections rest
                  (updatedSections ++ [SharedSection.section sharedSec])
                  ({[id]} ∪ resolvedRefs)
          end
      | _ =>
          throw (ValidationError "INVALID_REF_ID"
                   ("Invalid shared section reference: " +:+ toString refId))
      end
  end.

(** [resolveSharedSections] *)
Definition resolveSharedSections (page : hval) : M hval :=
  if negb (truthyH page) then
    throw (ValidationError "PAGE_REQUIRED"
             "Page is required for resolving shared sections")
  else
    let sharedSections := sharedSectionPool in
    if negb (FeatureFlags.enableSharedSections
               (AppConfig.featureFlags globalAppConfig))
       || (length sharedSections =? 0)%nat
    then mret page
    else
      sharedSectionRefs ← readProp page "sharedSectionRefs";
      s ← getState;
      match arrayElems (heap s) sharedSectionRefs with
      | None =>
          throw (ValidationError "INVALID_SHARED_REFS"
                   "sharedSectionRefs must be an array")
      | Some refIds =>
          sections ← readProp page "sections";
          match (if nullish sections then Some []
                 else spread (heap s) sections) with
          | None => throw (TypeError "page.sections is not iterable")
          | Some original =>
              updatedSections ←
                resolveRefs sharedSections refIds original ∅;
              sectionsArray ← alloc (HArray updatedSections);
              alloc (HObject (setProp "sections" sectionsArray
                                (ownProps (heap s) page)))
          end
      end.

(** ** 14 (continued). Page validation *)

(** Step 2 of [validatePage]: the [forEach] over the validated sections. *)
Definition validateSections (sections : list value) : M unit :=
  forEach sections (λ section index,
    validateSafely sectionSchema section
      ("INVALID_SECTION_" +:+ pretty index);;
    mret tt).

(** [validatedPage.sections], an array once the page schema has accepted
    the page. *)
Definition sectionsOf (page : value) : list value :=
  match get page "sections" with
  | VArr sections => sections
  | _ => []
  end.

(** [pageValidationMiddleware.validatePage]. The argument is untrusted data,
    given as a tree. The objects that Zod builds for the validated page
    enter the heap when the parse returns; step 2 reads the sections it has
    just built. *)
Definition validatePage (page : value) (resolveShared : bool) : M hval :=
  validatedPage ← validateSafely pageSchema page "INVALID_PAGE_STRUCTURE";
  validatedRef ← allocTree validatedPage;
  validateSections (sectionsOf validatedPage);;
  if resolveShared then
    resolvedPage ← resolveSharedSections validatedRef;
    mret resolvedPage
  else mret validatedRef.

(** ** 23. Template system *)

(** [templateUtils.register] *)
Definition template_register (template : hval) : M unit :=
  id ← readProp template "id";
  s ← getState;
  if truthyH (registryGet (_templateRegistry s) (toString id)) then
    throw (ValidationError "Template already exists" "TEMPLATE_EXISTS")
  else
    modify (λ s, setTemplateRegistry
                   (<[toString id := template]> (_templateRegistry s)) s).

(** [templateUtils.get] *)
Definition template_get (id : string) : M hval :=
  s ← getState;
  let template := registryGet (_templateRegistry s) id in
  if negb (truthyH template) then
    throw (ValidationError "Template not found" "TEMPLATE_NOT_FOUND")
  else mret template.

(** [v.length > 0] for the [variables] of a template. What is not an array
    or a string is asked for a [length] property, which counts when it is a
    number. *)
Definition lengthPositive (v : hval) : M bool :=
  s ← getState;
  match v with
  | HPrim (PStr str) => mret (negb (String.eqb str ""))
  | _ =>
      match arrayElems (heap s) v with
      | Some elems => mret (negb (length elems =? 0)%nat)
      | None =>
          len ← readProp v "length";
          mret (match len with HNum n => gtQ n 0 | _ => false end)
      end
  end.

(** [String(variables[key] ?? '')] *)
Definition substitution (variables : list (string * prim)) (key : string)
    : string :=
  match variable variables key with
  | Some PUndefined | Some PNull => ""
  | Some p => primToString p
  | None => if inherited key then prototypeMemberString key else ""
  end.

(** [templateUtils.instantiate] *)
Definition template_instantiate (templateId : string)
    (variables : list (string * prim)) : M hval :=
  template ← template_get templateId;
  skeleton ← readProp template "section";
  s ← getState;
  section ← alloc (HObject (ownProps (heap s) skeleton));
  declared ← readProp template "variables";
  hasVariables ← lengthPositive declared;
  section ←
    ((if (hasVariables : bool) then
       s ← getState;
       match reifyIn (heap s) section with
       | None => throw (TypeError "Converting circular structure to JSON")
       | Some tree =>
           match JSON_parse
                   (replacePlaceholders (substitution variables)
                      (JSON_stringify tree)) with
           | None => throw SyntaxError
           | Some tree' => allocTree tree'
           end
       end
     else mret section) : M hval);
  aiPrompt ← readProp template "aiPrompt";
  if truthyH aiPrompt then
    aiContent ← generateAIContentSections aiPrompt variables;
    match aiContent with
    | first :: _ =>
        s ← getState;
        alloc (HObject (mergeProps (ownProps (heap s) section)
                          (ownProps (heap s) first)))
    | [] => mret section
    end
  else mret section.
End origincore.

(* ====================================================================== *)
(** * Definitions used in the statements *)
(* ====================================================================== *)

(** A schema description is well formed when it can be the result of the
    builder: the keys of a shape are distinct, and every option of a
    discriminated union is an object schema with a literal under the
    discriminator. *)
Fixpoint wellFormed (s : schema) : bool :=
  match s with
  | ZArray e | ZRecord e | ZOptional e | ZDefault e _ | ZEffects e _ =>
      wellFormed e
  | ZTuple items => forallb wellFormed items
  | ZObject shape _ =>
      bool_decide (NoDup shape.*1) && forallb (λ ks, wellFormed ks.2) shape
  | ZDiscriminatedUnion d options =>
      forallb (λ o, bool_decide (is_Some (discriminatorOf d o)) && wellFormed o)
        options
  | _ => true
  end.

(** The exceptions [resolveSharedSections] can raise. *)
Definition resolveError (e : exn) : Prop :=
  e = ValidationError "PAGE_REQUIRED"
        "Page is required for resolving shared sections"
  ∨ e = ValidationError "INVALID_SHARED_REFS"
          "sharedSectionRefs must be an array"
  ∨ (∃ shown, e = ValidationError "INVALID_REF_ID"
                    ("Invalid shared section reference: " +:+ shown))
  ∨ (∃ message, e = TypeError message).

(** Two states that differ at most in what the console holds. *)
Definition sameButConsole (s s' : State) : Prop :=
  heap s' = heap s
  ∧ _sectionRegistry s' = _sectionRegistry s
  ∧ _pageRegistry s' = _pageRegistry s
  ∧ _templateRegistry s' = _templateRegistry s
  ∧ draws s' = draws s.

(** [s'] extends [s]: every object of [s] is still there, unchanged, and the
    three registries are the same. *)
Definition extends (s s' : State) : Prop :=
  heap s `prefix_of` heap s'
  ∧ _sectionRegistry s' = _sectionRegistry s
  ∧ _pageRegistry s' = _pageRegistry s
  ∧ _templateRegistry s' = _templateRegistry s.

(** What [v.k] evaluates to when [v] is neither [undefined] nor [null]. *)
Definition propOf (h : list hobj) (v : hval) (k : string) : hval :=
  match v with
  | HRef l =>
      match h !! l with
      | Some (HObject props) => default HUndefined (assoc k props)
      | _ => HUndefined
      end
  | _ => HUndefined
  end.

(** [[...(sections ?? [])]] *)
Definition spreadOrEmpty `{Runtime} (h : list hobj) (sections : hval)
    : option (list hval) :=
  if nullish sections then Some [] else spread h sections.

(** The input sets the feature flag [name] to [true]. *)
Definition flagOn (input : value) (name : string) : Prop :=
  get (get input "featureFlags") name = VBool true.

(** The input has an [advancedConfig]. *)
Definition advancedConfigPresent (input : value) : Prop :=
  get input "advancedConfig" ≠ VUndefined.


(* ====================================================================== *)
(** * Sample data *)
(* ====================================================================== *)

(** A serializer for the sample documents: strings without characters to
    escape, integral numbers, properties holding [undefined] left out. *)
Definition quoted (s : string) : string :=
  String (ascii_of_nat 34) (s +:+ String (ascii_of_nat 34) EmptyString).

Fixpoint sampleStringify (v : value) : string :=
  match v with
  | VPrim PUndefined | VPrim PNull | VPrim POther => "null"
  | VPrim (PBool b) => if b then "true" else "false"
  | VPrim (PNum n) =>
      match n with Finite q => pretty (Qnum q) | _ => "null" end
  | VPrim (PStr s) => quoted s
  | VArr elems =>
      "[" +:+ String.concat "," (map sampleStringify elems) +:+ "]"
  | VObj props =>
      "{" +:+ String.concat ","
                (omap (λ kv, if isUndefined kv.2 then None
                             else Some (quoted kv.1 +:+ ":"
                                        +:+ sampleStringify kv.2)) props)
          +:+ "}"
  end.

(** The one document the sample runtime can read back: the section of the
    sample template once its placeholder is replaced by "Sydney". *)
Definition greetingSydney : value :=
  VObj [
    ("id", VStr "greeting-section");
    ("type", VStr "text");
    ("fields", VObj [
       ("headline", VObj [("id", VStr "headline"); ("type", VStr "text");
                          ("value", VStr "Hello Sydney")])])].

Definition knownDocuments : list value := [greetingSydney].

(** A runtime to run the definitions on sample data. Its [JSON_parse] inverts
    its [JSON_stringify] on the known documents and rejects any other text. *)
Definition sampleRuntime : Runtime := {|
  isURL := λ s, String.prefix "https://" s;
  isDatetime := λ s, (String.length s =? 24)%nat;
  numberToString := λ n,
    match n with
    | Finite q => pretty (Qnum q)
    | Infinite negative => if negative then "-Infinity" else "Infinity"
    | NaN => "NaN"
    end;
  JSON_stringify := sampleStringify;
  JSON_parse := λ text,
    find (λ doc, String.eqb (sampleStringify doc) text) knownDocuments;
  prototypeMemberString := λ _, "function () { [native code] }";
  randomUUID := λ n, "00000000-0000-4000-8000-" +:+ pretty n;
  toISOString := λ _, "2024-12-17T02:33:00.000Z";
|}.

Definition emptyState : State := {|
  heap := [];
  _sectionRegistry := ∅;
  _pageRegistry := ∅;
  _templateRegistry := ∅;
  console := [];
  draws := 0;
|}.

(** A section and a page as a client would post them. *)
Definition sampleSection : value :=
  VObj [
    ("id", VStr "intro-section");
    ("type", VStr "text");
    ("fields", VObj [
       ("intro", VObj [("id", VStr "intro"); ("type", VStr "text");
                       ("value", VStr "Welcome")])])].

Definition samplePage : value :=
  VObj [
    ("id", VStr "page-1");
    ("type", VStr "city");
    ("slug", VStr "/sydney");
    ("sections", VArr [sampleSection]);
    ("lastModified", VStr "2024-12-17T02:33:00.000Z");
    ("lastModifiedBy", VStr "editor")].

(** ** The configuration literal of the source *)

Definition triple (a b c : number) : value := VArr [VNum a; VNum b; VNum c].

(** [configData] *)
Definition configData : value :=
  VObj [
    ("featureFlags", VObj [
       ("enablePersonalization", VBool false);
       ("enableABTesting", VBool false);
       ("enableVersioning", VBool true);
       ("enableDrafts", VBool true);
       ("enableTemplates", VBool true);
       ("enableAIContent", VBool true);
       ("enableMarketIntelligence", VBool false);
       ("enableAdvancedSEO", VBool true);
       ("enableCompetitorCrawling", VBool true);
       ("enableVectorSEO", VBool false);
       ("enableLeadFunnels", VBool true);
       ("enableMultiRegionDeploy", VBool false);
       ("enableMicrofrontends", VBool false);
       ("enableEmailAutomation", VBool true);
       ("enableN8nWorkflows", VBool false);
       ("enableProgrammaticSEO", VBool true);
       ("enableContentClustering", VBool true);
       ("enableSharedSections", VBool true);
       ("enableRoutePersonalization", VBool false);
       ("enableLocalizationSEO", VBool true);
       ("enableAdvancedCompetitorAnalysis", VBool true);
       ("enableRecentlyCleaned", VBool false);
       ("enableProviderFlow", VBool false)]);
    ("theme", VObj [
       ("colors", VObj [
          ("primary", VObj [("hue", VNum (int 273)); ("saturation", VNum (int 83));
                            ("lightness", VNum (int 60))]);
          ("secondary", VObj [("hue", VNum (int 335)); ("saturation", VNum (int 85));
                              ("lightness", VNum (int 65))]);
          ("neutral", VObj [("hue", VNum (int 273)); ("saturation", VNum (int 6));
                            ("lightness", VNum (int 32))]);
          ("semantic", VObj [
             ("background", triple (int 0) (int 0) (int 100));
             ("foreground", triple (int 273) (int 45) (int 15));
             ("accent", triple (int 273) (int 60) (int 97));
             ("muted", triple (int 273) (int 60) (int 97));
             ("destructive", triple (int 350) (int 84) (int 60));
             ("border", triple (int 273) (int 30) (int 92));
             ("input", triple (int 273) (int 30) (int 92));
             ("ring", triple (int 273) (int 83) (int 60));
             ("card", triple (int 0) (int 0) (int 100));
             ("popover", triple (int 0) (int 0) (int 100));
             ("cardForeground", triple (int 273) (int 45) (int 15));
             ("popoverForeground", triple (int 273) (int 45) (int 15));
             ("primaryForeground", triple (int 210) (int 40) (int 98));
             ("secondaryForeground",
                triple (frac 2222 10) (frac 474 10) (frac 112 10));
             ("mutedForeground",
                triple (frac 2154 10) (frac 163 10) (frac 469 10));
             ("accentForeground",
                triple (frac 2222 10) (frac 474 10) (frac 112 10));
             ("destructiveForeground", triple (int 210) (int 40) (int 98))]);
          ("sidebar", VObj [
             ("background", triple (int 0) (int 0) (int 98));
             ("foreground", triple (int 240) (frac 53 10) (frac 261 10));
             ("primary", triple (int 240) (frac 59 10) (int 10));
             ("primaryForeground", triple (int 0) (int 0) (int 98));
             ("accent", triple (int 240) (frac 48 10) (frac 959 10));
             ("accentForeground", triple (int 240) (frac 59 10) (int 10));
             ("border", triple (int 220) (int 13) (int 91));
             ("ring", triple (frac 2172 10) (frac 912 10) (frac 598 10))]);
          ("chart", VObj [
             ("1", triple (int 12) (int 76) (int 61));
             ("2", triple (int 173) (int 58) (int 39));
             ("3", triple (int 197) (int 37) (int 24));
             ("4", triple (int 43) (int 74) (int 66));
             ("5", triple (int 27) (int 87) (int 67))])]);
       ("spacing", VObj [
          ("base", VNum (int 16)); ("scale", VNum (frac 15 10));
          ("fluid", VObj [("min", VNum (frac 5 10)); ("max", VNum (frac 15 10))])]);
       ("typography", VObj [
          ("baseSize", VNum (int 16)); ("scaleRatio", VNum (frac 125 100));
          ("fluid", VObj [("minVw", VNum (int 320)); ("maxVw", VNum (int 1280))])]);
       ("containers", VObj [
          ("maxWidth", VObj [("sm", VNum (int 640)); ("md", VNum (int 768));
                             ("lg", VNum (int 1024)); ("xl", VNum (int 1280))]);
          ("padding", VObj [("sm", VNum (int 16)); ("md", VNum (int 24));
                            ("lg", VNum (int 32))])]);
       ("motion", VObj [
          ("duration", VObj [("instant", VNum (int 50)); ("fast", VNum (int 100));
                             ("normal", VNum (int 200)); ("slow", VNum (int 300))]);
          ("easing", VObj [
             ("default", VStr "cubic-bezier(0.4,0,0.2,1)");
             ("in", VStr "cubic-bezier(0.4,0,1,1)");
             ("out", VStr "cubic-bezier(0,0,0.2,1)")])]);
       ("darkMode", VBool false);
       ("prefersReducedMotion", VBool false)]);
    ("advancedConfig", VObj [
       ("seo", VObj [
          ("internalLinking", VObj [("enabled", VBool true);
                                    ("strategy", VStr "cluster-based")]);
          ("schemaEnhancements", VArr [VStr "FAQ"; VStr "LocalBusiness"]);
          ("vectorSEO", VObj [
             ("enabled", VBool false);
             ("embeddingModel", VStr "text-embedding-model");
             ("vectorDB", VStr "pinecone");
             ("clusterStrategy", VStr "semantic")]);
          ("programmaticSEO", VObj [
             ("enabled", VBool true);
             ("routeRules", VArr [VObj [
                ("pattern", VStr "/:city/:service");
                ("type", VStr "dynamic");
                ("generateFrom", VStr "locations");
                ("aiInstructions", VStr "Generate city-service pages using AI")]]);
             ("localization", VBool true);
             ("contentClusters", VArr [VObj [
                ("clusterId", VStr "cleaning-hub");
                ("label", VStr "Cleaning Hub");
                ("description", VStr "Cluster of cleaning guides");
                ("sectionRefs", VArr [])]]);
             ("sharedSections", VArr []);
             ("multilingualSupport", VArr [VObj [
                ("lang", VStr "en");
                ("alternateLinks", VObj [("fr", VStr "/fr/home");
                                         ("zh", VStr "/zh/home")])]])])]);
       ("aiContent", VObj [
          ("enabled", VBool true);
          ("provider", VStr "openai");
          ("model", VStr "gpt-4");
          ("fallback", VBool true);
          ("promptTemplates", VObj [
             ("rewriteSection",
                VStr "Rewrite this section focusing on local relevance");
             ("faqRefinement",
                VStr "Refine these FAQs using GSC queries and transcripts")]);
          ("contentPolicies", VArr [VStr "No duplicate content";
                                    VStr "Maintain brand voice"]);
          ("competitorAwareContent", VBool true);
          ("localizationSupport", VBool true)]);
       ("competitorAnalysis", VObj [
          ("enabled", VBool true);
          ("sources", VArr [VStr "semrush"; VStr "serpApi"; VStr "searchConsole"]);
          ("frequency", VStr "weekly");
          ("metrics", VObj [("trackSERP", VBool true);
                            ("trackBacklinks", VBool false);
                            ("trackLocalCompetitors", VBool true)])])])].

(** The typed view of [validatedConfig], the result of validating
    [configData]. *)
Definition validatedConfig : AppConfig.t := {|
  AppConfig.featureFlags := {|
    FeatureFlags.enableAIContent := true;
    FeatureFlags.enableAdvancedSEO := true;
    FeatureFlags.enableProgrammaticSEO := true;
    FeatureFlags.enableSharedSections := true |};
  AppConfig.advancedConfig := Some {|
    AdvancedConfig.seo := Some {|
      Seo.programmaticSEO := {|
        ProgrammaticSEO.enabled := true;
        ProgrammaticSEO.routeRules := [{|
          RouteRule.pattern := "/:city/:service";
          RouteRule.type := RouteRule.dynamic;
          RouteRule.generateFrom := Some RouteRule.locations;
          RouteRule.aiInstructions :=
            Some "Generate city-service pages using AI" |}];
        ProgrammaticSEO.localization := true;
        ProgrammaticSEO.sharedSections := [] |} |};
    AdvancedConfig.aiContent := Some {| AiContent.enabled := true |} |} |}.

(** A configuration with an [advancedConfig] and every flag left at its
    default. *)
Definition unflaggedConfigData : value :=
  VObj [("featureFlags", VObj []); ("advancedConfig", VObj [])].

(** ** Shared-section resolution, as the specification words it *)

Section resolution_spec.
Context `{Runtime}.

(** Looking a ref id up in the pool: the section of the first entry with
    that id, provided it passes the section schema. *)
Definition resolvesTo (pool : list SharedSection.t) (h : list hobj)
    (id : string) : option hval :=
  match find (λ e, String.eqb (SharedSection.id e) id) pool with
  | Some e =>
      if isSectionAt h (SharedSection.section e)
      then Some (SharedSection.section e) else None
  | None => None
  end.

(** Every id of the list once, at the place of its first occurrence. *)
Fixpoint firstOccurrences (ids : list string) : list string :=
  match ids with
  | [] => []
  | id :: rest => id :: filter (λ x, x ≠ id) (firstOccurrences rest)
  end.

(** The sections a ref list resolves to: each id once, first occurrence
    first, the ids that resolve to nothing left out. *)
Definition resolvedSections (pool : list SharedSection.t) (h : list hobj)
    (ids : list string) : list hval :=
  omap (resolvesTo pool h) (firstOccurrences ids).
End resolution_spec.

(** ** A page with shared-section refs *)

(** A configuration whose pool holds one shared section, the object at
    address 1 of [sharedHeap]. *)
Definition promoEntry : SharedSection.t :=
  {| SharedSection.id := "promo"; SharedSection.section := HRef 1 |}.

Definition sharedConfig : AppConfig.t := {|
  AppConfig.featureFlags := {|
    FeatureFlags.enableAIContent := false;
    FeatureFlags.enableAdvancedSEO := true;
    FeatureFlags.enableProgrammaticSEO := false;
    FeatureFlags.enableSharedSections := true |};
  AppConfig.advancedConfig := Some {|
    AdvancedConfig.seo := Some {|
      Seo.programmaticSEO := {|
        ProgrammaticSEO.enabled := false;
        ProgrammaticSEO.routeRules := [];
        ProgrammaticSEO.localization := false;
        ProgrammaticSEO.sharedSections := [promoEntry] |} |};
    AdvancedConfig.aiContent := None |} |}.

Definition sharedHeap : list hobj := [
  (* 0 *) HObject [];
  (* 1 *) HObject [("id", HStr "promo-banner"); ("type", HStr "hero");
                   ("fields", HRef 0)];
  (* 2 *) HObject [];
  (* 3 *) HObject [("id", HStr "intro"); ("type", HStr "text");
                   ("fields", HRef 2)];
  (* 4 *) HArray [HRef 3];
  (* 5 *) HArray [HStr "promo"; HStr "does-not-exist"; HStr "promo"];
  (* 6 *) HObject [("id", HStr "page-offers"); ("type", HStr "landing");
                   ("slug", HStr "/offers"); ("sections", HRef 4);
                   ("sharedSectionRefs", HRef 5);
                   ("version", HNum (int 1));
                   ("lastModified", HStr "2024-12-17T02:33:00.000Z");
                   ("lastModifiedBy", HStr "editor")];
  (* 7 *) HArray [HStr "promo"; HNum (int 7)];
  (* 8 *) HObject [("id", HStr "page-broken"); ("type", HStr "landing");
                   ("slug", HStr "/broken"); ("sections", HRef 4);
                   ("sharedSectionRefs", HRef 7);
                   ("version", HNum (int 1));
                   ("lastModified", HStr "2024-12-17T02:33:00.000Z");
                   ("lastModifiedBy", HStr "editor")]].

Definition sharedState : State := setHeap sharedHeap emptyState.

(** ** Registered entries *)

Definition sampleItem : SectionRegistryItem :=
  {| label := "Text"; icon := "type"; description := "A block of text" |}.

(** A state where the section type "text", the page "/sydney/house-cleaning"
    and two templates over the same section are registered: "greeting", with
    no declared variable, and "greeting-city", which declares the variable
    [city]. Neither has an AI prompt. *)
Definition registeredState : State := {|
  heap := [
    (* 0 *) HArray [];
    (* 1 *) HObject [("id", HStr "page-1"); ("type", HStr "city");
                     ("slug", HStr "/sydney/house-cleaning");
                     ("sections", HRef 0)];
    (* 2 *) HObject [("id", HStr "headline"); ("type", HStr "text");
                     ("value", HStr "Hello ${city}")];
    (* 3 *) HObject [("headline", HRef 2)];
    (* 4 *) HObject [("id", HStr "greeting-section"); ("type", HStr "text");
                     ("fields", HRef 3)];
    (* 5 *) HArray [];
    (* 6 *) HObject [("id", HStr "greeting"); ("name", HStr "Greeting");
                     ("section", HRef 4); ("variables", HRef 5)];
    (* 7 *) HObject [("key", HStr "city"); ("label", HStr "City");
                     ("type", HStr "text")];
    (* 8 *) HArray [HRef 7];
    (* 9 *) HObject [("id", HStr "greeting-city");
                     ("name", HStr "Greeting by city");
                     ("section", HRef 4); ("variables", HRef 8)]];
  _sectionRegistry := {["text" := sampleItem]};
  _pageRegistry := {["/sydney/house-cleaning" := HRef 1]};
  _templateRegistry := {["greeting" := HRef 6; "greeting-city" := HRef 9]};
  console := [];
  draws := 0;
|}.

(** ** Freshness *)

(** [v] is no object created before the heap had [n] objects. *)
Definition freshFrom (n : nat) (v : hval) : Prop :=
  match v with
  | HRef l => n ≤ l
  | HPrim _ => True
  end.

Definition objValues (o : hobj) : list hval :=
  match o with
  | HObject props => props.*2
  | HArray elems => elems
  end.

(** The object refers to no object created before the heap had [n]. *)
Definition objFreshFrom (n : nat) (o : hobj) : Prop :=
  Forall (freshFrom n) (objValues o).

(** Nothing reachable from [v] in the heap [h] was created before the heap
    had [n] objects: from some point [m] past [n] on, [v] and every object
    created since refer only to objects created since. *)
Definition isolatedFrom (n : nat) (h : list hobj) (v : hval) : Prop :=
  ∃ m, n ≤ m ∧ freshFrom m v ∧ Forall (objFreshFrom m) (drop m h).

(** A computation that, whatever it returns or throws, leaves every existing
    object and the three registries as they were. *)
Definition extending {A : Type} (m : M A) : Prop :=
  ∀ s, extends s (finalState (m s)).

(** ** Programmatic page generation *)

(** Both switches that [applyProgrammaticSEO] looks at. *)
Definition programmaticSEOEnabled (cfg : AppConfig.t) : bool :=
  FeatureFlags.enableProgrammaticSEO (AppConfig.featureFlags cfg)
  && default false (ProgrammaticSEO.enabled <$> programmaticSEOOf cfg).

Definition slugOf (city service : string) : string :=
  "/" +:+ city +:+ "/" +:+ service.

(** The city and service pairs, in the order the loops visit them. *)
Definition locations : list (string * string) :=
  city ← cities; service ← services; [(city, service)].


(** [getPageBySlug(slug)] as a condition. *)
Definition registeredAt (s : State) (slug : string) : bool :=
  truthyH (registryGet (_pageRegistry s) slug).

(** The condition under which a page generated by [rule] is given AI
    content. *)
Definition aiContentFor (cfg : AppConfig.t) (rule : RouteRule.t) : bool :=
  FeatureFlags.enableAIContent (AppConfig.featureFlags cfg)
  && aiContentEnabled cfg
  && truthyString (RouteRule.aiInstructions rule).

(** [section] is a section as [generateAIContentSections] builds it for a
    city and a service: of type [text], with one field [intro] holding the
    generated text. The text names the city and the service and nothing
    else. *)
Definition aiSection (h : list hobj) (city service : string) (section : hval)
    : Prop :=
  ∃ lsection id lfields lintro style tracking seo,
    section = HRef lsection
    ∧ h !! lsection
      = Some (HObject [("id", HStr id); ("type", HStr "text");
                       ("fields", HRef lfields); ("style", style);
                       ("tracking", tracking); ("seo", seo)])
    ∧ h !! lfields = Some (HObject [("intro", HRef lintro)])
    ∧ h !! lintro
      = Some (HObject [("id", HStr "intro"); ("type", HStr "text");
                       ("value", HStr ("AI generated content for " +:+ city
                                       +:+ " " +:+ service))]).

(** [entry] is a page created under [rule], once the heap had [n] objects,
    for the slug [slug]: its sections are one AI section when [rule] calls
    for AI content, and none otherwise. *)
Definition generatedPage (cfg : AppConfig.t) (rule : RouteRule.t) (n : nat)
    (h : list hobj) (slug : string) (entry : hval) : Prop :=
  ∃ city service page sections,
    (city, service) ∈ locations ∧ slug = slugOf city service
    ∧ entry = HRef page ∧ n ≤ page
    ∧ propOf h entry "slug" = HStr slug
    ∧ arrayElems h (propOf h entry "sections") = Some sections
    ∧ if aiContentFor cfg rule
      then ∃ section, sections = [section] ∧ aiSection h city service section
      else sections = [].

(** What a run that generates under [rule] may do to the state: objects are
    added, and each slug of the page registry either keeps its entry or had
    none and now holds a page generated under [rule]. *)
Definition generates (cfg : AppConfig.t) (rule : RouteRule.t) (s s' : State)
    : Prop :=
  heap s `prefix_of` heap s'
  ∧ _sectionRegistry s' = _sectionRegistry s
  ∧ _templateRegistry s' = _templateRegistry s
  ∧ ∀ slug,
      _pageRegistry s' !! slug = _pageRegistry s !! slug
      ∨ (registeredAt s slug = false
         ∧ ∃ entry, _pageRegistry s' !! slug = Some entry
                    ∧ generatedPage cfg rule (length (heap s)) (heap s')
                        slug entry).


(** A configuration with two route rules: the first, which generates
    nothing, carries AI instructions; the second, which generates the city
    pages, carries none. *)
Definition servicesRule : RouteRule.t := {|
  RouteRule.pattern := "/services/:service";
  RouteRule.type := RouteRule.dynamic;
  RouteRule.generateFrom := Some RouteRule.services;
  RouteRule.aiInstructions := Some "Describe each service in detail" |}.

Definition plainLocationsRule : RouteRule.t := {|
  RouteRule.pattern := "/:city/:service";
  RouteRule.type := RouteRule.dynamic;
  RouteRule.generateFrom := Some RouteRule.locations;
  RouteRule.aiInstructions := None |}.

Definition twoRuleConfig : AppConfig.t := {|
  AppConfig.featureFlags := {|
    FeatureFlags.enableAIContent := true;
    FeatureFlags.enableAdvancedSEO := true;
    FeatureFlags.enableProgrammaticSEO := true;
    FeatureFlags.enableSharedSections := false |};
  AppConfig.advancedConfig := Some {|
    AdvancedConfig.seo := Some {|
      Seo.programmaticSEO := {|
        ProgrammaticSEO.enabled := true;
        ProgrammaticSEO.routeRules := [servicesRule; plainLocationsRule];
        ProgrammaticSEO.localization := false;
        ProgrammaticSEO.sharedSections := [] |} |};
    AdvancedConfig.aiContent := Some {| AiContent.enabled := true |} |} |}.

(* ====================================================================== *)
(** * Further functions of the source *)
(* ====================================================================== *)

(** ** 14. [validationUtils.validateContent] *)





Section validate_content.
(** [String.prototype.toLowerCase]; the results hold for any function. *)
Context (toLowerCase : string → string).

End validate_content.

(** ** 15. The other type guards on trees *)

Section type_guards.
Context `{Runtime}.

(** [typeGuards.isField] *)
Definition isField (data : value) : bool :=
  bool_decide (is_Some (safeParse fieldSchema data)).

(** [typeGuards.isPage] *)
Definition isPage (data : value) : bool :=
  bool_decide (is_Some (safeParse pageSchema data)).
End type_guards.

(** ** 14 (continued). [pageValidationMiddleware.validatePageMiddleware] *)

(** [try { body } catch (error) { handler(error) }] *)
Definition tryCatch {A : Type} (body : M A) (handler : exn → M A) : M A :=
  λ s,
    match body s with
    | Ok a s' => Ok a s'
    | Throw e s' => handler e s'
    end.

(** What the middleware sends with [res.status(...).json(...)]: the status
    and the [error] and [code] members of the body (the [details] member is
    the payload that the exceptions of the model do not carry). *)
Record Response := {
  status : Z;
  body_error : string;
  body_code : string;
}.

(** What the middleware has done when it returns: the value it has stored in
    [req.validatedPage], if it got that far, whether [next] was called, and
    the response it has sent, if any. *)
Record MiddlewareOutcome := {
  req_validatedPage : option hval;
  nextCalled : bool;
  sent : option Response;
}.

Section middleware.
Context `{Runtime} (globalAppConfig : AppConfig.t).

(** The [catch] block. *)
Definition respond (error : exn) : Response :=
  match error with
  | ValidationError message code =>
      {| status := 400; body_error := message; body_code := code |}
  | _ =>
      {| status := 500; body_error := "Internal validation error";
         body_code := "INTERNAL_ERROR" |}
  end.

(** [validatePageMiddleware(req, res, next)], for a request whose [body] is
    the given tree and a continuation [next] that may throw. The [try]
    block is split where [req.validatedPage] is assigned, so that the
    handler knows whether the assignment took place; both parts have the
    handler of the source. *)
Definition validatePageMiddleware (body : value) (next : M unit)
    : M MiddlewareOutcome :=
  tryCatch
    (let page := get body "page" in
     (if negb (truthy page) then
        throw (ValidationError "Page data is required" "PAGE_REQUIRED")
      else mret tt);;
     validatedPage ← validatePage globalAppConfig page true;
     tryCatch
       (next;;
        mret {| req_validatedPage := Some validatedPage;
                nextCalled := true; sent := None |})
       (λ error,
          mret {| req_validatedPage := Some validatedPage;
                  nextCalled := true; sent := Some (respond error) |}))
    (λ error,
       mret {| req_validatedPage := None; nextCalled := false;
               sent := Some (respond error) |}).
End middleware.

(** ** 16 (continued). [sectionRegistryUtils.get] *)

(** What a lookup in the section registry yields: an item that was
    registered, or, for a key that names a member of [Object.prototype], that
    member. *)
Inductive sectionEntry :=
  | OwnItem (item : SectionRegistryItem)
  | PrototypeMember (key : string).

Definition sectionRegistry_get (type : string) : M sectionEntry :=
  s ← getState;
  match _sectionRegistry s !! type with
  | Some item => mret (OwnItem item)
  | None =>
      if inherited type then mret (PrototypeMember type)
      else throw (Error ("Section type " +:+ type +:+ " not found"))
  end.

(** ** 17. [cacheUtils.validateConfig] *)

(** [SchemaError]: its message and its version (the details are Zod's issue
    list). *)
Record SchemaError := {
  schemaError_message : string;
  schemaError_version : string;
}.

Definition SCHEMA_VERSION : string := "5.0.0".

Definition cacheConfigSchema : schema :=
  z.object [
    ("maxSize", z.number |> z.positive);
    ("ttl", z.number |> z.positive)
  ] |> z.strict.

Section cache.
Context `{Runtime}.

(** [cacheUtils.validateConfig]: the validated configuration, or the
    SchemaError it throws. *)
Definition validateConfig (config : value) : SchemaError + value :=
  match safeParse cacheConfigSchema config with
  | None =>
      inl {| schemaError_message := "Invalid cache config";
             schemaError_version := SCHEMA_VERSION |}
  | Some data => inr data
  end.
End cache.

(** ** 20. Toasts *)

Module Toast.
(** [ToasterToast]: the [id], a string, and the other own properties in
    insertion order ([title], [description], [action], [open],
    [onOpenChange]; the nodes and the callback are opaque values). *)
Record ToasterToast := {
  id : string;
  props : list (string * value);
}.

(** [Partial<ToasterToast>]: the [id] may be missing. *)
Record Patch := {
  patch_id : option string;
  patch_props : list (string * value);
}.

Inductive Action :=
  | ADD_TOAST (toast : ToasterToast)
  | UPDATE_TOAST (toast : Patch)
  | DISMISS_TOAST (toastId : option string)
  | REMOVE_TOAST (toastId : option string).

Definition TOAST_LIMIT : nat := 1.
Definition MAX_SAFE_INTEGER : Z := 9007199254740991.

(** The module-level state of the toast code: the id counter, the ids that
    have a removal timer pending (oldest first: the timers have the same
    delay and fire in that order), the toasts, the listeners (by a name)
    and the calls they have received. *)
Record Store := {
  count : Z;
  toastTimeouts : list string;
  memoryState : list ToasterToast;
  listeners : list nat;
  calls : list (nat * list ToasterToast);
}.

Definition setCount (c : Z) (st : Store) : Store :=
  {| count := c; toastTimeouts := toastTimeouts st;
     memoryState := memoryState st; listeners := listeners st;
     calls := calls st |}.
Definition setTimeouts (t : list string) (st : Store) : Store :=
  {| count := count st; toastTimeouts := t;
     memoryState := memoryState st; listeners := listeners st;
     calls := calls st |}.
Definition setMemoryState (m : list ToasterToast) (st : Store) : Store :=
  {| count := count st; toastTimeouts := toastTimeouts st;
     memoryState := m; listeners := listeners st; calls := calls st |}.
Definition setCalls (c : list (nat * list ToasterToast)) (st : Store)
    : Store :=
  {| count := count st; toastTimeouts := toastTimeouts st;
     memoryState := memoryState st; listeners := listeners st;
     calls := c |}.

(** [genId] *)
Definition genId (st : Store) : string * Store :=
  let c := ((count st + 1) mod MAX_SAFE_INTEGER)%Z in
  (pretty c, setCount c st).

(** [addToRemoveQueue]: a timer is set unless one is pending for the id. *)
Definition addToRemoveQueue (toastId : string) (st : Store) : Store :=
  if bool_decide (toastId ∈ toastTimeouts st) then st
  else setTimeouts (toastTimeouts st ++ [toastId]) st.

Definition idIs (toastId : option string) (t : ToasterToast) : bool :=
  match toastId with
  | Some i => String.eqb (id t) i
  | None => false
  end.

(** [{ ...t, ...patch }], for a patch whose id, if any, is that of [t]. *)
Definition merge (t : ToasterToast) (patch : Patch) : ToasterToast :=
  {| id := id t; props := mergeProps (props t) (patch_props patch) |}.

(** [{ ...t, open: false }] *)
Definition close (t : ToasterToast) : ToasterToast :=
  {| id := id t; props := setProp "open" (VBool false) (props t) |}.

(** [toastReducer]. The state it is given and returns is the list of
    toasts; dismissing also sets timers. *)
Definition toastReducer (state : list ToasterToast) (action : Action)
    (st : Store) : list ToasterToast * Store :=
  match action with
  | ADD_TOAST toast => (take TOAST_LIMIT (toast :: state), st)
  | UPDATE_TOAST patch =>
      ((λ t, if idIs (patch_id patch) t then merge t patch else t)
         <$> state, st)
  | DISMISS_TOAST toastId =>
      let st' :=
        match toastId with
        | Some i =>
            if negb (String.eqb i "") then addToRemoveQueue i st
            else foldl (λ acc t, addToRemoveQueue (id t) acc) st state
        | None => foldl (λ acc t, addToRemoveQueue (id t) acc) st state
        end in
      ((λ t, if idIs toastId t || bool_decide (toastId = None)
             then close t else t) <$> state, st')
  | REMOVE_TOAST toastId =>
      match toastId with
      | None => ([], st)
      | Some i => (filter (λ t, id t ≠ i) state, st)
      end
  end.

(** [dispatch]: the reducer runs on [memoryState], then every listener is
    called with the new state. *)
Definition dispatch (action : Action) (st : Store) : Store :=
  let '(state, st1) := toastReducer (memoryState st) action st in
  let st2 := setMemoryState state st1 in
  setCalls (calls st2 ++ ((λ l, (l, state)) <$> listeners st2)) st2.

(** [toast]: the id of the new toast (the [dismiss] and [update] members of
    the result are [dismiss] and [update] below at that id). *)
Definition toast (newProps : list (string * value)) (st : Store)
    : string * Store :=
  let '(i, st1) := genId st in
  (i, dispatch (ADD_TOAST
                  {| id := i;
                     props := setProp "onOpenChange" (VPrim POther)
                                (setProp "open" (VBool true) newProps) |})
        st1).

Definition dismiss (i : string) (st : Store) : Store :=
  dispatch (DISMISS_TOAST (Some i)) st.

Definition update (i : string) (newProps : list (string * value))
    (st : Store) : Store :=
  dispatch (UPDATE_TOAST {| patch_id := Some i; patch_props := newProps |})
    st.

(** What a removal timer does when it fires. *)
Definition onTimeout (toastId : string) (st : Store) : Store :=
  dispatch (REMOVE_TOAST (Some toastId))
    (setTimeouts (filter (λ i, i ≠ toastId) (toastTimeouts st)) st).
End Toast.

(* ====================================================================== *)
(** * Definitions used in the statements (continued) *)
(* ====================================================================== *)

(** The heap value [r] denotes the tree [v] in the heap [h]. *)
Definition represents (h : list hobj) (r : hval) (v : value) : Prop :=
  ∃ fuel, reify fuel h r = Some v.

(** ** Sample data (continued) *)

(** [registeredState] with one more object, used as a page and as a template
    whose key is [constructor]. *)
Definition prototypeKeyState : State :=
  setHeap
    (heap registeredState
     ++ [HObject [("id", HStr "constructor"); ("slug", HStr "constructor")]])
    registeredState.

(** ** Toasts: what the statements speak of *)

Module ToastFacts.
Import Toast.

(** The ids returned by [n] calls of [genId], one after the other. *)
Fixpoint genIds (n : nat) (st : Store) : list string :=
  match n with
  | 0 => []
  | S n' => let '(i, st') := genId st in i :: genIds n' st'
  end.

(** What the code keeps true of the store: at most [TOAST_LIMIT] toasts, at
    most one pending timer per id, and a counter in the range of [genId]. *)
Definition consistent (st : Store) : Prop :=
  length (memoryState st) ≤ TOAST_LIMIT
  ∧ NoDup (toastTimeouts st)
  ∧ (0 ≤ count st < MAX_SAFE_INTEGER)%Z.

(** The store a module starts with. *)
Definition initial : Store :=
  {| count := 0; toastTimeouts := []; memoryState := [];
     listeners := []; calls := [] |}.

(** [t.open] *)
Definition isOpen (t : ToasterToast) : value := getProp "open" (props t).
End ToastFacts.


(** ** Pages in the registry, as trees *)

Section valid_pages.
Context `{Runtime}.

(** [entry] is an object of the heap that, read as a tree, passes the page
    schema, and is a city page with the given slug. *)
Definition validPageAt (h : list hobj) (slug : string) (entry : hval)
    : Prop :=
  ∃ tree, reifyIn h entry = Some tree
          ∧ isPage tree = true
          ∧ get tree "slug" = VStr slug
          ∧ get tree "type" = VStr "city".

(** From [s] to [s'] objects were added, and every slug of the page
    registry keeps its entry or holds a valid page. *)
Definition registersValid (s s' : State) : Prop :=
  heap s `prefix_of` heap s'
  ∧ ∀ slug,
      _pageRegistry s' !! slug = _pageRegistry s !! slug
      ∨ ∃ entry, _pageRegistry s' !! slug = Some entry
                 ∧ validPageAt (heap s') slug entry.
End valid_pages.

(** [registeredState] with one more template, "ai-greeting", over the same
    section: it declares no variable and has an AI prompt. *)
Definition aiTemplateState : State :=
  setTemplateRegistry
    (<["ai-greeting" := HRef 10]> (_templateRegistry registeredState))
    (setHeap
       (heap registeredState
        ++ [HObject [("id", HStr "ai-greeting"); ("name", HStr "AI greeting");
                     ("section", HRef 4); ("variables", HRef 5);
                     ("aiPrompt", HStr "Write a short introduction")]])
       registeredState).

(* ====================================================================== *)
(** * Theorems *)
(* ====================================================================== *)

(** ** Property lists *)


Lemma assoc_None {A : Type} (k : string) (l : list (string * A)) :
  assoc k l = None ↔ k ∉ l.*1.
Proof.
  induction l as [|[k' a] l IH]; simpl.
  - split; [intros _; apply not_elem_of_nil | done].
  - destruct (String.eqb_spec k k') as [->|Hne].
    + split; [done | intros []; apply elem_of_cons; by left].
    + rewrite IH, not_elem_of_cons. tauto.
Qed.

Lemma assoc_Some_elem {A : Type} (k : string) (a : A) (l : list (string * A)) :
  assoc k l = Some a → (k, a) ∈ l.
Proof.
  induction l as [|[k' a'] l IH]; simpl; [done|].
  destruct (String.eqb_spec k k') as [->|Hne].
  - intros [= ->]. apply elem_of_cons; by left.
  - intros. apply elem_of_cons; right; auto.
Qed.

Lemma assoc_NoDup {A : Type} (k : string) (a : A) (l : list (string * A)) :
  NoDup l.*1 → (k, a) ∈ l → assoc k l = Some a.
Proof.
  induction l as [|[k' a'] l IH]; simpl; [by intros _ ?%elem_of_nil|].
  rewrite NoDup_cons. intros [Hk Hnd] [[= -> ->]|Hin]%elem_of_cons.
  - by rewrite String.eqb_refl.
  - destruct (String.eqb_spec k k') as [->|Hne]; [|by apply IH].
    destruct Hk. apply list_elem_of_fmap. by exists (k', a).
Qed.

Lemma hasProp_false {A : Type} (k : string) (l : list (string * A)) :
  hasProp k l = false ↔ assoc k l = None.
Proof.
  unfold hasProp. rewrite bool_decide_eq_false, <-eq_None_not_Some. done.
Qed.

Lemma hasProp_true {A : Type} (k : string) (l : list (string * A)) :
  hasProp k l = true ↔ k ∈ l.*1.
Proof.
  unfold hasProp. rewrite bool_decide_eq_true.
  destruct (assoc k l) eqn:E.
  - split; [intros _|by eauto]. apply assoc_Some_elem in E.
    apply list_elem_of_fmap. by exists (k, a).
  - split; [by intros [? [=]]|]. by apply assoc_None in E.
Qed.

Section shape_lemmas.
Context (rec : schema → value → option value).

Lemma parseShape_keys shape props out k :
  parseShape rec shape props = Some out → k ∈ out.*1 → k ∈ shape.*1.
Proof.
  revert out. induction shape as [|[k' sk] shape IH]; intros out; simpl.
  - by intros [= <-].
  - intros Hp Hk.
    destruct (rec sk (getProp k' props)) as [v'|] eqn:Hv; [|done].
    destruct (parseShape rec shape props) as [rest|] eqn:Hrest; [|done].
    simpl in Hp. injection Hp as <-.
    destruct (isUndefined _ && _).
    + apply elem_of_cons; right; eauto.
    + simpl in Hk. apply elem_of_cons in Hk as [->|Hk];
        apply elem_of_cons; [by left|right; eauto].
Qed.

Lemma parseShape_ext shape p1 p2 :
  (∀ k, k ∈ shape.*1 → assoc k p1 = assoc k p2) →
  parseShape rec shape p1 = parseShape rec shape p2.
Proof.
  induction shape as [|[k sk] shape IH]; simpl; [done|].
  intros Hag. unfold getProp, hasProp.
  rewrite (Hag k) by (apply elem_of_cons; by left).
  rewrite IH; [done|]. intros k' Hk'. apply Hag, elem_of_cons; by right.
Qed.

Lemma parseShape_lookup shape props out k sk :
  NoDup shape.*1 → parseShape rec shape props = Some out → (k, sk) ∈ shape →
  ∃ v', rec sk (getProp k props) = Some v'
        ∧ assoc k out = if isUndefined v' && negb (hasProp k props)
                        then None else Some v'.
Proof.
  revert out. induction shape as [|[k' sk'] shape IH]; intros out; simpl.
  - by intros _ _ ?%elem_of_nil.
  - rewrite NoDup_cons. intros [Hk' Hnd] Hp Hin.
    destruct (rec sk' (getProp k' props)) as [x|] eqn:Hv; [|done].
    destruct (parseShape rec shape props) as [rest|] eqn:Hrest; [|done].
    simpl in Hp. injection Hp as <-.
    apply elem_of_cons in Hin as [[= -> ->]|Hin].
    + eexists; split; [done|].
      destruct (isUndefined _ && _) eqn:E; simpl.
      * apply assoc_None. intros Hk. apply Hk'.
        eapply parseShape_keys; eauto.
      * by rewrite String.eqb_refl.
    + destruct (IH _ Hnd eq_refl Hin) as (v' & Hv' & Hout).
      exists v'; split; [done|].
      assert (k ≠ k') as Hne.
      { intros ->. apply Hk', list_elem_of_fmap. by exists (k', sk). }
      destruct (isUndefined x && _); simpl; [done|].
      by destruct (String.eqb_spec k k').
Qed.

Lemma parseShape_idempotent shape props out :
  NoDup shape.*1 →
  Forall (λ ks, ∀ v v', rec ks.2 v = Some v' → rec ks.2 v' = Some v') shape →
  parseShape rec shape props = Some out →
  parseShape rec shape out = Some out.
Proof.
  revert out. induction shape as [|[k sk] shape IH]; intros out; simpl.
  - by intros _ _ [= <-].
  - rewrite NoDup_cons, Forall_cons. simpl.
    intros [Hk Hnd] [Hsk Hshape] Hp.
    destruct (rec sk (getProp k props)) as [v'|] eqn:Hv; [|done].
    destruct (parseShape rec shape props) as [rest|] eqn:Hrest; [|done].
    simpl in Hp. injection Hp as <-.
    assert (k ∉ rest.*1) as Hkrest.
    { intros Hin. apply Hk. eapply parseShape_keys; eauto. }
    destruct (isUndefined v' && negb (hasProp k props)) eqn:E.
    + apply andb_true_iff in E as [Hu Hnp].
      destruct v' as [[]| |]; try discriminate.
      apply negb_true_iff, hasProp_false in Hnp.
      assert (getProp k rest = VUndefined) as Hget.
      { unfold getProp. by rewrite (proj2 (assoc_None k rest)). }
      unfold getProp in Hv. rewrite Hnp in Hv. simpl in Hv.
      rewrite Hget, Hv. simpl. rewrite (IH _ Hnd Hshape eq_refl). simpl.
      by rewrite (proj2 (hasProp_false k rest)) by by apply assoc_None.
    + assert (getProp k ((k, v') :: rest) = v') as Hget.
      { unfold getProp. simpl. by rewrite String.eqb_refl. }
      rewrite Hget, (Hsk _ _ Hv). simpl.
      rewrite (parseShape_ext shape _ rest).
      * rewrite (IH _ Hnd Hshape eq_refl). simpl.
        assert (hasProp k ((k, v') :: rest) = true) as ->.
        { apply hasProp_true. simpl. apply elem_of_cons; by left. }
        by rewrite andb_false_r.
      * intros k' Hk'. simpl. destruct (String.eqb_spec k' k) as [->|]; done.
Qed.

Lemma parseRecord_idempotent t props out :
  (∀ v v', rec t v = Some v' → rec t v' = Some v') →
  parseRecord rec t props = Some out → parseRecord rec t out = Some out.
Proof.
  intros Ht. revert out. induction props as [|[k v] props IH]; intros out; simpl.
  - by intros [= <-].
  - intros Hp.
    destruct (rec t v) as [v'|] eqn:Hv; [|done].
    destruct (parseRecord rec t props) as [rest|] eqn:Hrest; [|done].
    simpl in Hp. injection Hp as <-.
    destruct (String.eqb k "__proto__") eqn:E; [eauto|].
    simpl. erewrite Ht by done. simpl. erewrite IH by done. simpl.
    by rewrite E.
Qed.

Lemma parseTuple_idempotent items xs out :
  Forall (λ s, ∀ v v', rec s v = Some v' → rec s v' = Some v') items →
  parseTuple rec items xs = Some out → parseTuple rec items out = Some out.
Proof.
  intros Hitems. revert xs out.
  induction Hitems as [|s items Hs _ IH]; intros [|x xs] out; simpl;
    try done.
  - by intros [= <-].
  - intros Hp.
    destruct (rec s x) as [x'|] eqn:Hx; [|done].
    destruct (parseTuple rec items xs) as [rest|] eqn:Hrest; [|done].
    simpl in Hp. injection Hp as <-.
    simpl. erewrite Hs by done. simpl.
    by erewrite IH by done.
Qed.
End shape_lemmas.

(** ** Induction on schema descriptions *)

Lemma schema_ind (P : schema → Prop) :
  P ZAny → P ZUnknown → (∀ checks, P (ZString checks)) →
  (∀ checks, P (ZNumber checks)) → P ZBoolean →
  (∀ lit, P (ZLiteral lit)) → (∀ options, P (ZEnum options)) →
  (∀ element, P element → P (ZArray element)) →
  (∀ items, Forall P items → P (ZTuple items)) →
  (∀ t, P t → P (ZRecord t)) →
  (∀ shape mode, Forall (λ ks, P ks.2) shape → P (ZObject shape mode)) →
  (∀ d options, Forall P options → P (ZDiscriminatedUnion d options)) →
  (∀ inner, P inner → P (ZOptional inner)) →
  (∀ inner d, P inner → P (ZDefault inner d)) →
  (∀ inner r, P inner → P (ZEffects inner r)) →
  ∀ s, P s.
Proof.
  intros Hany Hunk Hstr Hnum Hbool Hlit Henum Harr Htup Hrec Hobj Hun Hopt Hdef Heff.
  fix IH 1. intros [| | | | | | | e | items | t | shape mode | d options | i | i d | i r].
  - exact Hany.
  - exact Hunk.
  - apply Hstr.
  - apply Hnum.
  - exact Hbool.
  - apply Hlit.
  - apply Henum.
  - apply Harr, IH.
  - apply Htup. revert items.
    exact (fix all (l : list schema) : Forall P l :=
             match l with
             | [] => @List.Forall_nil _ P
             | x :: xs => @List.Forall_cons _ P x xs (IH x) (all xs)
             end).
  - apply Hrec, IH.
  - apply Hobj. revert shape.
    exact (fix all (l : list (string * schema)) : Forall (λ ks, P ks.2) l :=
             match l with
             | [] => @List.Forall_nil _ (λ ks, P ks.2)
             | x :: xs => @List.Forall_cons _ (λ ks, P ks.2) x xs (IH x.2) (all xs)
             end).
  - apply Hun. revert options.
    exact (fix all (l : list schema) : Forall P l :=
             match l with
             | [] => @List.Forall_nil _ P
             | x :: xs => @List.Forall_cons _ P x xs (IH x) (all xs)
             end).
  - apply Hopt, IH.
  - apply Hdef, IH.
  - apply Heff, IH.
Qed.

Lemma forallb_Forall {A : Type} (f : A → bool) (l : list A) :
  forallb f l = true ↔ Forall (λ x, f x = true) l.
Proof.
  induction l as [|x l IH]; simpl.
  - split; [constructor|done].
  - rewrite andb_true_iff, Forall_cons, IH. done.
Qed.

Section idempotence.
Context `{Runtime}.

Lemma mapM_idempotent (f : value → option value) (xs out : list value) :
  Forall (λ x, ∀ x', f x = Some x' → f x' = Some x') xs →
  mapM f xs = Some out → mapM f out = Some out.
Proof.
  rewrite !mapM_Some. intros Hf Hxs.
  induction Hxs as [|x x' xs out Hx _ IH]; [constructor|].
  apply Forall_cons in Hf as [Hfx Hf]. constructor; eauto.
Qed.

Lemma wellFormed_object shape mode :
  wellFormed (ZObject shape mode) = true →
  NoDup shape.*1 ∧ Forall (λ ks, wellFormed ks.2 = true) shape.
Proof.
  simpl. rewrite andb_true_iff, bool_decide_eq_true, forallb_Forall. done.
Qed.

(** What an object schema does key by key: the value under a key of the
    shape is parsed by that key's schema, and the result is what the
    output holds under the key. *)
Lemma safeParse_object_get shape mode v out k sk :
  wellFormed (ZObject shape mode) = true → assoc k shape = Some sk →
  safeParse (ZObject shape mode) v = Some out →
  safeParse sk (get v k) = Some (get out k).
Proof.
  intros [Hnd _]%wellFormed_object Hk Hp.
  destruct v as [| |props]; try done. simpl in Hp.
  destruct (parseShape safeParse shape props) as [outp|] eqn:Hout; [|done].
  simpl in Hp. destruct (unknownKeysOk mode shape props); [|done].
  injection Hp as <-.
  destruct (parseShape_lookup _ _ _ _ _ _ Hnd Hout (assoc_Some_elem _ _ _ Hk))
    as (x & Hx & Hkx).
  simpl. rewrite Hx. f_equal. unfold getProp. rewrite Hkx.
  destruct (isUndefined x && _) eqn:E; [|done].
  apply andb_true_iff in E as [Hu _]. by destruct x as [[]| |].
Qed.

Lemma safeParse_literal_kept shape mode d lit v v' :
  NoDup shape.*1 → assoc d shape = Some (ZLiteral lit) →
  safeParse (ZObject shape mode) v = Some v' →
  get v d = VStr lit ∧ get v' d = VStr lit.
Proof.
  intros Hnd Hd Hp. destruct v as [| |props]; try done. simpl in Hp.
  destruct (parseShape safeParse shape props) as [out|] eqn:Hout; [|done].
  simpl in Hp. destruct (unknownKeysOk mode shape props); [|done].
  injection Hp as <-.
  destruct (parseShape_lookup _ _ _ _ _ _ Hnd Hout (assoc_Some_elem _ _ _ Hd))
    as (x & Hx & Hk).
  simpl in Hx. destruct (getProp d props) as [[| | | |s|]| |] eqn:Hg; try done.
  destruct (String.eqb_spec s lit) as [->|]; [|done].
  injection Hx as <-. simpl in Hk. split; [done|].
  simpl. unfold getProp. by rewrite Hk.
Qed.

Lemma discriminatorOf_Some d o lit :
  discriminatorOf d o = Some lit →
  ∃ shape mode, o = ZObject shape mode ∧ assoc d shape = Some (ZLiteral lit).
Proof.
  destruct o; try done. simpl.
  destruct (assoc d shape) as [[]|] eqn:E; try done.
  intros [= ->]. eauto.
Qed.

Lemma parseUnion_tag d options v v' :
  forallb (λ o, bool_decide (is_Some (discriminatorOf d o)) && wellFormed o)
    options = true →
  parseUnion safeParse d options v = Some v' → get v' d = get v d.
Proof.
  induction options as [|o options IH]; simpl; [done|].
  rewrite !andb_true_iff, bool_decide_eq_true. intros [[[lit Hd] Hwf] Hrest].
  destruct (isTag (get v d) (discriminatorOf d o)) eqn:Htag; [|by auto].
  intros Hp. apply discriminatorOf_Some in Hd as (shape & mode & -> & Hd).
  apply wellFormed_object in Hwf as [Hnd _].
  destruct (safeParse_literal_kept _ _ _ _ _ _ Hnd Hd Hp) as [-> ->]. done.
Qed.

Lemma parseUnion_idempotent d options v v' :
  forallb (λ o, bool_decide (is_Some (discriminatorOf d o)) && wellFormed o)
    options = true →
  Forall (λ s, ∀ v v', safeParse s v = Some v' → safeParse s v' = Some v')
    options →
  parseUnion safeParse d options v = Some v' →
  parseUnion safeParse d options v' = Some v'.
Proof.
  intros Hwf Hall Hp.
  pose proof (parseUnion_tag _ _ _ _ Hwf Hp) as Htag.
  clear Hwf. induction Hall as [|o options Ho _ IH]; simpl in *; [done|].
  rewrite Htag. destruct (isTag (get v d) (discriminatorOf d o)); eauto.
Qed.

Lemma safeParse_undefined s v :
  safeParse s v = Some VUndefined → v = VUndefined.
Proof.
  revert v.
  induction s as [| | checks | checks | | lit | options | e IH | items IH
                  | t IH | shape mode IH | d options IH | i IH | i dv IH
                  | i r IH] using schema_ind; intros v Hp; simpl in Hp;
    try (by destruct v as [[]| |]; repeat case_match; simplify_option_eq).
  - destruct v as [| |props]; [done..|]. exfalso.
    induction IH as [|o options Ho _ IHo]; simpl in Hp; [done|].
    destruct (isTag _ _); [|done]. by specialize (Ho _ Hp).
  - destruct v as [[]| |]; auto.
  - destruct v as [[]| |]; auto.
  - destruct (safeParse i v) as [x|] eqn:E; [|done]. simpl in Hp.
    destruct (r x); [|done]. injection Hp as ->. auto.
Qed.

Theorem safeParse_idempotent s :
  wellFormed s = true →
  ∀ v v', safeParse s v = Some v' → safeParse s v' = Some v'.
Proof.
  induction s as [| | checks | checks | | lit | options | e IH | items IH
                  | t IH | shape mode IH | d options IH | i IH | i dv IH
                  | i r IH] using schema_ind; intros Hwf v v' Hp.
  - done.
  - done.
  - destruct v as [[| | | |x|]| |]; try done. simpl in *.
    destruct (forallb _ _) eqn:E; [|done]. injection Hp as <-. simpl. by rewrite E.
  - destruct v as [[| | |n| |]| |]; try done. simpl in *.
    destruct (isNaN n) eqn:En; [done|].
    destruct (forallb _ _) eqn:E; [|done]. injection Hp as <-. simpl.
    by rewrite En, E.
  - destruct v as [[| |b| | |]| |]; try done. by injection Hp as <-.
  - destruct v as [[| | | |x|]| |]; try done. simpl in *.
    destruct (String.eqb x lit) eqn:E; [|done]. injection Hp as <-. simpl. by rewrite E.
  - destruct v as [[| | | |x|]| |]; try done. simpl in *.
    destruct (existsb _ _) eqn:E; [|done]. injection Hp as <-. simpl. by rewrite E.
  - destruct v as [|xs|]; try done. simpl in *.
    destruct (mapM (safeParse e) xs) as [out|] eqn:E; [|done].
    injection Hp as <-. simpl.
    erewrite mapM_idempotent; [done| |done].
    apply Forall_forall. intros x _ x'. by apply IH.
  - destruct v as [|xs|]; try done. simpl in *.
    destruct (parseTuple safeParse items xs) as [out|] eqn:E; [|done].
    injection Hp as <-. simpl.
    erewrite parseTuple_idempotent; [done| |done].
    apply forallb_Forall in Hwf. rewrite Forall_forall in IH, Hwf |- *.
    intros s Hs. apply IH; [done|]. by apply Hwf.
  - destruct v as [| |props]; try done. simpl in *.
    destruct (parseRecord safeParse t props) as [out|] eqn:E; [|done].
    injection Hp as <-. simpl.
    erewrite parseRecord_idempotent; [done| |done]. by apply IH.
  - destruct v as [| |props]; try done.
    apply wellFormed_object in Hwf as [Hnd Hall]. simpl in *.
    destruct (parseShape safeParse shape props) as [out|] eqn:E; [|done].
    simpl in Hp. destruct (unknownKeysOk mode shape props); [|done].
    injection Hp as <-. simpl.
    erewrite parseShape_idempotent; [| done | | done].
    + simpl. assert (unknownKeysOk mode shape out = true) as ->; [|done].
      destruct mode; [done|]. simpl. apply forallb_Forall, Forall_forall.
      intros [k x] Hin. apply hasProp_true. simpl.
      eapply parseShape_keys; [done|]. apply list_elem_of_fmap.
      by exists (k, x).
    + rewrite Forall_forall in IH, Hall |- *. intros ks Hks. by apply IH, Hall.
  - destruct v as [| |props]; try done. simpl in Hp, Hwf.
    pose proof (parseUnion_tag _ _ _ _ Hwf Hp) as Htag.
    assert (∃ props', v' = VObj props') as [props' ->].
    { clear IH Htag. induction options as [|o options IHo]; simpl in *; [done|].
      apply andb_true_iff in Hwf as [Ho Hwf].
      destruct (isTag _ _); [|by auto].
      apply andb_true_iff in Ho as [[lit Hd]%bool_decide_eq_true _].
      apply discriminatorOf_Some in Hd as (shape & mode & -> & _).
      simpl in Hp. destruct (parseShape _ _ _); [|done]. simpl in Hp.
      destruct (unknownKeysOk _ _ _); [|done]. injection Hp as <-. eauto. }
    simpl. eapply parseUnion_idempotent; [done| |done].
    apply forallb_Forall in Hwf. rewrite Forall_forall in IH, Hwf |- *.
    intros s Hs. apply IH; [done|].
    apply Hwf, andb_true_iff in Hs. tauto.
  - simpl in *. destruct v as [[]| |]; try (by injection Hp as <-);
      destruct v' as [[]| |]; eauto.
  - simpl in *. destruct v as [[]| |]; destruct v' as [[]| |]; simpl; eauto;
      by apply safeParse_undefined in Hp.
  - simpl in *. destruct (safeParse i v) as [x|] eqn:E; [|done]. simpl in Hp.
    destruct (r x) eqn:Er; [|done]. injection Hp as <-.
    erewrite IH by done. simpl. by rewrite Er.
Qed.
End idempotence.

(** ** The execution monad *)

Ltac unfold_monad :=
  unfold mbind, M_bind, mret, M_ret, throw, getState, modify in *.

Section validation.
Context `{Runtime}.

Lemma validateSafely_Some schema data data' code s :
  safeParse schema data = Some data' →
  validateSafely schema data code s = Ok data' s.
Proof. unfold validateSafely. by intros ->. Qed.

Lemma validateSafely_None schema data code s :
  safeParse schema data = None →
  validateSafely schema data code s
  = Throw (ValidationError "Validation failed" code) s.
Proof. unfold validateSafely. by intros ->. Qed.

Lemma validateSections_from_ok index sections s :
  Forall (λ x, is_Some (safeParse sectionSchema x)) sections →
  forEachFrom index sections (λ section index,
    validateSafely sectionSchema section
      ("INVALID_SECTION_" +:+ pretty index);; mret tt) s = Ok tt s.
Proof.
  intros Hall. revert index.
  induction Hall as [|x xs [x' Hx] _ IH]; intros index; simpl; [done|].
  unfold_monad. erewrite validateSafely_Some by done. apply IH.
Qed.

Lemma validateSections_from_first_failure index sections i section s :
  sections !! i = Some section →
  Forall (λ x, is_Some (safeParse sectionSchema x)) (take i sections) →
  safeParse sectionSchema section = None →
  forEachFrom index sections (λ section index,
    validateSafely sectionSchema section
      ("INVALID_SECTION_" +:+ pretty index);; mret tt) s
  = Throw (ValidationError "Validation failed"
             ("INVALID_SECTION_" +:+ pretty (index + i))) s.
Proof.
  revert index i. induction sections as [|x xs IH]; intros index i; [done|].
  destruct i as [|i]; simpl.
  - intros [= ->] _ Hnone. unfold_monad.
    rewrite validateSafely_None by done. by rewrite Nat.add_0_r.
  - intros Hi [[x' Hx] Hall]%Forall_cons Hnone. unfold_monad.
    erewrite validateSafely_Some by done.
    rewrite (IH (S index) i) by done. by rewrite Nat.add_succ_r.
Qed.

Lemma safeParse_array element v :
  safeParse (ZArray element) v
  = match v with
    | VArr xs => VArr <$> mapM (safeParse element) xs
    | _ => None
    end.
Proof. done. Qed.

(** The sections of a page accepted by the page schema are outputs of the
    section schema. *)
Lemma pageSchema_sections page validatedPage :
  safeParse pageSchema page = Some validatedPage →
  Forall (λ x, safeParse sectionSchema x = Some x) (sectionsOf validatedPage).
Proof.
  intros Hp. unfold pageSchema, z.strict, z.object in Hp.
  eapply (safeParse_object_get _ _ _ _ "sections" (z.array sectionSchema))
    in Hp; [|by vm_compute|reflexivity].
  unfold sectionsOf. unfold z.array in Hp. rewrite safeParse_array in Hp.
  destruct (get page "sections") as [|xs|]; [done| |done].
  destruct (mapM (safeParse sectionSchema) xs) as [xs'|] eqn:Hxs; [|done].
  injection Hp as <-.
  apply mapM_Some in Hxs.
  induction Hxs as [|x x' xs xs' Hx _ IH]; constructor; [|done].
  eapply safeParse_idempotent; [|done]. by vm_compute.
Qed.
End validation.

(** ** Shared-section resolution: the loop *)

Section resolve_loop.
Context `{Runtime}.

Lemma sameButConsole_refl s : sameButConsole s s.
Proof. done. Qed.

Lemma sameButConsole_setConsole c s s' :
  sameButConsole s s' → sameButConsole s (setConsole c s').
Proof. done. Qed.

Lemma sameButConsole_trans s1 s2 s3 :
  sameButConsole s1 s2 → sameButConsole s2 s3 → sameButConsole s1 s3.
Proof.
  intros (?&?&?&?&?) (?&?&?&?&?). repeat split; congruence.
Qed.

(** The loop touches nothing but the console; what it returns is the list it
    started from, followed by sections taken as they are from the pool; and
    the only exception it raises is the one for a ref that is not a
    string. *)
Lemma resolveRefs_outcome pool refIds updatedSections resolvedRefs s :
  match resolveRefs pool refIds updatedSections resolvedRefs s with
  | Ok out s' =>
      sameButConsole s s'
      ∧ ∃ appended, out = updatedSections ++ appended
          ∧ Forall (λ x, ∃ e, e ∈ pool ∧ x = SharedSection.section e) appended
  | Throw e s' =>
      sameButConsole s s'
      ∧ ∃ shown, e = ValidationError "INVALID_REF_ID"
                       ("Invalid shared section reference: " +:+ shown)
  end.
Proof.
  revert updatedSections resolvedRefs s.
  induction refIds as [|refId rest IH]; intros upd seen s; simpl.
  - split; [done|]. exists []. by rewrite app_nil_r.
  - destruct refId as [[| | | |id|]|l];
      try (split; [done|]; eexists; reflexivity).
    destruct (find _ pool) as [sharedSec|] eqn:Hfind.
    + unfold_monad. simpl.
      destruct (isSectionAt (heap s) (SharedSection.section sharedSec)); simpl.
      * destruct (bool_decide (id ∈ seen)).
        -- unfold console_warn. unfold_monad. simpl.
           specialize (IH upd seen (setConsole (console s ++
             [Warn ("[resolveSharedSections] Duplicate shared section reference: " +:+ id)]) s)).
           destruct (resolveRefs _ _ _ _ _); destruct IH as [Hs IH]; split; auto.
        -- specialize (IH (upd ++ [SharedSection.section sharedSec])
                         ({[id]} ∪ seen) s).
           destruct (resolveRefs _ _ _ _ _); [|done].
           destruct IH as [Hs (appended & -> & Happ)]. split; [done|].
           exists (SharedSection.section sharedSec :: appended).
           split; [by rewrite <-app_assoc|]. constructor; [|done].
           exists sharedSec. split; [|done].
           apply find_some in Hfind as [Hin _]. by apply list_elem_of_In.
      * unfold console_error. unfold_monad. simpl.
        specialize (IH upd seen (setConsole (console s ++
          [ErrorLine ("[resolveSharedSections] Invalid section structure for " +:+ id)]) s)).
        destruct (resolveRefs _ _ _ _ _); destruct IH as [Hs IH]; split; auto.
    + unfold console_warn. unfold_monad. simpl.
      specialize (IH upd seen (setConsole (console s ++
        [Warn ("[resolveSharedSections] Shared section not found: " +:+ id)]) s)).
      destruct (resolveRefs _ _ _ _ _); destruct IH as [Hs IH]; split; auto.
Qed.
End resolve_loop.

(** ** Shared-section resolution: the function *)

Section resolve.
Context `{Runtime} (globalAppConfig : AppConfig.t).

Lemma readProp_truthy v k s :
  truthyH v = true → readProp v k s = Ok (propOf (heap s) v k) s.
Proof.
  destruct v as [[]|l]; simpl; try done.
  by destruct (heap s !! l) as [[]|].
Qed.

(** [resolveSharedSections] when it goes past its guards. *)
Lemma resolveSharedSections_unfold page s :
  truthyH page = true →
  FeatureFlags.enableSharedSections (AppConfig.featureFlags globalAppConfig)
    = true →
  sharedSectionPool globalAppConfig ≠ [] →
  resolveSharedSections globalAppConfig page s
  = match arrayElems (heap s) (propOf (heap s) page "sharedSectionRefs") with
    | None =>
        Throw (ValidationError "INVALID_SHARED_REFS"
                 "sharedSectionRefs must be an array") s
    | Some refIds =>
        match spreadOrEmpty (heap s) (propOf (heap s) page "sections") with
        | None => Throw (TypeError "page.sections is not iterable") s
        | Some original =>
            match resolveRefs (sharedSectionPool globalAppConfig) refIds
                    original ∅ s with
            | Ok updatedSections s1 =>
                Ok (HRef (S (length (heap s1))))
                   (setHeap
                      (heap s1 ++
                         [HArray updatedSections;
                          HObject (setProp "sections"
                                     (HRef (length (heap s1)))
                                     (ownProps (heap s) page))]) s1)
            | Throw e s1 => Throw e s1
            end
        end
    end.
Proof.
  intros Hpage Hflag Hpool. unfold resolveSharedSections.
  rewrite Hpage, Hflag. simpl.
  destruct (sharedSectionPool globalAppConfig) as [|e pool] eqn:Epool;
    [done|]. simpl.
  unfold_monad. rewrite !readProp_truthy by done.
  destruct (arrayElems _ _) as [refIds|]; [|done].
  rewrite readProp_truthy by done. unfold spreadOrEmpty.
  destruct (if nullish _ then _ else _) as [original|]; [|done].
  destruct (resolveRefs _ _ _ _ _) as [upd s1|]; [|done].
  unfold alloc. simpl. rewrite length_app. simpl.
  rewrite Nat.add_1_r. by rewrite <-app_assoc.
Qed.

Lemma resolveSharedSections_noop page s :
  truthyH page = true →
  FeatureFlags.enableSharedSections (AppConfig.featureFlags globalAppConfig)
    = false
  ∨ sharedSectionPool globalAppConfig = [] →
  resolveSharedSections globalAppConfig page s = Ok page s.
Proof.
  intros Hpage Hoff. unfold resolveSharedSections. rewrite Hpage. simpl.
  destruct Hoff as [->| ->]; [done|]. simpl. by rewrite orb_true_r.
Qed.

Lemma resolveSharedSections_falsy page s :
  truthyH page = false →
  resolveSharedSections globalAppConfig page s
  = Throw (ValidationError "PAGE_REQUIRED"
             "Page is required for resolving shared sections") s.
Proof. intros Hpage. unfold resolveSharedSections. by rewrite Hpage. Qed.

Lemma sameButConsole_extends s s' : sameButConsole s s' → extends s s'.
Proof. intros (Hh&?&?&?&?). repeat split; try done. by rewrite Hh. Qed.

Lemma resolveSharedSections_throws page s e s' :
  resolveSharedSections globalAppConfig page s = Throw e s' →
  resolveError e ∧ sameButConsole s s'.
Proof.
  destruct (truthyH page) eqn:Hpage.
  2:{ rewrite resolveSharedSections_falsy by done. intros [= <- <-].
      split; [by left|done]. }
  destruct (FeatureFlags.enableSharedSections
              (AppConfig.featureFlags globalAppConfig)) eqn:Hflag.
  2:{ rewrite resolveSharedSections_noop by auto. done. }
  destruct (sharedSectionPool globalAppConfig) as [|e0 pool] eqn:Hpool.
  { rewrite resolveSharedSections_noop by auto. done. }
  rewrite resolveSharedSections_unfold by (rewrite ?Hpool; done).
  destruct (arrayElems _ _) as [refIds|].
  2:{ intros [= <- <-]. split; [right; by left|done]. }
  destruct (spreadOrEmpty _ _) as [original|].
  2:{ intros [= <- <-]. split; [|done]. do 3 right. eauto. }
  pose proof (resolveRefs_outcome (sharedSectionPool globalAppConfig) refIds original ∅ s)
    as Hloop.
  destruct (resolveRefs _ _ _ _ _) as [|e1 s1]; [done|].
  intros [= <- <-]. destruct Hloop as [Hs [shown ->]].
  split; [|done]. right; right; left. eauto.
Qed.

Lemma extends_refl s : extends s s.
Proof. done. Qed.

Lemma resolveSharedSections_extends page s :
  extends s (finalState (resolveSharedSections globalAppConfig page s)).
Proof.
  destruct (resolveSharedSections globalAppConfig page s) as [v s'|e s']
    eqn:Hr; simpl.
  2:{ apply resolveSharedSections_throws in Hr as [_ Hs].
      by apply sameButConsole_extends. }
  destruct (truthyH page) eqn:Hpage.
  2:{ by rewrite resolveSharedSections_falsy in Hr. }
  destruct (FeatureFlags.enableSharedSections
              (AppConfig.featureFlags globalAppConfig)) eqn:Hflag.
  2:{ rewrite resolveSharedSections_noop in Hr by auto. by injection Hr as <- <-. }
  destruct (sharedSectionPool globalAppConfig) as [|e0 pool] eqn:Hpool.
  { rewrite resolveSharedSections_noop in Hr by auto. by injection Hr as <- <-. }
  rewrite resolveSharedSections_unfold in Hr by (rewrite ?Hpool; done).
  destruct (arrayElems _ _) as [refIds|]; [|done].
  destruct (spreadOrEmpty _ _) as [original|]; [|done].
  pose proof (resolveRefs_outcome (sharedSectionPool globalAppConfig) refIds original ∅ s)
    as Hloop.
  destruct (resolveRefs _ _ _ _ _) as [upd s1|]; [|done].
  injection Hr as <- <-. destruct Hloop as [(Hh&?&?&?&?) _].
  repeat split; simpl; try done. rewrite Hh. by apply prefix_app_r.
Qed.
End resolve.

(** ** Page validation (C4, C9) *)

Section validatePage_theorems.
Context `{Runtime} (globalAppConfig : AppConfig.t).

Lemma validateSections_ok sections s :
  Forall (λ x, is_Some (safeParse sectionSchema x)) sections →
  validateSections sections s = Ok tt s.
Proof. apply validateSections_from_ok. Qed.

(** C4. [validatePage] is a hard gate: an input the page schema rejects
    makes it throw a ValidationError with code INVALID_PAGE_STRUCTURE, in
    the state it was called in, before any section is looked at; and the
    per-section step, on the first section the section schema rejects,
    throws with code INVALID_SECTION_ followed by that section's index. *)
Theorem validatePage_hard_gate :
  (∀ page resolveShared s,
     safeParse pageSchema page = None →
     validatePage globalAppConfig page resolveShared s
     = Throw (ValidationError "Validation failed" "INVALID_PAGE_STRUCTURE") s)
  ∧ (∀ sections i section s,
       sections !! i = Some section →
       Forall (λ x, is_Some (safeParse sectionSchema x)) (take i sections) →
       safeParse sectionSchema section = None →
       validateSections sections s
       = Throw (ValidationError "Validation failed"
                  ("INVALID_SECTION_" +:+ pretty i)) s).
Proof.
  split.
  - intros page resolveShared s Hp. unfold validatePage. unfold_monad.
    by rewrite validateSafely_None.
  - intros sections i section s Hi Hbefore Hnone.
    unfold validateSections, forEach.
    by rewrite (validateSections_from_first_failure 0 sections i section).
Qed.

Lemma resolveError_not_section e message (index : nat) :
  resolveError e →
  e ≠ ValidationError message ("INVALID_SECTION_" +:+ pretty index).
Proof.
  intros [->|[->|[[shown ->]|[m ->]]]]; simpl; intros [=].
Qed.

(** C9. Once the page schema has accepted a page, the per-section step
    cannot fail: every section of the validated page is an output of the
    section schema, which accepts its own outputs. No call of
    [validatePage] on that input ends in an INVALID_SECTION_i error. *)
Theorem validatePage_sections_never_fail page validatedPage :
  safeParse pageSchema page = Some validatedPage →
  (∀ s, validateSections (sectionsOf validatedPage) s = Ok tt s)
  ∧ (∀ resolveShared s message (index : nat) s',
       validatePage globalAppConfig page resolveShared s
       ≠ Throw (ValidationError message
                  ("INVALID_SECTION_" +:+ pretty index)) s').
Proof.
  intros Hp.
  assert (∀ s, validateSections (sectionsOf validatedPage) s = Ok tt s)
    as Hsections.
  { intros s. apply validateSections_ok.
    eapply Forall_impl; [by eapply pageSchema_sections|].
    intros x ->. eauto. }
  split; [done|].
  intros resolveShared s message index s'. unfold validatePage. unfold_monad.
  erewrite validateSafely_Some by done. unfold allocTree.
  destruct (allocValue validatedPage (heap s)) as [h ref]. rewrite Hsections.
  destruct resolveShared; [|done].
  destruct (resolveSharedSections _ _ _) as [|e s1] eqn:Hr; [done|].
  apply resolveSharedSections_throws in Hr as [He _].
  intros [= -> <-]. by eapply resolveError_not_section.
Qed.
End validatePage_theorems.

(** ** The cross-field rule of the app configuration (C8) *)

Section appConfig.
Context `{Runtime}.

Lemma safeParse_effects inner refinement v :
  safeParse (ZEffects inner refinement) v
  = (v' ← safeParse inner v; if refinement v' then Some v' else None).
Proof. done. Qed.

Lemma safeParse_optional inner v :
  safeParse (ZOptional inner) v
  = match v with VUndefined => Some VUndefined | _ => safeParse inner v end.
Proof. done. Qed.

Lemma safeParse_object_is_object shape mode v out :
  safeParse (ZObject shape mode) v = Some out → ∃ props, out = VObj props.
Proof.
  destruct v as [| |props]; try done. simpl.
  destruct (parseShape safeParse shape props) as [outp|]; [|done]. simpl.
  destruct (unknownKeysOk mode shape props); [|done]. intros [= <-]. eauto.
Qed.

(** A flag of the parsed feature flags is on exactly when the input sets
    it to [true]. *)
Lemma featureFlags_flag name ff ff' :
  name = "enableAdvancedSEO" ∨ name = "enableAIContent" →
  safeParse featureFlagsSchema ff = Some ff' →
  truthy (get ff' name) = true ↔ get ff name = VBool true.
Proof.
  intros Hname Hff. unfold featureFlagsSchema, z.strict, z.object in Hff.
  assert (safeParse flag (get ff name) = Some (get ff' name)) as Hflag.
  { destruct Hname as [-> | ->];
      (refine (safeParse_object_get _ _ _ _ _ _ _ _ Hff);
       [by vm_compute|reflexivity]). }
  unfold flag, z.default, z.boolean in Hflag. simpl in Hflag.
  destruct (get ff name) as [[| |b| | |]| |]; try done;
    injection Hflag as <-; simpl; [done|]. split; congruence.
Qed.

Lemma appConfigObject_parts input out :
  safeParse appConfigObjectSchema input = Some out →
  safeParse featureFlagsSchema (get input "featureFlags")
    = Some (get out "featureFlags")
  ∧ (truthy (get out "advancedConfig") = true ↔ advancedConfigPresent input).
Proof.
  intros Hp. unfold appConfigObjectSchema, z.object in Hp. split.
  - refine (safeParse_object_get _ _ _ _ _ _ _ _ Hp);
      [by vm_compute|reflexivity].
  - eapply (safeParse_object_get _ _ _ _ "advancedConfig") in Hp;
      [|by vm_compute|reflexivity].
    unfold z.optional in Hp. rewrite safeParse_optional in Hp.
    unfold advancedConfigPresent.
    destruct (get input "advancedConfig") as [[]| |] eqn:E;
      try (injection Hp as <-; simpl; split; [done|congruence]);
      unfold advancedConfigSchema, z.strict, z.object in Hp;
      apply safeParse_object_is_object in Hp as [outp ->]; done.
Qed.

Lemma advancedConfigAllowed_spec input out :
  safeParse appConfigObjectSchema input = Some out →
  advancedConfigAllowed out = true
  ↔ (advancedConfigPresent input →
     flagOn input "enableAdvancedSEO" ∨ flagOn input "enableAIContent").
Proof.
  intros Hp. destruct (appConfigObject_parts _ _ Hp) as [Hff Hac].
  pose proof (featureFlags_flag "enableAdvancedSEO" _ _ (or_introl eq_refl) Hff)
    as Hseo.
  pose proof (featureFlags_flag "enableAIContent" _ _ (or_intror eq_refl) Hff)
    as Hai.
  unfold advancedConfigAllowed. fold (flagOn input "enableAdvancedSEO") in Hseo.
  fold (flagOn input "enableAIContent") in Hai.
  destruct (truthy (get out "advancedConfig"));
    destruct (truthy (get (get out "featureFlags") "enableAdvancedSEO"));
    destruct (truthy (get (get out "featureFlags") "enableAIContent"));
    simpl; intuition congruence.
Qed.

(** C8. Safe-parsing against [appConfigSchema] enforces the cross-field
    rule. An input with an [advancedConfig] is accepted only if it sets
    [enableAdvancedSEO] or [enableAIContent] to [true]; with an
    [advancedConfig] and neither flag on it is rejected; and an input whose
    fields are valid (the object schema accepts it) and that has one of the
    two flags on is accepted, with the object schema's output. *)
Theorem appConfigSchema_cross_field input :
  (∀ out, safeParse appConfigSchema input = Some out →
          advancedConfigPresent input →
          flagOn input "enableAdvancedSEO" ∨ flagOn input "enableAIContent")
  ∧ (advancedConfigPresent input →
     ¬ flagOn input "enableAdvancedSEO" → ¬ flagOn input "enableAIContent" →
     safeParse appConfigSchema input = None)
  ∧ (∀ out, safeParse appConfigObjectSchema input = Some out →
            flagOn input "enableAdvancedSEO" ∨ flagOn input "enableAIContent" →
            safeParse appConfigSchema input = Some out).
Proof.
  unfold appConfigSchema, z.refine. rewrite safeParse_effects.
  destruct (safeParse appConfigObjectSchema input) as [out|] eqn:Hp; simpl.
  2:{ repeat split; done. }
  pose proof (advancedConfigAllowed_spec _ _ Hp) as Hspec.
  destruct (advancedConfigAllowed out) eqn:Hallowed.
  - split; [|split].
    + intros out' _. by apply Hspec.
    + intros Hpresent Hseo Hai. destruct (proj1 Hspec eq_refl Hpresent); done.
    + by intros out' [= <-] _.
  - split; [done|split; [done|]].
    intros out' [= <-] Hflags. exfalso.
    assert (false = true) as Habs; [|done]. apply Hspec. by intros _.
Qed.
End appConfig.

(** ** Checks on the sample data (C4, C8, C9) *)

Lemma validatePage_hard_gate_witness :
  validatePage (H:=sampleRuntime) validatedConfig VNull true emptyState
  = Throw (ValidationError "Validation failed" "INVALID_PAGE_STRUCTURE")
      emptyState
  ∧ validateSections (H:=sampleRuntime) [sampleSection; VNull] emptyState
    = Throw (ValidationError "Validation failed" "INVALID_SECTION_1")
        emptyState.
Proof.
  split.
  - apply (proj1 (validatePage_hard_gate (H:=sampleRuntime) validatedConfig)).
    reflexivity.
  - apply (proj2 (validatePage_hard_gate (H:=sampleRuntime) validatedConfig)
             [sampleSection; VNull] 1 VNull emptyState).
    + reflexivity.
    + constructor; [|constructor]. vm_compute. eauto.
    + reflexivity.
Defined.

Lemma validatePage_sections_never_fail_witness :
  ∃ validatedPage,
    safeParse (H:=sampleRuntime) pageSchema samplePage = Some validatedPage
    ∧ validateSections (H:=sampleRuntime) (sectionsOf validatedPage) emptyState
      = Ok tt emptyState.
Proof.
  eexists. split; [vm_compute; reflexivity|].
  refine (proj1 (validatePage_sections_never_fail (H:=sampleRuntime)
                   validatedConfig samplePage _ _) emptyState).
  vm_compute; reflexivity.
Defined.

Lemma appConfigSchema_cross_field_witness :
  (∃ out, safeParse (H:=sampleRuntime) appConfigObjectSchema configData
          = Some out
          ∧ flagOn configData "enableAdvancedSEO"
          ∧ safeParse (H:=sampleRuntime) appConfigSchema configData = Some out)
  ∧ (advancedConfigPresent unflaggedConfigData
     ∧ ¬ flagOn unflaggedConfigData "enableAdvancedSEO"
     ∧ ¬ flagOn unflaggedConfigData "enableAIContent"
     ∧ safeParse (H:=sampleRuntime) appConfigSchema unflaggedConfigData = None).
Proof.
  split.
  - eexists. split; [vm_compute; reflexivity|]. split; [reflexivity|].
    apply (proj2 (proj2 (appConfigSchema_cross_field (H:=sampleRuntime)
                           configData))).
    + vm_compute; reflexivity.
    + left. reflexivity.
  - assert (advancedConfigPresent unflaggedConfigData) as Hpresent
      by (vm_compute; discriminate).
    assert (¬ flagOn unflaggedConfigData "enableAdvancedSEO") as Hseo
      by (vm_compute; discriminate).
    assert (¬ flagOn unflaggedConfigData "enableAIContent") as Hai
      by (vm_compute; discriminate).
    split; [exact Hpresent|split; [exact Hseo|split; [exact Hai|]]].
    exact (proj1 (proj2 (appConfigSchema_cross_field (H:=sampleRuntime)
                           unflaggedConfigData)) Hpresent Hseo Hai).
Defined.

(** ** Shared-section resolution against its specification (C5) *)

Lemma firstOccurrences_elem id ids : id ∈ firstOccurrences ids ↔ id ∈ ids.
Proof.
  induction ids as [|x ids IH]; simpl; [done|].
  rewrite !elem_of_cons, list_elem_of_filter, IH.
  destruct (decide (id = x)); tauto.
Qed.

Lemma firstOccurrences_NoDup ids : NoDup (firstOccurrences ids).
Proof.
  induction ids as [|x ids IH]; simpl; [constructor|].
  constructor; [|by apply NoDup_filter].
  rewrite list_elem_of_filter. tauto.
Qed.

Lemma omap_cons_eq {A B : Type} (f : A → option B) (x : A) (l : list A) :
  omap f (x :: l)
  = match f x with Some y => y :: omap f l | None => omap f l end.
Proof. done. Qed.

Lemma omap_filter_ext {A B : Type} (f : A → option B) (P Q : A → Prop)
    `{∀ x, Decision (P x)} `{∀ x, Decision (Q x)} (l : list A) :
  (∀ x, x ∈ l → is_Some (f x) → (P x ↔ Q x)) →
  omap f (filter P l) = omap f (filter Q l).
Proof.
  induction l as [|x l IH]; intros Hext; [done|].
  rewrite !filter_cons.
  assert (omap f (filter P l) = omap f (filter Q l)) as IH'.
  { apply IH. intros y Hy. apply Hext, elem_of_cons. by right. }
  destruct (f x) as [b|] eqn:Hfx.
  - assert (P x ↔ Q x) as HPQ.
    { apply Hext; [apply elem_of_cons; by left|]. by rewrite Hfx. }
    destruct (decide (P x)), (decide (Q x)); simpl; rewrite ?Hfx; simpl;
      try done; try (f_equal; exact IH'); exfalso; tauto.
  - destruct (decide (P x)), (decide (Q x)); simpl; rewrite ?Hfx; exact IH'.
Qed.

Section resolve_strings.
Context `{Runtime}.

(** One turn of the loop on a ref that is a string. *)
Lemma resolveRefs_step pool id rest updatedSections (resolvedRefs : gset string) s :
  resolveRefs pool (HStr id :: rest) updatedSections resolvedRefs s
  = match find (λ e, String.eqb (SharedSection.id e) id) pool with
    | None =>
        resolveRefs pool rest updatedSections resolvedRefs
          (setConsole
             (console s ++
                [Warn ("[resolveSharedSections] Shared section not found: "
                       +:+ id)]) s)
    | Some e =>
        if isSectionAt (heap s) (SharedSection.section e) then
          if bool_decide (id ∈ resolvedRefs) then
            resolveRefs pool rest updatedSections resolvedRefs
              (setConsole
                 (console s ++
                    [Warn ("[resolveSharedSections] Duplicate shared section reference: "
                           +:+ id)]) s)
          else
            resolveRefs pool rest
              (updatedSections ++ [SharedSection.section e])
              ({[id]} ∪ resolvedRefs) s
        else
          resolveRefs pool rest updatedSections resolvedRefs
            (setConsole
               (console s ++
                  [ErrorLine ("[resolveSharedSections] Invalid section structure for "
                              +:+ id)]) s)
    end.
Proof.
  simpl. destruct (find _ pool) as [e|]; [|done].
  unfold_monad. simpl.
  destruct (isSectionAt (heap s) (SharedSection.section e)); [|done].
  simpl. by destruct (bool_decide (id ∈ resolvedRefs)).
Qed.

(** On a list of strings the loop returns, and appends what the
    specification says for the ids not resolved before. *)
Lemma resolveRefs_strings pool ids updatedSections (resolvedRefs : gset string) s :
  ∃ s', resolveRefs pool (HPrim ∘ PStr <$> ids) updatedSections resolvedRefs s
        = Ok (updatedSections
              ++ omap (resolvesTo pool (heap s))
                   (filter (λ x, x ∉ resolvedRefs) (firstOccurrences ids))) s'
        ∧ sameButConsole s s'.
Proof.
  revert updatedSections resolvedRefs s.
  induction ids as [|id ids IH]; intros upd seen s.
  - exists s. simpl. by rewrite app_nil_r.
  - rewrite fmap_cons. simpl firstOccurrences.
    change ((HPrim ∘ PStr) id) with (HStr id). rewrite resolveRefs_step.
    assert (∀ P `{∀ x, Decision (P x)},
              resolvesTo pool (heap s) id = None →
              omap (resolvesTo pool (heap s))
                (filter P (id :: filter (λ x, x ≠ id) (firstOccurrences ids)))
              = omap (resolvesTo pool (heap s)) (filter P (firstOccurrences ids)))
      as Hskip.
    { intros P HP Hnone. rewrite filter_cons.
      assert (omap (resolvesTo pool (heap s))
                (filter P (filter (λ x, x ≠ id) (firstOccurrences ids)))
              = omap (resolvesTo pool (heap s)) (filter P (firstOccurrences ids)))
        as Hrest.
      { rewrite list_filter_filter. apply omap_filter_ext.
        intros x _ [y Hy]. split; [tauto|]. intros HPx. split; [done|].
        intros ->. by rewrite Hnone in Hy. }
      destruct (decide (P id)); [|done].
      rewrite omap_cons_eq, Hnone. done. }
    destruct (find _ pool) as [sharedSec|] eqn:Hfind.
    + destruct (isSectionAt (heap s) (SharedSection.section sharedSec))
        eqn:Hvalid.
      * assert (resolvesTo pool (heap s) id
                = Some (SharedSection.section sharedSec)) as Hres.
        { unfold resolvesTo. by rewrite Hfind, Hvalid. }
        destruct (bool_decide (id ∈ seen)) eqn:Hseen.
        -- apply bool_decide_eq_true in Hseen.
           edestruct (IH upd seen) as (s' & Heq & Hs'). rewrite Heq.
           eexists. split; [|exact Hs']. f_equal. f_equal. rewrite filter_cons.
           destruct (decide (id ∉ seen)); [done|].
           rewrite list_filter_filter. apply omap_filter_ext.
           intros x _ _. split; [|tauto]. intros Hx. split; [done|].
           by intros ->.
        -- apply bool_decide_eq_false in Hseen.
           destruct (IH (upd ++ [SharedSection.section sharedSec])
                        ({[id]} ∪ seen) s) as (s' & Heq & Hs'). rewrite Heq.
           eexists. split; [|done]. f_equal. rewrite <-app_assoc. f_equal.
           rewrite filter_cons. destruct (decide (id ∉ seen)); [|done].
           rewrite omap_cons_eq, Hres.
           f_equal. rewrite list_filter_filter. apply omap_filter_ext.
           intros x _ _. rewrite not_elem_of_union, not_elem_of_singleton.
           tauto.
      * edestruct (IH upd seen) as (s' & Heq & Hs'). rewrite Heq.
        eexists. split; [|exact Hs']. f_equal. f_equal. symmetry. apply Hskip.
        unfold resolvesTo. by rewrite Hfind, Hvalid.
    + edestruct (IH upd seen) as (s' & Heq & Hs'). rewrite Heq.
      eexists. split; [|exact Hs']. f_equal. f_equal. symmetry. apply Hskip.
      unfold resolvesTo. by rewrite Hfind.
Qed.
End resolve_strings.

(** ** Shared-section resolution (C5, C6, C10) *)

Lemma filter_not_in (seen : gset string) (l : list string) :
  seen = ∅ → filter (λ x, x ∉ seen) l = l.
Proof.
  intros ->. induction l as [|x l IH]; [done|]. rewrite filter_cons, IH.
  destruct (decide (x ∉ ∅)) as [|Hx]; [done|].
  destruct Hx. apply not_elem_of_empty.
Qed.

Section resolve_theorems.
Context `{Runtime} (globalAppConfig : AppConfig.t).

Local Abbreviation pool := (sharedSectionPool globalAppConfig).
Local Abbreviation flagOnShared :=
  (FeatureFlags.enableSharedSections
     (AppConfig.featureFlags globalAppConfig)).

(** C5. With the shared-sections flag on and a non-empty pool, a page whose
    [sharedSectionRefs] is an array of strings is resolved without an
    exception: the result is a new page object whose section array holds
    the original sections, in their order, followed by the sections the ref
    ids resolve to, each id taken once at its first occurrence, the ids
    that match no valid shared section left out. *)
Theorem resolveSharedSections_appends s page ids original :
  flagOnShared = true →
  pool ≠ [] →
  truthyH page = true →
  arrayElems (heap s) (propOf (heap s) page "sharedSectionRefs")
    = Some (HPrim ∘ PStr <$> ids) →
  spreadOrEmpty (heap s) (propOf (heap s) page "sections") = Some original →
  ∃ s',
    resolveSharedSections globalAppConfig page s
      = Ok (HRef (S (length (heap s)))) s'
    ∧ heap s' = heap s ++
        [HArray (original ++ resolvedSections pool (heap s) ids);
         HObject (setProp "sections" (HRef (length (heap s)))
                    (ownProps (heap s) page))]
    ∧ NoDup (firstOccurrences ids)
    ∧ (∀ id, id ∈ firstOccurrences ids ↔ id ∈ ids).
Proof.
  intros Hflag Hpool Hpage Hrefs Hsections.
  rewrite resolveSharedSections_unfold by done.
  rewrite Hrefs, Hsections.
  destruct (resolveRefs_strings pool ids original ∅ s) as (s1 & Heq & Hs1).
  rewrite filter_not_in in Heq by done.
  rewrite Heq. destruct Hs1 as (Hh & _).
  eexists. rewrite Hh. split; [done|]. simpl. split.
  - done.
  - split; [apply firstOccurrences_NoDup|].
    intros id. apply firstOccurrences_elem.
Qed.



(** C6, as the code has it. [resolveSharedSections] modifies no object that
    exists and no registry. With the flag off or the pool empty it returns
    the page it was given, the same object. Otherwise it returns a new page
    object with a new section array, and every section it appends is the
    value held by a pool entry: the shared object itself, not a copy. *)
Theorem resolveSharedSections_frame s page :
  extends s (finalState (resolveSharedSections globalAppConfig page s))
  ∧ (truthyH page = true → flagOnShared = false ∨ pool = [] →
     resolveSharedSections globalAppConfig page s = Ok page s)
  ∧ (∀ v s',
       flagOnShared = true → pool ≠ [] →
       resolveSharedSections globalAppConfig page s = Ok v s' →
       ∃ original appended,
         spreadOrEmpty (heap s) (propOf (heap s) page "sections")
           = Some original
         ∧ v = HRef (S (length (heap s)))
         ∧ heap s' = heap s ++
             [HArray (original ++ appended);
              HObject (setProp "sections" (HRef (length (heap s)))
                         (ownProps (heap s) page))]
         ∧ Forall (λ x, ∃ e, e ∈ pool ∧ x = SharedSection.section e)
             appended).
Proof.
  split; [apply resolveSharedSections_extends|]. split.
  { intros Hpage Hoff. by apply resolveSharedSections_noop. }
  intros v s' Hflag Hpool Hr.
  destruct (truthyH page) eqn:Hpage.
  2:{ by rewrite resolveSharedSections_falsy in Hr. }
  rewrite resolveSharedSections_unfold in Hr by done.
  destruct (arrayElems _ _) as [refIds|]; [|done].
  destruct (spreadOrEmpty _ _) as [original|]; [|done].
  pose proof (resolveRefs_outcome pool refIds original ∅ s) as Hloop.
  destruct (resolveRefs _ _ _ _ _) as [upd s1|]; [|done].
  injection Hr as <- <-.
  destruct Hloop as [(Hh & _) (appended & -> & Happ)].
  exists original, appended. rewrite Hh. done.
Qed.
End resolve_theorems.

Lemma resolveSharedSections_appends_witness :
  ∃ s',
    resolveSharedSections (H:=sampleRuntime) sharedConfig (HRef 6) sharedState
      = Ok (HRef 10) s'
    ∧ heap s' = sharedHeap ++
        [HArray [HRef 3; HRef 1];
         HObject (setProp "sections" (HRef 9) (ownProps sharedHeap (HRef 6)))].
Proof.
  destruct (resolveSharedSections_appends (H:=sampleRuntime) sharedConfig
              sharedState (HRef 6) ["promo"; "does-not-exist"; "promo"]
              [HRef 3])
    as (s' & Hr & Hheap & _); try reflexivity; [done|].
  exists s'. split; [exact Hr|]. rewrite Hheap. reflexivity.
Defined.


Lemma resolveSharedSections_frame_witness :
  resolveSharedSections (H:=sampleRuntime) validatedConfig (HRef 6) sharedState
    = Ok (HRef 6) sharedState
  ∧ ∃ original appended,
      heap (finalState (resolveSharedSections (H:=sampleRuntime) sharedConfig
                          (HRef 6) sharedState))
      = sharedHeap ++
          [HArray (original ++ appended);
           HObject (setProp "sections" (HRef 9) (ownProps sharedHeap (HRef 6)))]
      ∧ Forall (λ x, ∃ e, e ∈ [promoEntry] ∧ x = SharedSection.section e)
          appended.
Proof.
  split.
  - apply (proj1 (proj2 (resolveSharedSections_frame (H:=sampleRuntime)
                           validatedConfig sharedState (HRef 6))));
      [reflexivity|by right].
  - destruct (resolveSharedSections (H:=sampleRuntime) sharedConfig (HRef 6)
                sharedState) as [v s'|e s'] eqn:Hr; [|by vm_compute in Hr].
    destruct (proj2 (proj2 (resolveSharedSections_frame (H:=sampleRuntime)
                              sharedConfig sharedState (HRef 6))) v s')
      as (original & appended & _ & _ & Hheap & Happ);
      [reflexivity|done|exact Hr|].
    exists original, appended. split; [exact Hheap|exact Happ].
Defined.

(** C6 as stated fails: the section appended for the ref "promo" is the
    object at address 1, the one the pool entry holds, and with an empty pool
    the function returns the page object it was given. *)
Lemma resolveSharedSections_appends_by_reference :
  (∃ s',
     resolveSharedSections (H:=sampleRuntime) sharedConfig (HRef 6) sharedState
       = Ok (HRef 10) s'
     ∧ arrayElems (heap s') (propOf (heap s') (HRef 10) "sections")
         = Some [HRef 3; HRef 1]
     ∧ SharedSection.section promoEntry = HRef 1)
  ∧ resolveSharedSections (H:=sampleRuntime) validatedConfig (HRef 6)
      sharedState
    = Ok (HRef 6) sharedState.
Proof.
  split; [|reflexivity]. eexists. split; [vm_compute; reflexivity|]. done.
Qed.

(** ** The registries (C7) *)

Section registries.
Context `{Runtime}.

Lemma registryHas_own {V : Type} (registry : gmap string V) k v :
  registry !! k = Some v → registryHas registry k = true.
Proof.
  intros Hk. unfold registryHas. rewrite Hk.
  by rewrite bool_decide_eq_true_2 by eauto.
Qed.

(** C7. Each registry is append-once per key. Registering a section type,
    a page (by its slug) or a template (by its id) under a key that
    already holds an entry (an object) throws, an Error for the first two and a
    ValidationError with code TEMPLATE_EXISTS for the third, and leaves the
    state, hence the existing entry, as it was. *)
Theorem registries_append_once :
  (∀ s type item existing,
     _sectionRegistry s !! type = Some existing →
     sectionRegistry_register type item s
     = Throw (Error ("Section type " +:+ type +:+ " already registered")) s)
  ∧ (∀ s page slug existing,
       truthyH page = true →
       propOf (heap s) page "slug" = HStr slug →
       _pageRegistry s !! slug = Some (HRef existing) →
       registerPage page s
       = Throw (Error ("Page slug " +:+ slug +:+ " already registered")) s)
  ∧ (∀ s template id existing,
       truthyH template = true →
       propOf (heap s) template "id" = HStr id →
       _templateRegistry s !! id = Some (HRef existing) →
       template_register template s
       = Throw (ValidationError "Template already exists" "TEMPLATE_EXISTS")
           s).
Proof.
  split; [|split].
  - intros s type item existing Hk. unfold sectionRegistry_register.
    unfold_monad. by erewrite registryHas_own.
  - intros s page slug existing Hpage Hslug Hk. unfold registerPage.
    unfold_monad. rewrite readProp_truthy, Hslug by done. simpl.
    unfold registryGet. by rewrite Hk.
  - intros s template id existing Htemplate Hid Hk. unfold template_register.
    unfold_monad. rewrite readProp_truthy, Hid by done. simpl.
    unfold registryGet. by rewrite Hk.
Qed.
End registries.

Lemma registries_append_once_witness :
  sectionRegistry_register "text" sampleItem registeredState
    = Throw (Error "Section type text already registered") registeredState
  ∧ registerPage (H:=sampleRuntime) (HRef 1) registeredState
    = Throw (Error "Page slug /sydney/house-cleaning already registered")
        registeredState
  ∧ template_register (H:=sampleRuntime) (HRef 6) registeredState
    = Throw (ValidationError "Template already exists" "TEMPLATE_EXISTS")
        registeredState.
Proof.
  pose proof (registries_append_once (H:=sampleRuntime)) as (Hs & Hp & Ht).
  split; [|split].
  - apply (Hs registeredState "text" sampleItem sampleItem). reflexivity.
  - apply (Hp registeredState (HRef 1) "/sydney/house-cleaning" 1);
      reflexivity.
  - apply (Ht registeredState (HRef 6) "greeting" 6); reflexivity.
Defined.

(** ** Allocation *)

Lemma value_ind (P : value → Prop) :
  (∀ p, P (VPrim p)) →
  (∀ elems, Forall P elems → P (VArr elems)) →
  (∀ props, Forall (λ kv, P kv.2) props → P (VObj props)) →
  ∀ v, P v.
Proof.
  intros Hprim Harr Hobj. fix IH 1. intros [p|elems|props].
  - apply Hprim.
  - apply Harr. revert elems.
    exact (fix all (l : list value) : Forall P l :=
             match l with
             | [] => @List.Forall_nil _ P
             | x :: xs => @List.Forall_cons _ P x xs (IH x) (all xs)
             end).
  - apply Hobj. revert props.
    exact (fix all (l : list (string * value)) : Forall (λ kv, P kv.2) l :=
             match l with
             | [] => @List.Forall_nil _ (λ kv, P kv.2)
             | x :: xs =>
                 @List.Forall_cons _ (λ kv, P kv.2) x xs (IH x.2) (all xs)
             end).
Qed.

Lemma freshFrom_le n m v : n ≤ m → freshFrom m v → freshFrom n v.
Proof. destruct v; simpl; [done|lia]. Qed.

Lemma objFreshFrom_le n m o : n ≤ m → objFreshFrom m o → objFreshFrom n o.
Proof.
  intros Hle Hf. unfold objFreshFrom. eapply Forall_impl; [exact Hf|].
  intros v. by apply freshFrom_le.
Qed.

(** Building a tree allocates objects that refer to one another only. *)
Lemma allocValue_closed v h h' r :
  allocValue v h = (h', r) →
  ∃ new, h' = h ++ new
         ∧ freshFrom (length h) r
         ∧ Forall (objFreshFrom (length h)) new.
Proof.
  revert h h' r.
  induction v as [p|elems IH|props IH] using value_ind; intros h h' r; simpl.
  - intros [= <- <-]. exists []. by rewrite app_nil_r.
  - assert (∀ h h1 rs, allocElems allocValue elems h = (h1, rs) →
              ∃ new, h1 = h ++ new ∧ Forall (freshFrom (length h)) rs
                     ∧ Forall (objFreshFrom (length h)) new) as Hgo.
    { clear h h' r. induction IH as [|x xs Hx _ IHxs]; intros h h1 rs; simpl.
      - intros [= <- <-]. exists []. by rewrite app_nil_r.
      - destruct (allocValue x h) as [ha ra] eqn:Ea.
        destruct (allocElems allocValue xs ha) as [hb rb] eqn:Eb.
        intros [= <- <-].
        destruct (Hx _ _ _ Ea) as (new1 & -> & Hr1 & Hn1).
        destruct (IHxs _ _ _ Eb) as (new2 & -> & Hr2 & Hn2).
        rewrite length_app in Hr2, Hn2.
        exists (new1 ++ new2). rewrite app_assoc. split; [done|]. split.
        + constructor; [done|].
          eapply Forall_impl; [done|]. intros v. apply freshFrom_le. lia.
        + apply Forall_app. split; [done|].
          eapply Forall_impl; [done|]. intros o. apply objFreshFrom_le. lia. }
    destruct (allocElems allocValue elems h) as [h1 rs] eqn:Eg.
    intros [= <- <-].
    destruct (Hgo _ _ _ Eg) as (new & -> & Hrs & Hnew).
    exists (new ++ [HArray rs]). rewrite app_assoc. split; [done|].
    split; [simpl; rewrite length_app; lia|].
    apply Forall_app. split; [done|]. by constructor.
  - assert (∀ h h1 rs, allocProps allocValue props h = (h1, rs) →
              ∃ new, h1 = h ++ new ∧ Forall (freshFrom (length h)) rs.*2
                     ∧ Forall (objFreshFrom (length h)) new) as Hgo.
    { clear h h' r. induction IH as [|[k x] xs Hx _ IHxs]; intros h h1 rs; simpl.
      - intros [= <- <-]. exists []. by rewrite app_nil_r.
      - destruct (allocValue x h) as [ha ra] eqn:Ea.
        destruct (allocProps allocValue xs ha) as [hb rb] eqn:Eb.
        intros [= <- <-].
        destruct (Hx _ _ _ Ea) as (new1 & -> & Hr1 & Hn1).
        destruct (IHxs _ _ _ Eb) as (new2 & -> & Hr2 & Hn2).
        rewrite length_app in Hr2, Hn2.
        exists (new1 ++ new2). rewrite app_assoc. split; [done|]. split.
        + simpl. constructor; [done|].
          eapply Forall_impl; [done|]. intros v. apply freshFrom_le. lia.
        + apply Forall_app. split; [done|].
          eapply Forall_impl; [done|]. intros o. apply objFreshFrom_le. lia. }
    destruct (allocProps allocValue props h) as [h1 rs] eqn:Eg.
    intros [= <- <-].
    destruct (Hgo _ _ _ Eg) as (new & -> & Hrs & Hnew).
    exists (new ++ [HObject rs]). rewrite app_assoc. split; [done|].
    split; [simpl; rewrite length_app; lia|].
    apply Forall_app. split; [done|]. by constructor.
Qed.

(** ** Computations that only allocate *)

Lemma extends_trans s1 s2 s3 : extends s1 s2 → extends s2 s3 → extends s1 s3.
Proof.
  intros (Hh1 & ? & ? & ?) (Hh2 & ? & ? & ?).
  repeat split; [by etrans|congruence..].
Qed.

Lemma extending_ret {A : Type} (a : A) : extending (mret a : M A).
Proof. intros s. apply extends_refl. Qed.

Lemma extending_throw {A : Type} (e : exn) : extending (throw e : M A).
Proof. intros s. apply extends_refl. Qed.

Lemma extending_bind {A B : Type} (m : M A) (f : A → M B) :
  extending m → (∀ a, extending (f a)) → extending (m ≫= f).
Proof.
  intros Hm Hf s. unfold mbind, M_bind. specialize (Hm s).
  destruct (m s) as [a s'|e s']; [|done].
  eapply extends_trans; [exact Hm|apply Hf].
Qed.

Lemma extending_getState : extending getState.
Proof. intros s. apply extends_refl. Qed.

Lemma extending_alloc o : extending (alloc o).
Proof. intros s. repeat split. simpl. by apply prefix_app_r. Qed.

Lemma extending_allocTree v : extending (allocTree v).
Proof.
  intros s. unfold allocTree.
  destruct (allocValue v (heap s)) as [h r] eqn:E.
  apply allocValue_closed in E as (new & -> & _). repeat split. simpl.
  by apply prefix_app_r.
Qed.

Lemma extending_readProp v k : extending (readProp v k).
Proof.
  intros s. unfold readProp.
  destruct v as [[]|l]; try apply extends_refl.
  destruct (heap s !! l) as [[]|]; apply extends_refl.
Qed.

Section extending_functions.
Context `{Runtime} (globalAppConfig : AppConfig.t).

Lemma extending_draw source : extending (draw source).
Proof. intros s. by repeat split. Qed.

Lemma extending_createSection type fields :
  extending (createSection type fields).
Proof.
  unfold createSection, sectionRegistry_has.
  apply extending_bind.
  { apply extending_bind; [apply extending_getState|].
    intros s. apply extending_ret. }
  intros registered. destruct (negb registered); [apply extending_throw|].
  apply extending_bind; [apply extending_draw|]. intros id.
  repeat (apply extending_bind; [apply extending_alloc|]; intros ?).
  apply extending_alloc.
Qed.

Lemma extending_generateAIContentSections instructions variables :
  extending (generateAIContentSections globalAppConfig instructions variables).
Proof.
  unfold generateAIContentSections.
  destruct (_ || _); [apply extending_ret|].
  repeat (apply extending_bind; [apply extending_alloc|]; intros ?).
  apply extending_bind; [apply extending_createSection|]. intros ?.
  apply extending_ret.
Qed.

Lemma extending_template_get id : extending (template_get id).
Proof.
  unfold template_get. apply extending_bind; [apply extending_getState|].
  intros s. destruct (negb _); [apply extending_throw|apply extending_ret].
Qed.

Lemma extending_lengthPositive v : extending (lengthPositive v).
Proof.
  unfold lengthPositive. apply extending_bind; [apply extending_getState|].
  intros s.
  assert (extending
            match arrayElems (heap s) v with
            | Some elems => mret (negb (length elems =? 0))
            | None =>
                len ← readProp v "length";
                mret match len with HNum n => gtQ n 0 | _ => false end
            end) as Hrest.
  { destruct (arrayElems (heap s) v); [apply extending_ret|].
    apply extending_bind; [apply extending_readProp|]. intros len.
    apply extending_ret. }
  destruct v as [[]|]; exact Hrest.
Qed.

Lemma extending_template_instantiate templateId variables :
  extending (template_instantiate globalAppConfig templateId variables).
Proof.
  unfold template_instantiate.
  apply extending_bind; [apply extending_template_get|]. intros template.
  apply extending_bind; [apply extending_readProp|]. intros skeleton.
  apply extending_bind; [apply extending_getState|]. intros s0.
  apply extending_bind; [apply extending_alloc|]. intros section.
  apply extending_bind; [apply extending_readProp|]. intros declared.
  apply extending_bind; [apply extending_lengthPositive|]. intros hasVariables.
  apply extending_bind.
  { destruct hasVariables; [|apply extending_ret].
    apply extending_bind; [apply extending_getState|]. intros s1.
    destruct (reifyIn (heap s1) section); [|apply extending_throw].
    destruct (JSON_parse _); [apply extending_allocTree|apply extending_throw]. }
  intros section'.
  apply extending_bind; [apply extending_readProp|]. intros aiPrompt.
  destruct (truthyH aiPrompt); [|apply extending_ret].
  apply extending_bind; [apply extending_generateAIContentSections|].
  intros [|first rest]; [apply extending_ret|].
  apply extending_bind; [apply extending_getState|]. intros s2.
  apply extending_alloc.
Qed.
End extending_functions.

(** ** Template instantiation (C2) *)

Lemma bind_Ok {A B : Type} (m : M A) (f : A → M B) s b s'' :
  (m ≫= f) s = Ok b s'' → ∃ a s', m s = Ok a s' ∧ f a s' = Ok b s''.
Proof.
  unfold mbind, M_bind. destruct (m s) as [a s'|]; [eauto|done].
Qed.

Lemma readProp_Ok v k s x s' : readProp v k s = Ok x s' → s' = s.
Proof.
  destruct v as [[]|l]; simpl; try congruence.
  destruct (heap s !! l) as [[]|]; congruence.
Qed.

Lemma lookup_drop_fresh (h : list hobj) m l o :
  m ≤ l → h !! l = Some o → Forall (objFreshFrom m) (drop m h) →
  objFreshFrom m o.
Proof.
  intros Hle Hl Hall. eapply Forall_lookup_1; [exact Hall|].
  rewrite lookup_drop. replace (m + (l - m)) with l by lia. exact Hl.
Qed.

Lemma imap_values {A : Type} (f : nat → string) (l : list A) :
  (imap (λ i x, (f i, x)) l).*2 = l.
Proof.
  revert f. induction l as [|x l IH]; intros f; [done|].
  simpl. f_equal. apply (IH (f ∘ S)).
Qed.

Lemma ownProps_fresh h m v :
  freshFrom m v → Forall (objFreshFrom m) (drop m h) →
  Forall (freshFrom m) (ownProps h v).*2.
Proof.
  intros Hv Hall. destruct v as [p|l]; simpl; [constructor|].
  destruct (h !! l) as [o|] eqn:Hl; [|constructor].
  pose proof (lookup_drop_fresh _ _ _ _ Hv Hl Hall) as Ho.
  destruct o as [props|elems]; [exact Ho|].
  by rewrite imap_values.
Qed.

Lemma setProp_values {A : Type} (P : A → Prop) k v (props : list (string * A)) :
  P v → Forall P props.*2 → Forall P (setProp k v props).*2.
Proof.
  intros Hv. induction props as [|[k' v'] props IH]; simpl.
  - by constructor.
  - intros [Hv' Hrest]%Forall_cons.
    destruct (String.eqb k k'); simpl; constructor; auto.
Qed.

Lemma mergeProps_values {A : Type} (P : A → Prop) (a b : list (string * A)) :
  Forall P a.*2 → Forall P b.*2 → Forall P (mergeProps a b).*2.
Proof.
  unfold mergeProps. revert a.
  induction b as [|[k v] b IH]; intros a Ha; simpl; [done|].
  intros [Hv Hb]%Forall_cons. apply IH; [|done]. by apply setProp_values.
Qed.

Lemma drop_app_fresh m (h new : list hobj) :
  m ≤ length h →
  Forall (objFreshFrom m) (drop m h) → Forall (objFreshFrom m) new →
  Forall (objFreshFrom m) (drop m (h ++ new)).
Proof.
  intros Hle Hh Hnew. rewrite drop_app_le by done.
  apply Forall_app. by split.
Qed.

Section instantiate.
Context `{Runtime} (globalAppConfig : AppConfig.t).

Lemma createSection_Ok type fields s v s' :
  createSection type fields s = Ok v s' →
  ∃ id, heap s' = heap s ++
          [HObject []; HObject []; HObject [];
           HObject [("id", HStr id); ("type", HStr type); ("fields", fields);
                    ("style", HRef (length (heap s)));
                    ("tracking", HRef (S (length (heap s))));
                    ("seo", HRef (S (S (length (heap s)))))]]
        ∧ v = HRef (S (S (S (length (heap s))))).
Proof.
  unfold createSection, sectionRegistry_has. unfold_monad.
  destruct (negb _); [done|]. unfold draw, alloc. simpl.
  rewrite !length_app. simpl. intros [= <- <-]. simpl.
  exists (randomUUID (draws s)). rewrite <-!app_assoc. simpl.
  rewrite !Nat.add_1_r. done.
Qed.

Lemma generateAIContentSections_Ok instructions variables s out s' :
  generateAIContentSections globalAppConfig instructions variables s
    = Ok out s' →
  (out = [] ∧ s' = s)
  ∨ ∃ new l, heap s' = heap s ++ new
             ∧ out = [HRef l] ∧ length (heap s) ≤ l
             ∧ Forall (objFreshFrom (length (heap s))) new.
Proof.
  unfold generateAIContentSections.
  destruct (_ || _); [intros [= <- <-]; by left|].
  intros Hr. right.
  apply bind_Ok in Hr as (textField & s1 & [= <- <-] & Hr).
  apply bind_Ok in Hr as (fields & s2 & [= <- <-] & Hr).
  apply bind_Ok in Hr as (section & s3 & Hsection & [= <- <-]).
  apply createSection_Ok in Hsection as (id & Hheap & ->).
  simpl in Hheap. rewrite !length_app in Hheap. simpl in Hheap.
  rewrite <-!app_assoc in Hheap. simpl in Hheap.
  eexists _, _. split; [exact Hheap|]. simpl. rewrite !length_app. simpl.
  split; [done|]. split; [lia|].
  repeat constructor; simpl; lia.
Qed.

Lemma template_get_Ok id s t s' :
  template_get id s = Ok t s' →
  s' = s ∧ t = registryGet (_templateRegistry s) id ∧ truthyH t = true.
Proof.
  unfold template_get. unfold_monad.
  destruct (truthyH (registryGet (_templateRegistry s) id)) eqn:Ht; simpl;
    [|done].
  by intros [= <- <-].
Qed.

Lemma lengthPositive_Ok v s b s' : lengthPositive v s = Ok b s' → s' = s.
Proof.
  unfold lengthPositive. unfold_monad.
  assert (match arrayElems (heap s) v with
          | Some elems => Ok (negb (length elems =? 0)) s
          | None =>
              match readProp v "length" s with
              | Ok len s1 =>
                  Ok match len with HNum n => gtQ n 0 | _ => false end s1
              | Throw e s1 => Throw e s1
              end
          end = Ok b s' → s' = s) as Hrest.
  { destruct (arrayElems (heap s) v); [congruence|].
    destruct (readProp v "length" s) as [len s1|] eqn:Hlen; [|done].
    apply readProp_Ok in Hlen as ->. congruence. }
  destruct v as [[]|]; try exact Hrest.
  - by intros [= _ <-].
  - destruct (arrayElems (heap s) (HRef l)); exact Hrest.
Qed.

Lemma lengthPositive_array v s elems :
  arrayElems (heap s) v = Some elems →
  lengthPositive v s = Ok (negb (length elems =? 0)) s.
Proof.
  unfold lengthPositive. unfold_monad. intros Hv.
  destruct v as [[]|l]; try done. by rewrite Hv.
Qed.
End instantiate.

Lemma arrayElems_app h new v xs :
  arrayElems h v = Some xs → arrayElems (h ++ new) v = Some xs.
Proof.
  destruct v as [|l]; simpl; [done|].
  destruct (h !! l) as [o|] eqn:Hl; [|done].
  by rewrite (lookup_app_l_Some _ _ _ _ Hl).
Qed.

Lemma propOf_app h new v k xs :
  arrayElems h (propOf h v k) = Some xs →
  ∀ k', propOf (h ++ new) v k' = propOf h v k'.
Proof.
  destruct v as [|l]; simpl; [done|].
  destruct (h !! l) as [o|] eqn:Hl; [|done].
  by rewrite (lookup_app_l_Some _ _ _ _ Hl).
Qed.

Section instantiate_theorem.
Context `{Runtime} (globalAppConfig : AppConfig.t).

Local Abbreviation templateOf s templateId :=
  (registryGet (_templateRegistry s) templateId).

(** C2, as the code has it. [templateUtils.instantiate] changes neither the
    template registry nor any object that exists, so the stored template is
    as it was; what it returns is never an object that existed before the
    call. The copy is deep when the template declares at least one
    variable: the section then comes out of a JSON round trip and shares no
    object with the heap of before the call. When the template declares no
    variable and has no AI prompt, the result is one new object holding the
    very property values of the template's section: its nested objects are
    the template's own. *)
Theorem template_instantiate_copy templateId variables s :
  extends s
    (finalState
       (template_instantiate globalAppConfig templateId variables s))
  ∧ (∀ v s',
       template_instantiate globalAppConfig templateId variables s = Ok v s' →
       freshFrom (length (heap s)) v)
  ∧ (∀ v s' d ds,
       arrayElems (heap s)
         (propOf (heap s) (templateOf s templateId) "variables")
         = Some (d :: ds) →
       template_instantiate globalAppConfig templateId variables s = Ok v s' →
       isolatedFrom (length (heap s)) (heap s') v)
  ∧ (arrayElems (heap s)
       (propOf (heap s) (templateOf s templateId) "variables") = Some [] →
     truthyH (propOf (heap s) (templateOf s templateId) "aiPrompt") = false →
     template_instantiate globalAppConfig templateId variables s
     = Ok (HRef (length (heap s)))
         (setHeap
            (heap s ++
               [HObject (ownProps (heap s)
                           (propOf (heap s) (templateOf s templateId)
                              "section"))]) s)).
Proof.
  split; [apply extending_template_instantiate|].
  (* the common prefix of every run that returns *)
  assert (∀ v s',
    template_instantiate globalAppConfig templateId variables s = Ok v s' →
    let t := templateOf s templateId in
    let s1 := setHeap (heap s ++
                [HObject (ownProps (heap s) (propOf (heap s) t "section"))]) s in
    truthyH t = true
    ∧ ∃ hasVariables section s2,
        lengthPositive (propOf (heap s1) t "variables") s1 = Ok hasVariables s1
        ∧ (if hasVariables then
             ∃ tree tree', reifyIn (heap s1) (HRef (length (heap s))) = Some tree
               ∧ allocValue tree' (heap s1) = (heap s2, section)
               ∧ s2 = setHeap (heap s2) s1
           else section = HRef (length (heap s)) ∧ s2 = s1)
        ∧ (if truthyH (propOf (heap s2) t "aiPrompt") then
             ∃ aiContent s3,
               generateAIContentSections globalAppConfig
                 (propOf (heap s2) t "aiPrompt") variables s2 = Ok aiContent s3
               ∧ match aiContent with
                 | first :: _ =>
                     v = HRef (length (heap s3))
                     ∧ s' = setHeap (heap s3 ++
                              [HObject (mergeProps (ownProps (heap s3) section)
                                          (ownProps (heap s3) first))]) s3
                 | [] => v = section ∧ s' = s3
                 end
           else v = section ∧ s' = s2)) as Hrun.
  { intros v s' Hr. cbv zeta. unfold template_instantiate in Hr.
    apply bind_Ok in Hr as (t & s0 & Ht & Hr).
    apply template_get_Ok in Ht as (-> & -> & Htruthy).
    split; [done|].
    apply bind_Ok in Hr as (skeleton & s0 & Hsk & Hr).
    rewrite readProp_truthy in Hsk by done. injection Hsk as <- <-.
    apply bind_Ok in Hr as (s0 & s0' & [= <- <-] & Hr).
    apply bind_Ok in Hr as (section & s1 & [= <- <-] & Hr).
    apply bind_Ok in Hr as (declared & s1' & Hdecl & Hr).
    rewrite readProp_truthy in Hdecl by done. injection Hdecl as <- <-.
    apply bind_Ok in Hr as (hasVariables & s1' & Hlen & Hr).
    pose proof (lengthPositive_Ok _ _ _ _ Hlen) as ->.
    apply bind_Ok in Hr as (section' & s2 & Hsub & Hr).
    apply bind_Ok in Hr as (aiPrompt & s2' & Hai & Hr).
    rewrite readProp_truthy in Hai by done. injection Hai as <- <-.
    exists hasVariables, section', s2. split; [exact Hlen|]. split.
    - destruct hasVariables.
      + apply bind_Ok in Hsub as (s1' & s1'' & [= <- <-] & Hsub).
        destruct (reifyIn _ _) as [tree|] eqn:Htree; [|done].
        destruct (JSON_parse _) as [tree'|]; [|done].
        unfold allocTree in Hsub.
        destruct (allocValue tree' _) as [h2 r] eqn:Halloc.
        injection Hsub as <- <-. exists tree, tree'. done.
      + unfold mret, M_ret in Hsub. by injection Hsub as <- <-.
    - unfold mret, M_ret in Hr.
      destruct (truthyH (propOf (heap s2) _ "aiPrompt"));
        [|simpl in Hr; by injection Hr as <- <-].
      apply bind_Ok in Hr as (aiContent & s3 & Hgen & Hr).
      exists aiContent, s3. split; [exact Hgen|].
      destruct aiContent as [|first rest];
        [simpl in Hr; by injection Hr as <- <-|].
      apply bind_Ok in Hr as (s3' & s3'' & [= <- <-] & Hr).
      unfold alloc in Hr. by injection Hr as <- <-. }
  split; [|split].
  - intros v s' Hr. destruct (Hrun v s' Hr) as
      (Htruthy & hasVariables & section & s2 & Hlen & Hsub & Hai).
    assert (freshFrom (length (heap s)) section
            ∧ length (heap s) ≤ length (heap s2)) as [Hsection Hs2].
    { destruct hasVariables.
      - destruct Hsub as (tree & tree' & _ & Halloc & _).
        apply allocValue_closed in Halloc as (new & Hh2 & Hfresh & _).
        rewrite Hh2. simpl in *. rewrite !length_app in *. simpl in *.
        split; [|lia]. eapply freshFrom_le; [|exact Hfresh]. lia.
      - destruct Hsub as [-> ->]. simpl. rewrite length_app. simpl.
        split; lia. }
    destruct (truthyH (propOf (heap s2) _ "aiPrompt"));
      [|by destruct Hai as [-> _]].
    destruct Hai as (aiContent & s3 & Hgen & Hfinal).
    destruct aiContent as [|first rest]; [by destruct Hfinal as [-> _]|].
    destruct Hfinal as [-> _].
    apply generateAIContentSections_Ok in Hgen
      as [[? _]|(new & l & Hh3 & _)]; [done|].
    simpl. rewrite Hh3, length_app. lia.
  - intros v s' d ds Hvars Hr. destruct (Hrun v s' Hr) as
      (Htruthy & hasVariables & section & s2 & Hlen & Hsub & Hai).
    simpl in Hlen.
    rewrite (propOf_app _ _ _ _ _ Hvars) in Hlen.
    erewrite lengthPositive_array in Hlen
      by (simpl; by apply arrayElems_app).
    injection Hlen as <-. simpl in Hsub.
    destruct Hsub as (tree & tree' & _ & Halloc & Hs2).
    apply allocValue_closed in Halloc as (new & Hh2 & Hfresh & Hnew).
    simpl in Hh2, Hfresh, Hnew. rewrite length_app in Hfresh, Hnew.
    simpl in Hfresh, Hnew.
    set (m := length (heap s) + 1) in *.
    assert (Forall (objFreshFrom m) (drop m (heap s2))) as Hiso2.
    { rewrite Hh2. rewrite drop_app_length'; [done|].
      rewrite length_app. simpl. done. }
    exists m. split; [lia|].
    destruct (truthyH (propOf (heap s2) _ "aiPrompt"));
      [|by destruct Hai as [-> ->]].
    destruct Hai as (aiContent & s3 & Hgen & Hfinal).
    apply generateAIContentSections_Ok in Hgen
      as [[-> ->]|(new3 & l & Hh3 & -> & Hl & Hnew3)].
    { by destruct Hfinal as [-> ->]. }
    destruct Hfinal as [-> ->]. cbn [heap setHeap].
    assert (m ≤ length (heap s2)) as Hm.
    { rewrite Hh2, !length_app. simpl. lia. }
    assert (Forall (objFreshFrom m) (drop m (heap s3))) as Hiso3.
    { rewrite Hh3. apply drop_app_fresh; [done..|].
      eapply Forall_impl; [exact Hnew3|]. intros o.
      by apply objFreshFrom_le. }
    split; [unfold freshFrom; rewrite Hh3, length_app; lia|].
    apply drop_app_fresh; [rewrite Hh3, length_app; lia|done|].
    constructor; [|constructor]. unfold objFreshFrom, objValues.
    apply mergeProps_values; apply ownProps_fresh; try done.
    unfold freshFrom. lia.
  - intros Hvars Hai.
    assert (truthyH (templateOf s templateId) = true) as Htruthy.
    { destruct (templateOf s templateId) as [[]|]; try done. }
    unfold template_instantiate.
    unfold template_get. unfold_monad. rewrite Htruthy. simpl.
    rewrite readProp_truthy by done. unfold alloc at 1. simpl.
    rewrite readProp_truthy by done. simpl.
    rewrite (propOf_app _ _ _ _ _ Hvars).
    erewrite lengthPositive_array by (simpl; by apply arrayElems_app).
    simpl. rewrite readProp_truthy by done. simpl.
    rewrite (propOf_app _ _ _ _ _ Hvars). by rewrite Hai.
Qed.
End instantiate_theorem.
Lemma template_instantiate_copy_witness :
  template_instantiate (H:=sampleRuntime) validatedConfig "greeting"
    [("city", PStr "Sydney")] registeredState
  = Ok (HRef 10)
      (setHeap (heap registeredState
                ++ [HObject [("id", HStr "greeting-section");
                             ("type", HStr "text"); ("fields", HRef 3)]])
         registeredState)
  ∧ isolatedFrom 10
      (heap (finalState
         (template_instantiate (H:=sampleRuntime) validatedConfig
            "greeting-city" [("city", PStr "Sydney")] registeredState)))
      (HRef 13).
Proof.
  split.
  - exact (proj2 (proj2 (proj2
      (template_instantiate_copy (H:=sampleRuntime) validatedConfig
         "greeting" [("city", PStr "Sydney")] registeredState)))
      eq_refl eq_refl).
  - exact (proj1 (proj2 (proj2
      (template_instantiate_copy (H:=sampleRuntime) validatedConfig
         "greeting-city" [("city", PStr "Sydney")] registeredState)))
      (HRef 13) _ (HRef 7) [] eq_refl eq_refl).
Defined.

(** The section returned for a template that declares no variable is a new
    object whose [fields] is the very object the stored template's section
    refers to: a later write through the returned section's fields is a write
    to the template. *)
Lemma template_instantiate_shares_fields :
  ∃ s', template_instantiate (H:=sampleRuntime) validatedConfig "greeting"
          [("city", PStr "Sydney")] registeredState = Ok (HRef 10) s'
        ∧ propOf (heap s')
            (propOf (heap s') (registryGet (_templateRegistry s') "greeting")
               "section") "fields" = HRef 3
        ∧ propOf (heap s') (HRef 10) "fields" = HRef 3
        ∧ ¬ isolatedFrom 10 (heap s') (HRef 10).
Proof.
  eexists. split; [vm_compute; reflexivity|].
  split; [reflexivity|]. split; [reflexivity|].
  intros (m & Hm & Hv & Hall). simpl in Hv.
  assert (m = 10) as -> by lia.
  vm_compute in Hall. apply Forall_cons in Hall as [Hobj _].
  unfold objFreshFrom in Hobj. simpl in Hobj.
  apply Forall_cons in Hobj as [_ Hobj].
  apply Forall_cons in Hobj as [_ Hobj].
  apply Forall_cons in Hobj as [Hobj _]. simpl in Hobj. lia.
Qed.
Lemma forOf_app {A : Type} (xs ys : list A) (body : A → M unit) s :
  forOf (xs ++ ys) body s = (forOf xs body ;; forOf ys body) s.
Proof.
  revert s. induction xs as [|x xs IH]; intros s; [done|].
  simpl. unfold mbind, M_bind in *. destruct (body x s) as [[] s1|]; [|done].
  apply IH.
Qed.

Lemma bind_unfold {A B : Type} (m : M A) (f : A → M B) s :
  (m ≫= f) s
  = match m s with
    | Ok a s' => f a s'
    | Throw e s' => Throw e s'
    end.
Proof. reflexivity. Qed.

Lemma forOf_nested {A B : Type} (xs : list A) (ys : list B)
    (body : A → B → M unit) s :
  forOf xs (λ x, forOf ys (λ y, body x y)) s
  = forOf (x ← xs; y ← ys; [(x, y)]) (λ p, body p.1 p.2) s.
Proof.
  revert s. induction xs as [|x xs IH]; intros s; [done|].
  simpl. rewrite forOf_app, !bind_unfold.
  assert (∀ s, forOf ys (λ y, body x y) s
               = forOf (ys ≫= λ y, [(x, y)]) (λ p, body p.1 p.2) s) as ->.
  { clear. induction ys as [|y ys IH]; intros s; [done|].
    simpl. rewrite !bind_unfold.
    destruct (body x y s) as [[] s1|]; [|done]. apply IH. }
  destruct (forOf _ _ s) as [[] s1|]; [|done]. apply IH.
Qed.

Lemma forOf_Ok_ind {A : Type} (R : State → State → Prop) (xs : list A)
    (body : A → M unit) :
  (∀ s, R s s) → (∀ s1 s2 s3, R s1 s2 → R s2 s3 → R s1 s3) →
  (∀ x s s', x ∈ xs → body x s = Ok tt s' → R s s') →
  ∀ s s', forOf xs body s = Ok tt s' → R s s'.
Proof.
  intros Hrefl Htrans. induction xs as [|x xs IH]; intros Hbody s s' Hr.
  - injection Hr as <-. apply Hrefl.
  - simpl in Hr. apply bind_Ok in Hr as ([] & s1 & Hx & Hr).
    eapply Htrans; [eapply Hbody; [left|exact Hx]|].
    apply IH; [|done]. intros y s2 s3 Hy. apply Hbody. by right.
Qed.

Lemma lookup_app_plus {A : Type} (l new : list A) i :
  (l ++ new) !! (length l + i) = new !! i.
Proof. rewrite lookup_app_r by lia. f_equal. lia. Qed.

Lemma slugOf_not_blank city service :
  String.eqb (slugOf city service) "" || isBlank (slugOf city service) = false.
Proof. reflexivity. Qed.


Section generation_tail.
Context `{Runtime} (globalAppConfig : AppConfig.t).

Lemma generatePage_present rule city service s :
  registeredAt s (slugOf city service) = true →
  generatePage globalAppConfig rule city service s = Ok tt s.
Proof.
  intros Hreg. unfold generatePage, getPageBySlug. unfold_monad.
  unfold registeredAt, slugOf in Hreg. by rewrite Hreg.
Qed.

Lemma generatePage_tail slug generatedSections s s' :
  String.eqb slug "" || isBlank slug = false →
  registeredAt s slug = false →
  (newPage ← createPage "city" slug;
   sections ← readProp newPage "sections";
   arrayPush sections generatedSections;;
   registerPage newPage) s = Ok tt s' →
  ∃ id meta lastModified,
    heap s' = heap s ++
      [HArray generatedSections; HArray []; HArray []; meta;
       HObject [
         ("id", HStr id);
         ("type", HStr "city");
         ("slug", HStr slug);
         ("sections", HRef (length (heap s)));
         ("clusterRefs", HRef (length (heap s) + 1));
         ("sharedSectionRefs", HRef (length (heap s) + 2));
         ("meta", HRef (length (heap s) + 3));
         ("version", HNum (int 1));
         ("lastModified", HStr lastModified);
         ("lastModifiedBy", HStr "system");
         ("locale", HUndefined)]]
    ∧ _pageRegistry s'
      = <[slug := HRef (length (heap s) + 4)]> (_pageRegistry s)
    ∧ _sectionRegistry s' = _sectionRegistry s
    ∧ _templateRegistry s' = _templateRegistry s.
Proof.
  intros Hslug Hreg. unfold createPage.
  replace (safeParse pageTypeEnum (VStr "city")) with (Some (VStr "city"))
    by reflexivity.
  rewrite Hslug. unfold draw, alloc. unfold_monad.
  cbn [heap setHeap setDraws draws].
  rewrite !length_app. cbn [length]. rewrite <- !app_assoc. cbn [app].
  rewrite <- !Nat.add_assoc. cbn [Nat.add].
  unfold readProp. cbn [heap setHeap setDraws].
  rewrite lookup_app_plus. cbn.
  rewrite list_lookup_middle by done.
  rewrite insert_app_r_alt by done. rewrite Nat.sub_diag. cbn.
  unfold registerPage, readProp. unfold_monad. cbn.
  rewrite lookup_app_plus. cbn.
  unfold registeredAt in Hreg. rewrite Hreg.
  intros [= <-]. cbn. eauto 10.
Qed.
End generation_tail.

Lemma aiSection_prefix h h' city service section :
  h `prefix_of` h' → aiSection h city service section →
  aiSection h' city service section.
Proof.
  intros Hp (l & id & lf & li & st & tr & seo & -> & Hs & Hf & Hi).
  exists l, id, lf, li, st, tr, seo.
  repeat split; try done; by eapply prefix_lookup_Some.
Qed.

Lemma generatedPage_prefix cfg rule n n' h h' slug entry :
  h `prefix_of` h' → n' ≤ n → generatedPage cfg rule n h slug entry →
  generatedPage cfg rule n' h' slug entry.
Proof.
  intros [new ->] Hn (city & service & page & sections & Hloc & -> & -> & Hp
                       & Hslug & Hsections & Hai).
  exists city, service, page, sections.
  rewrite !(propOf_app _ _ _ _ _ Hsections).
  split; [done|]. split; [done|]. split; [done|]. split; [lia|].
  split; [done|]. split; [by apply arrayElems_app|].
  destruct (aiContentFor cfg rule); [|done].
  destruct Hai as (section & -> & Hsec). exists section. split; [done|].
  eapply aiSection_prefix; [|exact Hsec]. by apply prefix_app_r.
Qed.

Lemma registeredAt_lookup s s' slug :
  _pageRegistry s' !! slug = _pageRegistry s !! slug →
  registeredAt s' slug = registeredAt s slug.
Proof. unfold registeredAt, registryGet. by intros ->. Qed.

Lemma generates_refl cfg rule s : generates cfg rule s s.
Proof. repeat split; try done. intros slug. by left. Qed.

Lemma generates_trans cfg rule s1 s2 s3 :
  generates cfg rule s1 s2 → generates cfg rule s2 s3 →
  generates cfg rule s1 s3.
Proof.
  intros (Hh1 & Hs1 & Ht1 & Hp1) (Hh2 & Hs2 & Ht2 & Hp2).
  repeat split; [by etrans|congruence..|]. intros slug.
  destruct (Hp2 slug) as [Heq2|(Hreg2 & entry & Hentry & Hgen)].
  - destruct (Hp1 slug) as [Heq1|(Hreg1 & entry & Hentry & Hgen)].
    + left. congruence.
    + right. split; [done|]. exists entry. split; [congruence|].
      eapply generatedPage_prefix; [exact Hh2|done|exact Hgen].
  - destruct (Hp1 slug) as [Heq1|(Hreg1 & entry1 & Hentry1 & Hgen1)].
    + right. split; [by rewrite <- (registeredAt_lookup _ _ _ Heq1)|].
      exists entry. split; [done|].
      eapply (generatedPage_prefix _ _ _ _ (heap s3)); [done| |exact Hgen].
      by apply prefix_length.
    + destruct Hgen1 as (? & ? & page & ? & _ & _ & -> & _).
      unfold registeredAt, registryGet in Hreg2. by rewrite Hentry1 in Hreg2.
Qed.

Lemma generates_registered cfg rule s s' slug :
  generates cfg rule s s' → registeredAt s slug = true →
  registeredAt s' slug = true.
Proof.
  intros (_ & _ & _ & Hp) Hreg.
  destruct (Hp slug) as [Heq|(Hreg' & _)]; [|congruence].
  by rewrite (registeredAt_lookup _ _ _ Heq).
Qed.

Section generation_run.
Context `{Runtime} (globalAppConfig : AppConfig.t).

Lemma generateAIContentSections_section instructions city service s out s' :
  generateAIContentSections globalAppConfig instructions
    [("city", PStr city); ("service", PStr service)] s = Ok out s' →
  heap s `prefix_of` heap s'
  ∧ _sectionRegistry s' = _sectionRegistry s
  ∧ _pageRegistry s' = _pageRegistry s
  ∧ _templateRegistry s' = _templateRegistry s
  ∧ if truthyH instructions && aiContentEnabled globalAppConfig
    then ∃ section, out = [section]
                    ∧ aiSection (heap s') city service section
    else out = [].
Proof.
  unfold generateAIContentSections.
  destruct (truthyH instructions), (aiContentEnabled globalAppConfig);
    simpl; try (intros [= <- <-]; done).
  unfold createSection, sectionRegistry_has, alloc, draw. unfold_monad.
  cbn [heap setHeap setDraws draws _sectionRegistry].
  destruct (registryHas _ _); [|done]. cbn.
  rewrite !length_app. cbn [length]. rewrite <- !app_assoc. cbn [app].
  rewrite <- !Nat.add_assoc. cbn [Nat.add].
  intros [= <- <-]. cbn. split; [by apply prefix_app_r|].
  repeat split. eexists. split; [done|].
  eexists _, _, _, _, _, _, _. split; [done|].
  split; [rewrite lookup_app_plus; reflexivity|].
  split; [rewrite lookup_app_plus; reflexivity|].
  by rewrite list_lookup_middle.
Qed.
End generation_run.

Section generation_page.
Context `{Runtime} (globalAppConfig : AppConfig.t).

Lemma generatePage_Ok rule city service s s' :
  (city, service) ∈ locations →
  generatePage globalAppConfig rule city service s = Ok tt s' →
  (registeredAt s (slugOf city service) = true ∧ s' = s)
  ∨ (registeredAt s (slugOf city service) = false
     ∧ generates globalAppConfig rule s s'
     ∧ registeredAt s' (slugOf city service) = true).
Proof.
  intros Hloc. unfold generatePage, getPageBySlug.
  rewrite bind_unfold. unfold getState at 1. rewrite bind_unfold.
  unfold mret at 1, M_ret at 1.
  fold (slugOf city service). fold (registeredAt s (slugOf city service)).
  destruct (registeredAt s (slugOf city service)) eqn:Hreg; simpl negb; cbv iota.
  { intros [= <-]. by left. }
  intros Hr. right. split; [done|].
  fold (aiContentFor globalAppConfig rule) in Hr.
  apply bind_Ok in Hr as (generatedSections & s0 & Hgen & Hr).
  assert (heap s `prefix_of` heap s0
          ∧ _sectionRegistry s0 = _sectionRegistry s
          ∧ _pageRegistry s0 = _pageRegistry s
          ∧ _templateRegistry s0 = _templateRegistry s
          ∧ if aiContentFor globalAppConfig rule
            then ∃ section, generatedSections = [section]
                            ∧ aiSection (heap s0) city service section
            else generatedSections = [])
    as (Hh0 & Hs0 & Hp0 & Ht0 & Hsections).
  { destruct (aiContentFor globalAppConfig rule) eqn:Hai.
    - apply generateAIContentSections_section in Hgen.
      unfold aiContentFor in Hai.
      apply andb_true_iff in Hai as [Hai Hinstr].
      apply andb_true_iff in Hai as [_ Henabled].
      rewrite Henabled in Hgen.
      destruct (RouteRule.aiInstructions rule) as [instructions|];
        [|done].
      simpl in Hinstr, Hgen. by rewrite Hinstr in Hgen.
    - by injection Hgen as <- <-. }
  assert (registeredAt s0 (slugOf city service) = false) as Hreg0.
  { rewrite <- Hreg. apply registeredAt_lookup. by rewrite Hp0. }
  destruct (generatePage_tail _ _ _ _ (slugOf_not_blank _ _) Hreg0 Hr)
    as (id & meta & lastModified & Hh & Hp & Hs & Ht).
  split.
  - split; [|split; [congruence|split; [congruence|]]].
    { etrans; [exact Hh0|]. rewrite Hh. by apply prefix_app_r. }
    intros slug. rewrite Hp, Hp0.
    destruct (decide (slug = slugOf city service)) as [->|Hne];
      [|left; by rewrite lookup_insert_ne].
    right. split; [done|]. rewrite lookup_insert_eq. eexists. split; [done|].
    exists city, service, (length (heap s0) + 4), generatedSections.
    split; [done|]. split; [done|]. split; [done|].
    split; [apply prefix_length in Hh0; lia|].
    rewrite Hh. simpl. rewrite lookup_app_plus. simpl.
    rewrite list_lookup_middle by done.
    split; [done|]. split; [done|].
    destruct (aiContentFor globalAppConfig rule); [|done].
    destruct Hsections as (section & -> & Hsection). exists section.
    split; [done|]. eapply aiSection_prefix; [|exact Hsection].
    by apply prefix_app_r.
  - unfold registeredAt, registryGet. by rewrite Hp, lookup_insert_eq.
Qed.

Lemma generateLocations_Ok rule from s s' :
  from ⊆ locations →
  forOf from (λ p, generatePage globalAppConfig rule p.1 p.2) s = Ok tt s' →
  generates globalAppConfig rule s s'
  ∧ ∀ p, p ∈ from → registeredAt s' (slugOf p.1 p.2) = true.
Proof.
  revert s. induction from as [|[city service] from IH]; intros s Hsub Hr.
  - injection Hr as <-. split; [apply generates_refl|].
    intros p Hp. by apply elem_of_nil in Hp.
  - simpl in Hr. apply bind_Ok in Hr as ([] & s1 & Hpage & Hr).
    apply IH in Hr as [Hgen Hall];
      [|intros p Hp; apply Hsub; by right].
    apply generatePage_Ok in Hpage; [|apply Hsub; by left].
    assert (generates globalAppConfig rule s s1
            ∧ registeredAt s1 (slugOf city service) = true) as [Hgen1 Hreg1].
    { destruct Hpage as [[Hreg ->]|(_ & Hgen1 & Hreg1)]; [|done].
      split; [apply generates_refl|done]. }
    split; [by eapply generates_trans|].
    intros p [->|Hp]%elem_of_cons; [|by apply Hall].
    by eapply generates_registered.
Qed.

Lemma generateLocations_present rule from s :
  (∀ p, p ∈ from → registeredAt s (slugOf p.1 p.2) = true) →
  forOf from (λ p, generatePage globalAppConfig rule p.1 p.2) s = Ok tt s.
Proof.
  induction from as [|[city service] from IH]; intros Hall; [done|].
  simpl. rewrite bind_unfold, generatePage_present.
  - apply IH. intros p Hp. apply Hall. by right.
  - apply (Hall (city, service)). by left.
Qed.

(** The loop over the route rules. *)
Local Abbreviation generateRules rules :=
  (forOf rules (λ rule,
     if isLocationsRule rule then
       forOf cities (λ city,
         forOf services (λ service,
           generatePage globalAppConfig rule city service))
     else mret tt)).

Lemma generateRules_present rules s :
  (∀ p, p ∈ locations → registeredAt s (slugOf p.1 p.2) = true) →
  generateRules rules s = Ok tt s.
Proof.
  intros Hall. induction rules as [|rule rules IH]; [done|].
  cbn [forOf]. rewrite bind_unfold.
  destruct (isLocationsRule rule); [|exact IH].
  rewrite forOf_nested. fold locations.
  by rewrite generateLocations_present.
Qed.

Lemma generateRules_Ok rules s s' :
  generateRules rules s = Ok tt s' →
  match find isLocationsRule rules with
  | Some rule =>
      generates globalAppConfig rule s s'
      ∧ ∀ p, p ∈ locations → registeredAt s' (slugOf p.1 p.2) = true
  | None => s' = s
  end.
Proof.
  induction rules as [|rule rules IH]; [by intros [= <-]|].
  cbn [forOf List.find]. rewrite bind_unfold.
  destruct (isLocationsRule rule); [|exact IH].
  rewrite forOf_nested. fold locations.
  destruct (forOf locations _ s) as [[] s1|] eqn:Hloc; [|done].
  apply generateLocations_Ok in Hloc as [Hgen Hall]; [|done].
  rewrite generateRules_present by done.
  by intros [= <-].
Qed.
End generation_page.
Section programmatic_seo.
Context `{Runtime} (globalAppConfig : AppConfig.t).

Local Abbreviation routeRules :=
  (details_routeRules (extractProgrammaticSEODetails globalAppConfig)).

Lemma applyProgrammaticSEO_disabled s :
  programmaticSEOEnabled globalAppConfig = false →
  applyProgrammaticSEO globalAppConfig s = Ok tt s.
Proof.
  unfold programmaticSEOEnabled, applyProgrammaticSEO. intros Hoff.
  apply andb_false_iff in Hoff as [-> | ->]; [done|].
  by rewrite orb_true_r.
Qed.

Lemma applyProgrammaticSEO_Ok s s' :
  applyProgrammaticSEO globalAppConfig s = Ok tt s' →
  match find isLocationsRule routeRules with
  | Some rule =>
      programmaticSEOEnabled globalAppConfig = false ∧ s' = s
      ∨ programmaticSEOEnabled globalAppConfig = true
        ∧ generates globalAppConfig rule s s'
        ∧ ∀ p, p ∈ locations → registeredAt s' (slugOf p.1 p.2) = true
  | None => s' = s
  end.
Proof.
  destruct (programmaticSEOEnabled globalAppConfig) eqn:Hon.
  - unfold programmaticSEOEnabled in Hon.
    apply andb_true_iff in Hon as [Hflag Hadvanced].
    unfold applyProgrammaticSEO. rewrite Hflag, Hadvanced. cbn [negb orb].
    intros Hr. apply generateRules_Ok in Hr.
    destruct (find _ _); [right|]; done.
  - rewrite applyProgrammaticSEO_disabled by done. intros [= <-].
    destruct (find _ _); [left|]; done.
Qed.




(** C1. Every page that a returning run of [applyProgrammaticSEO] adds to
    the page registry was generated under the first rule that generates
    from locations, for one of the city and service pairs, and its AI
    content is decided by that rule's own instructions: one AI section,
    whose text names the city and the service only, when AI content is
    switched on and the rule carries instructions; no section otherwise.
    The instruction string extracted from the first rule carrying
    instructions plays no part. *)
Theorem applyProgrammaticSEO_instructions s s1 slug :
  applyProgrammaticSEO globalAppConfig s = Ok tt s1 →
  _pageRegistry s1 !! slug ≠ _pageRegistry s !! slug →
  ∃ rule entry,
    find isLocationsRule routeRules = Some rule
    ∧ _pageRegistry s1 !! slug = Some entry
    ∧ generatedPage globalAppConfig rule (length (heap s)) (heap s1)
        slug entry.
Proof.
  intros Hrun Hnew.
  pose proof (applyProgrammaticSEO_Ok _ _ Hrun) as Hcases.
  destruct (find _ _) as [rule|]; [|by subst].
  destruct Hcases as [[_ ->]|(_ & (_ & _ & _ & Hp) & _)]; [done|].
  destruct (Hp slug) as [Heq|(_ & entry & Hentry & Hgen)]; [done|].
  by exists rule, entry.
Qed.
End programmatic_seo.


Lemma applyProgrammaticSEO_instructions_witness :
  ∃ rule entry,
    find isLocationsRule
      (details_routeRules (extractProgrammaticSEODetails validatedConfig))
    = Some rule
    ∧ _pageRegistry
        (finalState (applyProgrammaticSEO (H:=sampleRuntime) validatedConfig
                       registeredState))
      !! "/melbourne/end-of-lease" = Some entry
    ∧ generatedPage validatedConfig rule (length (heap registeredState))
        (heap (finalState (applyProgrammaticSEO (H:=sampleRuntime)
                             validatedConfig registeredState)))
        "/melbourne/end-of-lease" entry.
Proof.
  assert (applyProgrammaticSEO (H:=sampleRuntime) validatedConfig
            registeredState
          = Ok tt (finalState (applyProgrammaticSEO (H:=sampleRuntime)
                                 validatedConfig registeredState))) as Hrun
    by (vm_compute; reflexivity).
  apply (applyProgrammaticSEO_instructions (H:=sampleRuntime) validatedConfig
           registeredState _ "/melbourne/end-of-lease" Hrun).
  vm_compute. discriminate.
Defined.

(** With a first rule that carries instructions and generates nothing, and a
    second rule that generates the city pages and carries none, the extracted
    instruction string is that of the first rule, and AI content would be
    generated from it; yet the page generated for Melbourne has no section. *)
Lemma applyProgrammaticSEO_ignores_shared_instructions :
  details_aiInstructions (extractProgrammaticSEODetails twoRuleConfig)
  = Some "Describe each service in detail"
  ∧ ∃ s1 page,
      applyProgrammaticSEO (H:=sampleRuntime) twoRuleConfig registeredState
      = Ok tt s1
      ∧ _pageRegistry s1 !! "/melbourne/end-of-lease" = Some page
      ∧ _pageRegistry registeredState !! "/melbourne/end-of-lease" = None
      ∧ arrayElems (heap s1) (propOf (heap s1) page "sections") = Some []
      ∧ ∃ section s2,
          generateAIContentSections (H:=sampleRuntime) twoRuleConfig
            (HStr "Describe each service in detail")
            [("city", PStr "melbourne"); ("service", PStr "end-of-lease")]
            registeredState
          = Ok [section] s2.
Proof.
  split; [reflexivity|]. eexists _, _.
  split; [vm_compute; reflexivity|].
  split; [vm_compute; reflexivity|].
  split; [reflexivity|].
  split; [vm_compute; reflexivity|].
  eexists _, _. vm_compute. reflexivity.
Qed.

(** ** Further properties *)

Section further.
Context `{Runtime} (globalAppConfig : AppConfig.t).

(** X1. [applyProgrammaticSEO] has two kill switches: when the feature flag
    [enableProgrammaticSEO] or the advanced programmatic-SEO [enabled] flag
    is off (or the advanced configuration is absent), a run returns at once
    and nothing has changed, whatever the route rules and the state. *)
Theorem applyProgrammaticSEO_kill_switches s :
  FeatureFlags.enableProgrammaticSEO
    (AppConfig.featureFlags globalAppConfig) = false
  ∨ default false
      (ProgrammaticSEO.enabled <$> programmaticSEOOf globalAppConfig)
    = false →
  applyProgrammaticSEO globalAppConfig s = Ok tt s.
Proof.
  intros Hoff. apply applyProgrammaticSEO_disabled.
  unfold programmaticSEOEnabled. apply andb_false_iff. exact Hoff.
Qed.


(** X3. [templateUtils.get], and [templateUtils.instantiate] after it,
    throw a ValidationError with code TEMPLATE_NOT_FOUND for an id that
    the template registry has no entry for (and that is no member of
    [Object.prototype]); nothing has changed by then. *)
Theorem template_not_found id variables s :
  _templateRegistry s !! id = None → inherited id = false →
  template_get id s
  = Throw (ValidationError "Template not found" "TEMPLATE_NOT_FOUND") s
  ∧ template_instantiate globalAppConfig id variables s
    = Throw (ValidationError "Template not found" "TEMPLATE_NOT_FOUND") s.
Proof.
  intros Hid Hinherited.
  assert (template_get id s
          = Throw (ValidationError "Template not found"
                     "TEMPLATE_NOT_FOUND") s) as Hget.
  { unfold template_get, registryGet. unfold_monad.
    by rewrite Hid, Hinherited. }
  split; [done|].
  unfold template_instantiate. by rewrite bind_unfold, Hget.
Qed.
End further.

Lemma applyProgrammaticSEO_kill_switches_witness :
  applyProgrammaticSEO (H:=sampleRuntime) sharedConfig registeredState
  = Ok tt registeredState.
Proof.
  apply (applyProgrammaticSEO_kill_switches (H:=sampleRuntime) sharedConfig
           registeredState).
  left. reflexivity.
Defined.


Lemma template_not_found_witness :
  template_get "farewell" registeredState
  = Throw (ValidationError "Template not found" "TEMPLATE_NOT_FOUND")
      registeredState
  ∧ template_instantiate (H:=sampleRuntime) validatedConfig "farewell"
      [("city", PStr "Sydney")] registeredState
    = Throw (ValidationError "Template not found" "TEMPLATE_NOT_FOUND")
        registeredState.
Proof.
  apply (template_not_found (H:=sampleRuntime) validatedConfig "farewell"
           [("city", PStr "Sydney")] registeredState); reflexivity.
Defined.
(** ** Trees and the objects built for them *)

Lemma mapM_impl {A B : Type} (f g : A → option B) (l : list A) out :
  (∀ x y, f x = Some y → g x = Some y) →
  mapM f l = Some out → mapM g l = Some out.
Proof.
  intros Hfg. rewrite !mapM_Some. intros Hall.
  eapply Forall2_impl; [exact Hall|exact Hfg].
Qed.

Lemma reify_mono fuel fuel' h h' r v :
  reify fuel h r = Some v → fuel ≤ fuel' → h `prefix_of` h' →
  reify fuel' h' r = Some v.
Proof.
  intros Hr Hfuel Hh. revert fuel' r v Hr Hfuel.
  induction fuel as [|fuel IH]; intros fuel' r v Hr Hfuel.
  - destruct r as [p|l]; [|done]. injection Hr as <-. by destruct fuel'.
  - destruct fuel' as [|fuel']; [lia|].
    destruct r as [p|l]; [done|]. cbn [reify] in *.
    destruct (h !! l) as [o|] eqn:Hl; [|done].
    assert (h' !! l = Some o) as -> by (by eapply prefix_lookup_Some).
    destruct o as [props|elems].
    + destruct (mapM _ props) as [out|] eqn:Hout; [|done].
      injection Hr as <-.
      assert (mapM (λ kv, pair kv.1 <$> reify fuel' h' kv.2) props = Some out)
        as ->; [|done].
      eapply mapM_impl; [|exact Hout]. intros kv x Hx. simpl in Hx.
      destruct (reify fuel h kv.2) as [t|] eqn:Ht; [|done].
      rewrite (IH fuel' _ _ Ht) by lia. done.
    + destruct (mapM _ elems) as [out|] eqn:Hout; [|done].
      injection Hr as <-.
      assert (mapM (reify fuel' h') elems = Some out) as ->; [|done].
      eapply mapM_impl; [|exact Hout]. intros x t Hx.
      apply (IH fuel' _ _ Hx). lia.
Qed.

Lemma represents_prefix h h' r v :
  h `prefix_of` h' → represents h r v → represents h' r v.
Proof. intros Hh [fuel Hr]. exists fuel. by eapply reify_mono. Qed.

Lemma represents_prim h r p : represents h r (VPrim p) → r = HPrim p.
Proof.
  intros [fuel Hr]. destruct r as [q|l].
  - destruct fuel; simpl in Hr; congruence.
  - destruct fuel as [|fuel]; [done|]. cbn [reify] in Hr.
    destruct (h !! l) as [[props|elems]|]; [| |done].
    + by destruct (mapM _ props).
    + by destruct (mapM _ elems).
Qed.

Lemma represents_arr h r elems :
  represents h r (VArr elems) →
  ∃ l refs, r = HRef l ∧ h !! l = Some (HArray refs)
            ∧ Forall2 (represents h) refs elems.
Proof.
  intros [fuel Hr]. destruct r as [q|l].
  { destruct fuel; simpl in Hr; congruence. }
  destruct fuel as [|fuel]; [done|]. cbn [reify] in Hr.
  destruct (h !! l) as [[props|refs]|] eqn:Hl; [|  |done].
  { by destruct (mapM _ props). }
  destruct (mapM _ refs) as [out|] eqn:Hout; [|done].
  injection Hr as ->. exists l, refs. split; [done|]. split; [done|].
  apply mapM_Some in Hout.
  eapply Forall2_impl; [exact Hout|]. intros x t Hx. by exists fuel.
Qed.

Lemma represents_obj h r props :
  represents h r (VObj props) →
  ∃ l hprops, r = HRef l ∧ h !! l = Some (HObject hprops)
              ∧ Forall2 (λ hp p, hp.1 = p.1 ∧ represents h hp.2 p.2)
                  hprops props.
Proof.
  intros [fuel Hr]. destruct r as [q|l].
  { destruct fuel; simpl in Hr; congruence. }
  destruct fuel as [|fuel]; [done|]. cbn [reify] in Hr.
  destruct (h !! l) as [[hprops|refs]|] eqn:Hl; [| |done].
  2:{ by destruct (mapM _ refs). }
  destruct (mapM _ hprops) as [out|] eqn:Hout; [|done].
  injection Hr as ->. exists l, hprops. split; [done|]. split; [done|].
  apply mapM_Some in Hout.
  eapply Forall2_impl; [exact Hout|]. intros hp p Hp. simpl in Hp.
  destruct (reify fuel h hp.2) as [t|] eqn:Ht; [|done].
  injection Hp as <-. split; [done|]. by exists fuel.
Qed.

Lemma represents_assoc h hprops props k x :
  Forall2 (λ hp p, hp.1 = p.1 ∧ represents h hp.2 p.2) hprops props →
  assoc k props = Some x →
  ∃ r, assoc k hprops = Some r ∧ represents h r x.
Proof.
  induction 1 as [|[hk hr] [pk px] hprops props [Hk Hrep] _ IH]; [done|].
  simpl in *. subst hk. destruct (String.eqb k pk); [|done].
  intros [= <-]. eauto.
Qed.

Lemma represents_strings h refs ids :
  Forall2 (represents h) refs (VPrim ∘ PStr <$> ids) →
  refs = HPrim ∘ PStr <$> ids.
Proof.
  revert refs. induction ids as [|id ids IH]; intros refs Hall.
  - by apply Forall2_nil_inv_r in Hall as ->.
  - apply Forall2_cons_inv_r in Hall as (r & refs' & Hr & Hall & ->).
    apply represents_prim in Hr as ->. simpl. f_equal. by apply IH.
Qed.

Lemma represents_all h rs elems :
  Forall2 (represents h) rs elems →
  ∃ fuel, mapM (reify fuel h) rs = Some elems.
Proof.
  induction 1 as [|x t rs elems [f Hf] _ [f' IH]]; [by exists 0|].
  exists (f `max` f'). simpl.
  rewrite (reify_mono _ (f `max` f') _ _ _ _ Hf) by (done || lia). simpl.
  assert (mapM (reify (f `max` f') h) rs = Some elems) as ->; [|done].
  eapply mapM_impl; [|exact IH]. intros y u Hy.
  eapply reify_mono; [exact Hy|lia|done].
Qed.

Lemma represents_all_props h (rs : list (string * hval))
    (props : list (string * value)) :
  Forall2 (λ hp p, hp.1 = p.1 ∧ represents h hp.2 p.2) rs props →
  ∃ fuel, mapM (λ kv : string * hval, pair kv.1 <$> reify fuel h kv.2) rs
          = Some props.
Proof.
  induction 1 as [|[hk hr] [pk px] rs props [Hk [f Hf]] _ [f' IH]];
    [by exists 0|].
  simpl in Hk, Hf. subst hk. exists (f `max` f'). simpl.
  rewrite (reify_mono _ (f `max` f') _ _ _ _ Hf) by (done || lia). simpl.
  assert (mapM (λ kv : string * hval,
                  pair kv.1 <$> reify (f `max` f') h kv.2) rs
          = Some props) as ->; [|done].
  eapply mapM_impl; [|exact IH]. intros y u Hy. simpl in *.
  destruct (reify f' h y.2) as [t|] eqn:Ht; [|done].
  by rewrite (reify_mono _ (f `max` f') _ _ _ _ Ht) by (done || lia).
Qed.

(** The objects built for a tree denote the tree. *)
Lemma allocValue_represents v h h' r :
  allocValue v h = (h', r) → represents h' r v.
Proof.
  revert h h' r.
  induction v as [p|elems IH|props IH] using value_ind; intros h h' r; simpl.
  - intros [= <- <-]. by exists 0.
  - assert (∀ h h1 rs, allocElems allocValue elems h = (h1, rs) →
              h `prefix_of` h1 ∧ Forall2 (represents h1) rs elems) as Hgo.
    { clear h h' r. induction IH as [|x xs Hx _ IHxs]; intros h h1 rs; simpl.
      - intros [= <- <-]. done.
      - destruct (allocValue x h) as [h2 r2] eqn:Hx2.
        destruct (allocElems allocValue xs h2) as [h3 rs3] eqn:Hxs.
        intros [= <- <-].
        destruct (IHxs _ _ _ Hxs) as [Hp Hall].
        pose proof (allocValue_closed _ _ _ _ Hx2) as (new & -> & _).
        split; [etrans; [by apply prefix_app_r|exact Hp]|].
        constructor; [|done].
        eapply represents_prefix; [exact Hp|]. by eapply Hx. }
    destruct (allocElems allocValue elems h) as [h1 rs] eqn:Helems.
    intros [= <- <-]. destruct (Hgo _ _ _ Helems) as [_ Hall].
    assert (Forall2 (represents (h1 ++ [HArray rs])) rs elems) as Hall'.
    { eapply Forall2_impl; [exact Hall|]. intros x t.
      apply represents_prefix. by apply prefix_app_r. }
    clear Hall Hgo Helems IH.
    destruct (represents_all _ _ _ Hall') as [fuel Hfuel].
    exists (S fuel). cbn [reify]. rewrite list_lookup_middle by done.
    by rewrite Hfuel.
  - assert (∀ h h1 rs, allocProps allocValue props h = (h1, rs) →
              h `prefix_of` h1
              ∧ Forall2 (λ hp p, hp.1 = p.1 ∧ represents h1 hp.2 p.2) rs props)
      as Hgo.
    { clear h h' r. induction IH as [|[k x] xs Hx _ IHxs]; intros h h1 rs; simpl.
      - intros [= <- <-]. done.
      - destruct (allocValue x h) as [h2 r2] eqn:Hx2.
        destruct (allocProps allocValue xs h2) as [h3 rs3] eqn:Hxs.
        intros [= <- <-].
        destruct (IHxs _ _ _ Hxs) as [Hp Hall].
        pose proof (allocValue_closed _ _ _ _ Hx2) as (new & -> & _).
        split; [etrans; [by apply prefix_app_r|exact Hp]|].
        constructor; [|done]. split; [done|].
        eapply represents_prefix; [exact Hp|]. by eapply Hx. }
    destruct (allocProps allocValue props h) as [h1 rs] eqn:Hprops.
    intros [= <- <-]. destruct (Hgo _ _ _ Hprops) as [_ Hall].
    assert (Forall2 (λ hp p, hp.1 = p.1
                             ∧ represents (h1 ++ [HObject rs]) hp.2 p.2)
              rs props) as Hall'.
    { eapply Forall2_impl; [exact Hall|]. intros x t [? ?]. split; [done|].
      eapply represents_prefix; [|done]. by apply prefix_app_r. }
    clear Hall Hgo Hprops IH.
    destruct (represents_all_props _ _ _ Hall') as [fuel Hfuel].
    exists (S fuel). cbn [reify]. rewrite list_lookup_middle by done.
    by rewrite Hfuel.
Qed.

(** ** What [validatePage] can throw *)

Section validate_page_outcome.
Context `{Runtime} (globalAppConfig : AppConfig.t).

Lemma safeParse_strings v out :
  safeParse (ZArray (ZString [])) v = Some out →
  ∃ ids, out = VArr (VPrim ∘ PStr <$> ids).
Proof.
  rewrite safeParse_array. destruct v as [|xs|]; [done| |done].
  destruct (mapM _ xs) as [out'|] eqn:Hxs; [|done]. intros [= <-].
  apply mapM_Some in Hxs.
  induction Hxs as [|x x' xs out' Hx _ [ids IH]]; [by exists []|].
  destruct x as [[| | | |id|]| |]; try done. simpl in Hx.
  injection Hx as <-. injection IH as ->. by exists (id :: ids).
Qed.

Lemma safeParse_default inner d v :
  safeParse (ZDefault inner d) v
  = match v with VUndefined => safeParse inner d | _ => safeParse inner v end.
Proof. done. Qed.

(** In a page accepted by the page schema, [sections] is an array and
    [sharedSectionRefs] an array of strings. *)
Lemma pageSchema_arrays page validatedPage :
  safeParse pageSchema page = Some validatedPage →
  (∃ sections, get validatedPage "sections" = VArr sections)
  ∧ (∃ ids, get validatedPage "sharedSectionRefs"
            = VArr (VPrim ∘ PStr <$> ids)).
Proof.
  intros Hp. unfold pageSchema, z.strict, z.object in Hp. split.
  - eapply (safeParse_object_get _ _ _ _ "sections" (z.array sectionSchema))
      in Hp; [|by vm_compute|reflexivity].
    unfold z.array in Hp. rewrite safeParse_array in Hp.
    destruct (get page "sections") as [|xs|]; [done| |done].
    destruct (mapM _ xs) as [xs'|]; [|done]. injection Hp as <-. eauto.
  - eapply (safeParse_object_get _ _ _ _ "sharedSectionRefs"
              (ZDefault (ZArray (ZString [])) (VArr [])))
      in Hp; [|by vm_compute|reflexivity].
    rewrite safeParse_default in Hp.
    destruct (get page "sharedSectionRefs") as [[]| |];
      by eapply safeParse_strings.
Qed.

Lemma get_assoc props k x :
  get (VObj props) k = x → x ≠ VUndefined → assoc k props = Some x.
Proof.
  simpl. unfold getProp. destruct (assoc k props); simpl; congruence.
Qed.

Lemma validatePage_cases page resolveShared s :
  match safeParse pageSchema page with
  | Some _ =>
      ∃ validated s',
        validatePage globalAppConfig page resolveShared s = Ok validated s'
        ∧ truthyH validated = true ∧ extends s s'
  | None =>
      validatePage globalAppConfig page resolveShared s
      = Throw (ValidationError "Validation failed" "INVALID_PAGE_STRUCTURE")
          s
  end.
Proof.
  unfold validatePage. rewrite bind_unfold.
  destruct (safeParse pageSchema page) as [vp|] eqn:Hparse.
  2:{ by rewrite validateSafely_None. }
  rewrite (validateSafely_Some _ _ _ _ _ Hparse). rewrite bind_unfold.
  unfold allocTree at 1.
  destruct (allocValue vp (heap s)) as [h1 r] eqn:Halloc.
  rewrite bind_unfold, validateSections_ok.
  2:{ eapply Forall_impl; [by eapply pageSchema_sections|].
      intros x ->. eauto. }
  pose proof (allocValue_closed _ _ _ _ Halloc) as (new & -> & _).
  pose proof (allocValue_represents _ _ _ _ Halloc) as Hrep.
  assert (extends s (setHeap (heap s ++ new) s)) as Hext.
  { repeat split. by apply prefix_app_r. }
  pose proof Hparse as Hobj. unfold pageSchema, z.strict, z.object in Hobj.
  apply safeParse_object_is_object in Hobj as [props ->].
  apply represents_obj in Hrep as (l & hprops & -> & Hl & Hprops).
  destruct resolveShared; [|by eauto 6].
  rewrite bind_unfold.
  destruct (bool_decide
              (FeatureFlags.enableSharedSections
                 (AppConfig.featureFlags globalAppConfig) = true
               ∧ sharedSectionPool globalAppConfig ≠ [])) eqn:Hon.
  2:{ apply bool_decide_eq_false in Hon.
      rewrite resolveSharedSections_noop; [by eauto 6|done|].
      destruct (FeatureFlags.enableSharedSections _); [|by left].
      right. destruct (sharedSectionPool globalAppConfig); [done|].
      destruct Hon. done. }
  apply bool_decide_eq_true in Hon as [Hflag Hpool].
  destruct (pageSchema_arrays _ _ Hparse) as [[sections Hsecs] [ids Hids]].
  apply get_assoc in Hsecs; [|done]. apply get_assoc in Hids; [|done].
  destruct (represents_assoc _ _ _ _ _ Hprops Hsecs) as (rs & Hrs & Hreps).
  destruct (represents_assoc _ _ _ _ _ Hprops Hids) as (ri & Hri & Hrepi).
  apply represents_arr in Hreps as (ls & secRefs & -> & Hls & _).
  apply represents_arr in Hrepi as (li & idRefs & -> & Hli & Hidrefs).
  apply represents_strings in Hidrefs as ->.
  rewrite resolveSharedSections_unfold by done.
  cbn [heap setHeap]. unfold propOf. rewrite Hl, Hri, Hrs.
  cbn [default from_option id].
  unfold arrayElems. rewrite Hli.
  unfold spreadOrEmpty, nullish, spread, arrayElems. rewrite Hls.
  destruct (resolveRefs_strings (sharedSectionPool globalAppConfig) ids
              secRefs ∅ (setHeap (heap s ++ new) s))
    as (s1 & -> & Hs1).
  eexists _, _. split; [done|]. split; [done|].
  eapply extends_trans; [exact Hext|].
  eapply extends_trans; [by apply sameButConsole_extends|].
  repeat split. cbn [heap setHeap]. by apply prefix_app_r.
Qed.

(** X4. Once the page schema has accepted the page, nothing in [validatePage]
    throws: the sections were validated with the page, and the ref list
    that [resolveSharedSections] walks is an array of strings. The only
    exception [validatePage] raises is the ValidationError with code
    INVALID_PAGE_STRUCTURE, raised before anything is created; when it
    returns, it returns an object and has only added objects. *)
Theorem validatePage_only_structure_error page resolveShared s :
  match validatePage globalAppConfig page resolveShared s with
  | Ok validated s' =>
      is_Some (safeParse pageSchema page)
      ∧ truthyH validated = true
      ∧ extends s s'
  | Throw e s' =>
      safeParse pageSchema page = None
      ∧ e = ValidationError "Validation failed" "INVALID_PAGE_STRUCTURE"
      ∧ s' = s
  end.
Proof.
  pose proof (validatePage_cases page resolveShared s) as Hcases.
  destruct (safeParse pageSchema page) as [vp|].
  - destruct Hcases as (validated & s' & -> & Htruthy & Hext). eauto.
  - by rewrite Hcases.
Qed.

(** X5. The middleware never throws, and what it does is decided by the
    request body: without a truthy [page] it answers 400 with code
    PAGE_REQUIRED; with a page that the page schema rejects it answers 400
    with code INVALID_PAGE_STRUCTURE; in both cases nothing has changed and
    [next] is not called. Otherwise it stores the validated page, resolved,
    in the request and calls [next] once; it answers only if [next] throws,
    as the [catch] block says (500 unless [next] threw a
    ValidationError). *)
Theorem validatePageMiddleware_outcome body next s :
  ∃ outcome s',
    validatePageMiddleware globalAppConfig body next s = Ok outcome s'
    ∧ if negb (truthy (get body "page")) then
        outcome = {| req_validatedPage := None; nextCalled := false;
                     sent := Some {| status := 400;
                                     body_error := "Page data is required";
                                     body_code := "PAGE_REQUIRED" |} |}
        ∧ s' = s
      else
        match safeParse pageSchema (get body "page") with
        | None =>
            outcome = {| req_validatedPage := None; nextCalled := false;
                         sent := Some {| status := 400;
                                         body_error := "Validation failed";
                                         body_code :=
                                           "INVALID_PAGE_STRUCTURE" |} |}
            ∧ s' = s
        | Some _ =>
            ∃ validated s1,
              validatePage globalAppConfig (get body "page") true s
              = Ok validated s1
              ∧ req_validatedPage outcome = Some validated
              ∧ nextCalled outcome = true
              ∧ s' = finalState (next s1)
              ∧ sent outcome
                = match next s1 with
                  | Ok _ _ => None
                  | Throw error _ => Some (respond error)
                  end
        end.
Proof.
  unfold validatePageMiddleware, tryCatch. rewrite !bind_unfold.
  destruct (truthy (get body "page")) eqn:Hpage; cbn [negb].
  2:{ unfold throw. eexists _, _. split; [done|]. done. }
  unfold mret at 1, M_ret at 1.
  pose proof (validatePage_cases (get body "page") true s) as Hcases.
  destruct (safeParse pageSchema (get body "page")) as [vp|].
  - destruct Hcases as (validated & s1 & Hv & _ & _).
    rewrite bind_unfold, Hv, bind_unfold.
    destruct (next s1) as [[] s2|e s2] eqn:Hnext.
    + eexists _, _. split; [done|]. exists validated, s1.
      rewrite Hnext. done.
    + eexists _, _. split; [done|]. exists validated, s1.
      rewrite Hnext. done.
  - rewrite bind_unfold, Hcases. eexists _, _. split; [done|]. done.
Qed.
End validate_page_outcome.

(** ** The registries: write then read *)

Section registry_lookups.
Context `{Runtime}.

(** X6. Registering under a key that holds nothing (and names no member of
    [Object.prototype]) succeeds, changes that key only, and the entry is
    what the lookups then return: for section types through [get] and
    [has], for pages through [getPageBySlug], for templates through
    [templateUtils.get]. *)
Theorem registries_round_trip :
  (∀ s type item,
     _sectionRegistry s !! type = None → inherited type = false →
     ∃ s', sectionRegistry_register type item s = Ok tt s'
           ∧ sectionRegistry_get type s' = Ok (OwnItem item) s'
           ∧ sectionRegistry_has type s' = Ok true s'
           ∧ (∀ other, other ≠ type →
                _sectionRegistry s' !! other = _sectionRegistry s !! other)
           ∧ heap s' = heap s ∧ _pageRegistry s' = _pageRegistry s
           ∧ _templateRegistry s' = _templateRegistry s)
  ∧ (∀ s page slug,
       truthyH page = true →
       propOf (heap s) page "slug" = HStr slug →
       _pageRegistry s !! slug = None → inherited slug = false →
       ∃ s', registerPage page s = Ok tt s'
             ∧ getPageBySlug slug s' = Ok page s'
             ∧ (∀ other, other ≠ slug →
                  getPageBySlug other s' = Ok (registryGet (_pageRegistry s) other) s')
             ∧ heap s' = heap s
             ∧ _sectionRegistry s' = _sectionRegistry s
             ∧ _templateRegistry s' = _templateRegistry s)
  ∧ (∀ s template id,
       truthyH template = true →
       propOf (heap s) template "id" = HStr id →
       _templateRegistry s !! id = None → inherited id = false →
       ∃ s', template_register template s = Ok tt s'
             ∧ template_get id s' = Ok template s'
             ∧ (∀ other, other ≠ id →
                  _templateRegistry s' !! other
                  = _templateRegistry s !! other)
             ∧ heap s' = heap s
             ∧ _sectionRegistry s' = _sectionRegistry s
             ∧ _pageRegistry s' = _pageRegistry s).
Proof.
  split; [|split].
  - intros s type item Hnone Hinh.
    unfold sectionRegistry_register, sectionRegistry_get,
      sectionRegistry_has, registryHas. unfold_monad.
    rewrite Hnone, Hinh.
    rewrite bool_decide_eq_false_2 by (by intros [? ?]). simpl.
    eexists. split; [done|]. simpl. rewrite lookup_insert_eq.
    rewrite bool_decide_eq_true_2 by eauto.
    repeat split; try done. intros other Hne. by rewrite lookup_insert_ne.
  - intros s page slug Hpage Hslug Hnone Hinh.
    unfold registerPage, getPageBySlug. unfold_monad.
    rewrite readProp_truthy, Hslug by done. simpl.
    unfold registryGet at 1. rewrite Hnone, Hinh. simpl.
    eexists. split; [done|]. simpl. unfold registryGet.
    rewrite lookup_insert_eq.
    repeat split; try done. intros other Hne. by rewrite lookup_insert_ne.
  - intros s template id Htemplate Hid Hnone Hinh.
    unfold template_register, template_get. unfold_monad.
    rewrite readProp_truthy, Hid by done. simpl.
    unfold registryGet at 1. rewrite Hnone, Hinh. simpl.
    eexists. split; [done|]. simpl. unfold registryGet.
    rewrite lookup_insert_eq. rewrite Htemplate. simpl.
    repeat split; try done. intros other Hne. by rewrite lookup_insert_ne.
Qed.

(** X7. A key with no entry: [sectionRegistryUtils.get] throws an Error that
    names the type, [has] answers false, [createSection] refuses the type,
    and [getPageBySlug] returns [undefined]; nothing changes. *)
Theorem registries_missing_key s key fields :
  _sectionRegistry s !! key = None → _pageRegistry s !! key = None →
  inherited key = false →
  sectionRegistry_get key s
  = Throw (Error ("Section type " +:+ key +:+ " not found")) s
  ∧ sectionRegistry_has key s = Ok false s
  ∧ createSection key fields s
    = Throw (Error ("Cannot create section: type " +:+ key
                    +:+ " not found in registry")) s
  ∧ getPageBySlug key s = Ok HUndefined s.
Proof.
  intros Hsection Hpage Hinh.
  unfold sectionRegistry_get, sectionRegistry_has, createSection,
    sectionRegistry_has, getPageBySlug, registryHas, registryGet.
  unfold_monad. rewrite Hsection, Hpage, Hinh.
  rewrite bool_decide_eq_false_2 by (by intros [? ?]). done.
Qed.

(** X8. The registries are plain objects, so a key that names a member of
    [Object.prototype] looks taken although nothing was registered under
    it: registering under it throws the already-registered error of that
    registry, [has] answers true, [get] does not throw, and
    [getPageBySlug] and [templateUtils.get] return the inherited member
    instead of reporting a missing entry. *)
Theorem registries_prototype_keys s key item page template :
  key ∈ objectPrototypeKeys →
  _pageRegistry s !! key = None → _templateRegistry s !! key = None →
  truthyH page = true → propOf (heap s) page "slug" = HStr key →
  truthyH template = true → propOf (heap s) template "id" = HStr key →
  sectionRegistry_register key item s
  = Throw (Error ("Section type " +:+ key +:+ " already registered")) s
  ∧ sectionRegistry_has key s = Ok true s
  ∧ (∃ entry, sectionRegistry_get key s = Ok entry s)
  ∧ registerPage page s
    = Throw (Error ("Page slug " +:+ key +:+ " already registered")) s
  ∧ getPageBySlug key s = Ok (HPrim POther) s
  ∧ template_register template s
    = Throw (ValidationError "Template already exists" "TEMPLATE_EXISTS") s
  ∧ template_get key s = Ok (HPrim POther) s.
Proof.
  intros Hkey Hnopage Hnotemplate Hpage Hslug Htemplate Hid.
  assert (inherited key = true) as Hinh.
  { unfold inherited. by apply bool_decide_eq_true_2. }
  unfold sectionRegistry_register, sectionRegistry_has, sectionRegistry_get,
    registerPage, getPageBySlug, template_register, template_get,
    registryHas, registryGet.
  unfold_monad.
  rewrite !readProp_truthy, Hslug, Hid by done. simpl.
  rewrite Hnopage, Hnotemplate, Hinh, orb_true_r. simpl.
  repeat split; try done.
  destruct (_sectionRegistry s !! key); eauto.
Qed.
End registry_lookups.

Lemma registries_round_trip_witness :
  (∃ s', sectionRegistry_register "hero" sampleItem registeredState = Ok tt s'
         ∧ sectionRegistry_get "hero" s' = Ok (OwnItem sampleItem) s')
  ∧ (∃ s', registerPage (H:=sampleRuntime) (HRef 1)
             (setPageRegistry ∅ registeredState) = Ok tt s'
           ∧ getPageBySlug "/sydney/house-cleaning" s' = Ok (HRef 1) s')
  ∧ (∃ s', template_register (H:=sampleRuntime) (HRef 6)
             (setTemplateRegistry ∅ registeredState) = Ok tt s'
           ∧ template_get "greeting" s' = Ok (HRef 6) s').
Proof.
  pose proof (registries_round_trip (H:=sampleRuntime)) as (Hs & Hp & Ht).
  split; [|split].
  - destruct (Hs registeredState "hero" sampleItem) as (s' & ? & ? & _);
      [reflexivity..|]. eauto.
  - destruct (Hp (setPageRegistry ∅ registeredState) (HRef 1)
                "/sydney/house-cleaning") as (s' & ? & ? & _);
      [reflexivity..|]. eauto.
  - destruct (Ht (setTemplateRegistry ∅ registeredState) (HRef 6) "greeting")
      as (s' & ? & ? & _); [reflexivity..|]. eauto.
Defined.

Lemma registries_missing_key_witness :
  sectionRegistry_get "faq" registeredState
  = Throw (Error "Section type faq not found") registeredState
  ∧ sectionRegistry_has "faq" registeredState = Ok false registeredState
  ∧ createSection (H:=sampleRuntime) "faq" (HRef 3) registeredState
    = Throw (Error "Cannot create section: type faq not found in registry")
        registeredState
  ∧ getPageBySlug "faq" registeredState = Ok HUndefined registeredState.
Proof.
  apply (registries_missing_key (H:=sampleRuntime) registeredState "faq"
           (HRef 3)); reflexivity.
Defined.

Lemma registries_prototype_keys_witness :
  sectionRegistry_register "constructor" sampleItem prototypeKeyState
  = Throw (Error "Section type constructor already registered")
      prototypeKeyState
  ∧ registerPage (H:=sampleRuntime) (HRef 10) prototypeKeyState
    = Throw (Error "Page slug constructor already registered")
        prototypeKeyState
  ∧ template_get "constructor" prototypeKeyState
    = Ok (HPrim POther) prototypeKeyState.
Proof.
  destruct (registries_prototype_keys (H:=sampleRuntime) prototypeKeyState
              "constructor" sampleItem (HRef 10) (HRef 10))
    as (Hregister & _ & _ & Hpage & _ & _ & Hget);
    [by left|reflexivity..|].
  done.
Defined.

(** ** Toasts *)

Lemma assoc_setProp {A : Type} k k' (v : A) props :
  assoc k' (setProp k v props)
  = if String.eqb k' k then Some v else assoc k' props.
Proof.
  induction props as [|[k0 v0] props IH]; simpl.
  - by destruct (String.eqb k' k).
  - destruct (String.eqb k k0) eqn:Hk; simpl.
    + apply String.eqb_eq in Hk as <-. by destruct (String.eqb k' k).
    + rewrite IH. destruct (String.eqb k' k0) eqn:Hk0; [|done].
      apply String.eqb_eq in Hk0 as ->.
      rewrite String.eqb_sym, Hk. done.
Qed.

Lemma setProp_idempotent {A : Type} k (v : A) props :
  setProp k v (setProp k v props) = setProp k v props.
Proof.
  induction props as [|[k0 v0] props IH]; simpl.
  - by rewrite String.eqb_refl.
  - destruct (String.eqb k k0) eqn:Hk; simpl.
    + by rewrite String.eqb_refl.
    + by rewrite Hk, IH.
Qed.

Module ToastTheorems.
Import Toast ToastFacts.

Lemma addToRemoveQueue_elem toastId st :
  toastId ∈ toastTimeouts (addToRemoveQueue toastId st).
Proof.
  unfold addToRemoveQueue. case_bool_decide; [done|]. simpl.
  apply elem_of_app. right. by left.
Qed.

Lemma addToRemoveQueue_present toastId st :
  toastId ∈ toastTimeouts st → addToRemoveQueue toastId st = st.
Proof. intros Hin. unfold addToRemoveQueue. by rewrite bool_decide_eq_true_2. Qed.

Lemma addToRemoveQueue_mono toastId i st :
  i ∈ toastTimeouts st → i ∈ toastTimeouts (addToRemoveQueue toastId st).
Proof.
  intros Hin. unfold addToRemoveQueue. case_bool_decide; [done|]. simpl.
  apply elem_of_app. by left.
Qed.

Lemma addToRemoveQueue_NoDup toastId st :
  NoDup (toastTimeouts st) → NoDup (toastTimeouts (addToRemoveQueue toastId st)).
Proof.
  intros Hnd. unfold addToRemoveQueue. case_bool_decide; [done|]. simpl.
  apply NoDup_app. split; [done|]. split; [|apply NoDup_singleton].
  intros x Hx ->%list_elem_of_singleton. done.
Qed.

Lemma addToRemoveQueue_frame toastId st :
  count (addToRemoveQueue toastId st) = count st
  ∧ memoryState (addToRemoveQueue toastId st) = memoryState st
  ∧ listeners (addToRemoveQueue toastId st) = listeners st
  ∧ calls (addToRemoveQueue toastId st) = calls st.
Proof. unfold addToRemoveQueue. by case_bool_decide. Qed.

Lemma timeouts_addToRemoveQueue i st :
  toastTimeouts (addToRemoveQueue i st)
  = if bool_decide (i ∈ toastTimeouts st) then toastTimeouts st
    else toastTimeouts st ++ [i].
Proof. unfold addToRemoveQueue. by case_bool_decide. Qed.

Lemma queueAll_timeouts (state : list ToasterToast) st st' :
  toastTimeouts st = toastTimeouts st' →
  toastTimeouts (foldl (λ acc t, addToRemoveQueue (id t) acc) st state)
  = toastTimeouts (foldl (λ acc t, addToRemoveQueue (id t) acc) st' state).
Proof.
  revert st st'. induction state as [|t state IH]; intros st st' Heq; [done|].
  simpl. apply IH. by rewrite !timeouts_addToRemoveQueue, Heq.
Qed.

(** Queueing the ids of a list of toasts. *)
Lemma queueAll_spec (state : list ToasterToast) st :
  let st' := foldl (λ acc t, addToRemoveQueue (id t) acc) st state in
  (NoDup (toastTimeouts st) → NoDup (toastTimeouts st'))
  ∧ (∀ i, i ∈ toastTimeouts st → i ∈ toastTimeouts st')
  ∧ (∀ t, t ∈ state → id t ∈ toastTimeouts st')
  ∧ count st' = count st ∧ memoryState st' = memoryState st
  ∧ listeners st' = listeners st ∧ calls st' = calls st.
Proof.
  revert st. induction state as [|t state IH]; intros st; simpl.
  { repeat split; try done. intros t Ht. by apply elem_of_nil in Ht. }
  destruct (IH (addToRemoveQueue (id t) st))
    as (Hnd & Hmono & Hall & Hc & Hm & Hl & Hcalls).
  destruct (addToRemoveQueue_frame (id t) st) as (Hc' & Hm' & Hl' & Hcalls').
  split; [|split; [|split]].
  - intros ?. by apply Hnd, addToRemoveQueue_NoDup.
  - intros i Hi. by apply Hmono, addToRemoveQueue_mono.
  - intros t' [->|Ht']%elem_of_cons; [|by apply Hall].
    apply Hmono, addToRemoveQueue_elem.
  - repeat split; congruence.
Qed.

Lemma queueAll_present (state : list ToasterToast) st :
  (∀ t, t ∈ state → id t ∈ toastTimeouts st) →
  foldl (λ acc t, addToRemoveQueue (id t) acc) st state = st.
Proof.
  revert st. induction state as [|t state IH]; intros st Hall; [done|].
  simpl. rewrite addToRemoveQueue_present by (apply Hall; by left).
  apply IH. intros t' Ht'. apply Hall. by right.
Qed.

(** The timers and the toasts after a dismissal: the reducer's part. *)
Lemma dismiss_reducer state toastId st :
  let '(state', st') := toastReducer state (DISMISS_TOAST toastId) st in
  id <$> state' = id <$> state
  ∧ (NoDup (toastTimeouts st) → NoDup (toastTimeouts st'))
  ∧ (∀ i, i ∈ toastTimeouts st → i ∈ toastTimeouts st')
  ∧ count st' = count st ∧ memoryState st' = memoryState st
  ∧ listeners st' = listeners st ∧ calls st' = calls st.
Proof.
  simpl. split.
  { rewrite <-list_fmap_compose. apply list_fmap_ext.
    intros ? t _. simpl. by destruct (_ || _). }
  destruct toastId as [i|].
  - destruct (negb (String.eqb i "")).
    + destruct (addToRemoveQueue_frame i st) as (? & ? & ? & ?).
      repeat split; try done.
      * by apply addToRemoveQueue_NoDup.
      * intros. by apply addToRemoveQueue_mono.
    + destruct (queueAll_spec state st) as (? & ? & _ & ? & ? & ? & ?).
      done.
  - destruct (queueAll_spec state st) as (? & ? & _ & ? & ? & ? & ?).
    done.
Qed.

(** X9. The store stays consistent: whatever is dispatched, and whenever a
    toast is created or a removal timer fires, there are at most
    [TOAST_LIMIT] toasts, at most one pending timer per id, and the counter
    stays in range. *)
Theorem toast_store_consistent st :
  consistent st →
  (∀ action, consistent (dispatch action st))
  ∧ (∀ newProps, consistent (toast newProps st).2)
  ∧ (∀ toastId, consistent (onTimeout toastId st)).
Proof.
  intros (Hlen & Hnd & Hcount).
  assert (∀ st, length (memoryState st) ≤ TOAST_LIMIT →
            NoDup (toastTimeouts st) →
            (0 ≤ count st < MAX_SAFE_INTEGER)%Z →
            ∀ action, consistent (dispatch action st)) as Hdispatch.
  { clear. intros st Hlen Hnd Hcount action. unfold dispatch.
    destruct action as [t|patch|toastId|toastId].
    - simpl. rewrite take_0. repeat split; simpl; try done; lia.
    - simpl. repeat split; try done; simpl; try lia.
      by rewrite length_fmap.
    - pose proof (dismiss_reducer (memoryState st) toastId st) as Hd.
      destruct (toastReducer (memoryState st) (DISMISS_TOAST toastId) st)
        as [state' st'].
      destruct Hd as (Hids & Hnd' & _ & Hc & _).
      repeat split; simpl; [|by apply Hnd'|lia..].
      apply (f_equal length) in Hids. rewrite !length_fmap in Hids. lia.
    - simpl. destruct toastId as [i|]; simpl.
      + repeat split; try done; simpl; try lia.
        etrans; [apply length_filter|done].
      + repeat split; try done; simpl; lia. }
  split; [by apply Hdispatch|]. split.
  - intros newProps. unfold toast, genId. simpl.
    apply Hdispatch; simpl; [done..|].
    unfold MAX_SAFE_INTEGER in *. apply Z.mod_pos_bound. lia.
  - intros toastId. unfold onTimeout. apply Hdispatch; simpl; [done| |done].
    by apply NoDup_filter.
Qed.

Lemma close_close t : close (close t) = close t.
Proof. unfold close. simpl. by rewrite setProp_idempotent. Qed.

(** X10. A toast from creation to removal: [toast] shows the new toast, open,
    and nothing else; [dismiss] closes it, keeps it in the list and sets
    its removal timer; when the timer fires the toast is gone and no timer
    is left for it. *)
Theorem toast_lifecycle newProps st :
  let i := (toast newProps st).1 in
  let st1 := (toast newProps st).2 in
  let st2 := dismiss i st1 in
  let st3 := onTimeout i st2 in
  i = pretty ((count st + 1) mod MAX_SAFE_INTEGER)%Z
  ∧ (∃ t, memoryState st1 = [t] ∧ id t = i ∧ isOpen t = VBool true)
  ∧ (∃ t, memoryState st2 = [t] ∧ id t = i ∧ isOpen t = VBool false)
  ∧ i ∈ toastTimeouts st2
  ∧ memoryState st3 = []
  ∧ i ∉ toastTimeouts st3.
Proof.
  cbv zeta. unfold toast, genId. cbn [fst snd].
  set (i := pretty ((count st + 1) mod MAX_SAFE_INTEGER)%Z).
  split; [done|]. split.
  { eexists. unfold dispatch. simpl. rewrite take_0. split; [done|].
    split; [done|]. unfold isOpen, getProp. simpl.
    by rewrite !assoc_setProp. }
  unfold dismiss, onTimeout, dispatch. simpl. rewrite take_0. simpl.
  rewrite String.eqb_refl. simpl.
  split.
  { eexists. split; [done|]. split; [done|].
    unfold isOpen, getProp. simpl. by rewrite assoc_setProp. }
  split.
  { destruct (negb (String.eqb i "")); simpl; apply addToRemoveQueue_elem. }
  split.
  { rewrite filter_cons.
    destruct (decide _) as [Hne|_]; [by destruct Hne|done]. }
  destruct (negb (String.eqb i "")); simpl;
    rewrite list_elem_of_filter; by intros [? _].
Qed.

(** X11. Dismissing twice is dismissing once: the second dispatch of the same
    dismissal changes neither the toasts nor the pending timers. *)
Theorem dismiss_idempotent toastId st :
  let st1 := dispatch (DISMISS_TOAST toastId) st in
  let st2 := dispatch (DISMISS_TOAST toastId) st1 in
  memoryState st2 = memoryState st1
  ∧ toastTimeouts st2 = toastTimeouts st1.
Proof.
  cbv zeta. unfold dispatch. simpl.
  set (closeIf := λ t, if idIs toastId t || bool_decide (toastId = None)
                       then close t else t).
  assert (∀ t, closeIf (closeIf t) = closeIf t) as Hidem.
  { intros t. unfold closeIf.
    destruct (idIs toastId t || bool_decide (toastId = None)) eqn:E;
      [|by rewrite E].
    replace (idIs toastId (close t)) with (idIs toastId t)
      by (by destruct toastId).
    by rewrite E, close_close. }
  split.
  { rewrite <-list_fmap_compose. apply list_fmap_ext. intros ? t _.
    apply Hidem. }
  assert (∀ st0, foldl (λ acc t, addToRemoveQueue (id t) acc)
                   (foldl (λ acc t, addToRemoveQueue (id t) acc) st0
                      (memoryState st))
                   (closeIf <$> memoryState st)
                 = foldl (λ acc t, addToRemoveQueue (id t) acc) st0
                     (memoryState st)) as Hall.
  { intros st0. apply queueAll_present. intros t Ht.
    apply list_elem_of_fmap in Ht as (t0 & -> & Ht0).
    destruct (queueAll_spec (memoryState st) st0) as (_ & _ & Hin & _).
    replace (id (closeIf t0)) with (id t0); [by apply Hin|].
    unfold closeIf. by destruct (_ || _). }
  destruct toastId as [i|]; simpl.
  - destruct (negb (String.eqb i "")); simpl.
    + rewrite timeouts_addToRemoveQueue. simpl.
      by rewrite bool_decide_eq_true_2 by apply addToRemoveQueue_elem.
    + erewrite queueAll_timeouts; [by rewrite Hall|done].
  - erewrite queueAll_timeouts; [by rewrite Hall|done].
Qed.

Lemma assoc_absent {A : Type} k (l : list (string * A)) :
  k ∉ l.*1 → assoc k l = None.
Proof.
  induction l as [|[k0 v0] l IH]; [done|]. simpl.
  intros Hk. apply not_elem_of_cons in Hk as [Hne Hk].
  destruct (String.eqb k k0) eqn:E; [|by apply IH].
  by apply String.eqb_eq in E.
Qed.

(** [{...a, ...b}] read key by key: the value of [b] where [b] has the
    key, that of [a] elsewhere. *)
Lemma assoc_mergeProps {A : Type} k (a b : list (string * A)) :
  NoDup b.*1 →
  assoc k (mergeProps a b)
  = match assoc k b with Some v => Some v | None => assoc k a end.
Proof.
  unfold mergeProps. revert a.
  induction b as [|[k0 v0] b IH]; intros a Hnd; [done|].
  apply NoDup_cons in Hnd as [Hk0 Hnd]. simpl.
  rewrite IH by done. rewrite assoc_setProp.
  destruct (String.eqb k k0) eqn:E; [|done].
  apply String.eqb_eq in E as ->. by rewrite assoc_absent.
Qed.

(** X12. An update touches the toasts that have the id of the patch and no
    other: the ids and their order stay, a patch whose id no toast has
    (or that has none) changes nothing, and a toast with that id reads,
    key by key, the value of the patch where the patch has the key and
    its old value elsewhere. The timers are not touched. *)
Theorem update_toast_merges state patch st :
  let state' := (toastReducer state (UPDATE_TOAST patch) st).1 in
  (toastReducer state (UPDATE_TOAST patch) st).2 = st
  ∧ id <$> state' = id <$> state
  ∧ ((∀ t, t ∈ state → patch_id patch ≠ Some (id t)) → state' = state)
  ∧ (NoDup (patch_props patch).*1 →
     ∀ n t, state !! n = Some t → patch_id patch = Some (id t) →
       ∃ t', state' !! n = Some t' ∧ id t' = id t
             ∧ ∀ k, assoc k (props t')
                    = match assoc k (patch_props patch) with
                      | Some v => Some v
                      | None => assoc k (props t)
                      end).
Proof.
  cbv zeta. simpl. split; [done|]. split; [|split].
  - rewrite <-list_fmap_compose. apply list_fmap_ext. intros ? t _. simpl.
    by destruct (idIs _ t).
  - intros Hnone. rewrite <-(list_fmap_id state) at 2.
    apply list_fmap_ext. intros n t Ht. simpl.
    destruct (idIs (patch_id patch) t) eqn:E; [|done].
    destruct (patch_id patch) as [i|] eqn:Hi; [|done]. simpl in E.
    apply String.eqb_eq in E as <-.
    destruct (Hnone t); [|done]. by eapply list_elem_of_lookup_2.
  - intros Hnd n t Ht Hid. rewrite list_lookup_fmap, Ht. simpl.
    unfold idIs. rewrite Hid, String.eqb_refl.
    eexists. split; [done|]. split; [done|]. intros k. simpl.
    by apply assoc_mergeProps.
Qed.

Lemma genIds_spec n st :
  genIds n st
  = (λ k, pretty ((count st + Z.of_nat k) mod MAX_SAFE_INTEGER)%Z)
      <$> seq 1 n.
Proof.
  revert st. induction n as [|n IH]; intros st; [done|].
  cbn [genIds]. unfold genId. rewrite IH. cbn [seq fmap list_fmap].
  f_equal.
  rewrite <-(fmap_S_seq 1 n), <-list_fmap_compose.
  apply list_fmap_ext. intros ? k _. simpl. f_equal.
  rewrite Zplus_mod_idemp_l. f_equal. lia.
Qed.

(** X13. [genId] does not repeat itself before the counter has gone round:
    up to [MAX_SAFE_INTEGER] ids drawn one after the other are pairwise
    distinct. *)
Theorem genIds_distinct n st :
  (Z.of_nat n ≤ MAX_SAFE_INTEGER)%Z → NoDup (genIds n st).
Proof.
  intros Hn. rewrite genIds_spec.
  apply NoDup_fmap_2_strong; [|apply NoDup_seq].
  intros j k Hj Hk Heq. apply elem_of_seq in Hj, Hk.
  apply (inj pretty) in Heq. unfold MAX_SAFE_INTEGER in *.
  pose proof (Z.div_mod (count st + Z.of_nat j) 9007199254740991) as Hdj.
  pose proof (Z.div_mod (count st + Z.of_nat k) 9007199254740991) as Hdk.
  rewrite Heq in Hdj.
  assert (Z.of_nat j - Z.of_nat k
          = 9007199254740991
            * ((count st + Z.of_nat j) `div` 9007199254740991
               - (count st + Z.of_nat k) `div` 9007199254740991))%Z
    as Hdiff by lia.
  nia.
Qed.
End ToastTheorems.

Lemma toast_store_consistent_witness :
  ToastFacts.consistent
    (Toast.dispatch (Toast.DISMISS_TOAST None)
       (Toast.toast [("title", VStr "Saved")] ToastFacts.initial).2).
Proof.
  refine (proj1 (ToastTheorems.toast_store_consistent
                   (Toast.toast [("title", VStr "Saved")] ToastFacts.initial).2
                   _) (Toast.DISMISS_TOAST None)).
  split; [|split].
  - vm_compute. lia.
  - vm_compute. apply NoDup_nil_2.
  - vm_compute. split; discriminate || reflexivity.
Defined.

Lemma update_toast_merges_witness :
  ∃ t', (Toast.toastReducer
           [{| Toast.id := "1";
               Toast.props := [("title", VStr "Saving"); ("open", VBool true)] |}]
           (Toast.UPDATE_TOAST
              {| Toast.patch_id := Some "1";
                 Toast.patch_props := [("title", VStr "Saved")] |})
           ToastFacts.initial).1 !! 0 = Some t'
        ∧ Toast.id t' = "1"
        ∧ ∀ k, assoc k (Toast.props t')
               = match assoc k [("title", VStr "Saved")] with
                 | Some v => Some v
                 | None => assoc k [("title", VStr "Saving");
                                    ("open", VBool true)]
                 end.
Proof.
  exact (proj2 (proj2 (proj2
    (ToastTheorems.update_toast_merges
       [{| Toast.id := "1";
           Toast.props := [("title", VStr "Saving"); ("open", VBool true)] |}]
       {| Toast.patch_id := Some "1";
          Toast.patch_props := [("title", VStr "Saved")] |}
       ToastFacts.initial)))
    (NoDup_singleton "title") 0
    {| Toast.id := "1";
       Toast.props := [("title", VStr "Saving"); ("open", VBool true)] |}
    eq_refl eq_refl).
Defined.

Lemma genIds_distinct_witness :
  NoDup (ToastFacts.genIds 3 ToastFacts.initial)
  ∧ ToastFacts.genIds 3 ToastFacts.initial = ["1"; "2"; "3"].
Proof.
  split; [|by vm_compute].
  apply (ToastTheorems.genIds_distinct 3 ToastFacts.initial). by vm_compute.
Defined.

(** ** Content validation *)

Lemma append_nil post : "" +:+ post = post.
Proof. reflexivity. Qed.




Section validate_content_theorems.
Context (toLowerCase : string → string).

End validate_content_theorems.


(** ** Pages made by the page builder *)

Section created_pages.
Context `{Runtime} (globalAppConfig : AppConfig.t).

Lemma pageTypeEnum_cases type :
  is_Some (safeParse pageTypeEnum (VStr type)) →
  type ∈ ["service"; "home"; "city"; "about"; "contact"; "blog"; "suburb";
          "cluster"; "landing"].
Proof.
  intros [out Hparse]. unfold pageTypeEnum, z.enum in Hparse.
  cbn [safeParse] in Hparse.
  destruct (existsb _ _) eqn:Hin; [|done].
  apply existsb_exists in Hin as (option & Hin & ->%String.eqb_eq).
  by apply list_elem_of_In.
Qed.

(** The tree of a page as [createPage] builds it. *)
Lemma createdPage_parses type slug id lastModified :
  is_Some (safeParse pageTypeEnum (VStr type)) →
  isDatetime lastModified = true →
  is_Some (safeParse pageSchema
    (VObj [("id", VStr id); ("type", VStr type); ("slug", VStr slug);
           ("sections", VArr []); ("clusterRefs", VArr []);
           ("sharedSectionRefs", VArr []);
           ("meta", VObj [("title", VUndefined);
                          ("description", VUndefined);
                          ("image", VUndefined); ("schema", VUndefined);
                          ("robots", VUndefined)]);
           ("version", VNum (int 1));
           ("lastModified", VStr lastModified);
           ("lastModifiedBy", VStr "system"); ("locale", VUndefined)])).
Proof.
  intros Htype%pageTypeEnum_cases Hdate.
  vm_compute in Hdate.
  repeat (apply elem_of_cons in Htype as [->|Htype];
          [vm_compute; rewrite Hdate; eauto|]).
  by apply elem_of_nil in Htype.
Qed.

Lemma createPage_Ok type slug s page s' :
  createPage type slug s = Ok page s' →
  is_Some (safeParse pageTypeEnum (VStr type))
  ∧ page = HRef (length (heap s) + 4)
  ∧ heap s' = heap s ++
      [HArray []; HArray []; HArray [];
       HObject [("title", HUndefined); ("description", HUndefined);
                ("image", HUndefined); ("schema", HUndefined);
                ("robots", HUndefined)];
       HObject [
         ("id", HStr (randomUUID (draws s)));
         ("type", HStr type);
         ("slug", HStr slug);
         ("sections", HRef (length (heap s)));
         ("clusterRefs", HRef (length (heap s) + 1));
         ("sharedSectionRefs", HRef (length (heap s) + 2));
         ("meta", HRef (length (heap s) + 3));
         ("version", HNum (int 1));
         ("lastModified", HStr (toISOString (S (draws s))));
         ("lastModifiedBy", HStr "system");
         ("locale", HUndefined)]]
  ∧ _sectionRegistry s' = _sectionRegistry s
  ∧ _pageRegistry s' = _pageRegistry s
  ∧ _templateRegistry s' = _templateRegistry s.
Proof.
  unfold createPage.
  destruct (safeParse pageTypeEnum (VStr type)) as [out|]; [|done].
  destruct (_ || _); [done|].
  unfold draw, alloc. unfold_monad. cbn [heap setHeap setDraws draws].
  rewrite !length_app. cbn [length]. rewrite <- !app_assoc. cbn [app].
  rewrite <- !Nat.add_assoc. cbn [Nat.add].
  intros [= <- <-]. split; [by eauto|]. done.
Qed.

(** X15. What [createPage] returns is a page: read back as a tree, the object
    passes the page schema, provided the timestamps of the runtime have
    the format that [z.string().datetime()] accepts. It has the type and
    the slug asked for and no section, and [validatePage] returns for
    it. *)
Theorem createPage_valid type slug s page s' :
  (∀ n, isDatetime (toISOString n) = true) →
  createPage type slug s = Ok page s' →
  ∃ tree,
    reifyIn (heap s') page = Some tree
    ∧ isPage tree = true
    ∧ get tree "type" = VStr type
    ∧ get tree "slug" = VStr slug
    ∧ get tree "sections" = VArr []
    ∧ ∃ validated s'',
        validatePage globalAppConfig tree true s' = Ok validated s''.
Proof.
  intros Hdate Hcreate.
  apply createPage_Ok in Hcreate as (Htype & -> & Hheap & _).
  eexists. split; [|split].
  - unfold reifyIn. rewrite Hheap.
    eapply (reify_mono 2); [|rewrite length_app; simpl; lia|done].
    cbn [reify]. rewrite lookup_app_plus. cbn.
    rewrite !lookup_app_plus. cbn.
    rewrite list_lookup_middle by done. done.
  - unfold isPage. apply bool_decide_eq_true_2.
    by apply createdPage_parses.
  - split; [done|]. split; [done|]. split; [done|].
    pose proof (validatePage_cases globalAppConfig
                  (VObj [("id", VStr (randomUUID (draws s)));
                         ("type", VStr type); ("slug", VStr slug);
                         ("sections", VArr []); ("clusterRefs", VArr []);
                         ("sharedSectionRefs", VArr []);
                         ("meta", VObj [("title", VUndefined);
                                        ("description", VUndefined);
                                        ("image", VUndefined);
                                        ("schema", VUndefined);
                                        ("robots", VUndefined)]);
                         ("version", VNum (int 1));
                         ("lastModified",
                          VStr (toISOString (S (draws s))));
                         ("lastModifiedBy", VStr "system");
                         ("locale", VUndefined)]) true s') as Hcases.
    destruct (createdPage_parses type slug (randomUUID (draws s))
                (toISOString (S (draws s))) Htype (Hdate _)) as [vp Hvp].
    rewrite Hvp in Hcases.
    destruct Hcases as (validated & s'' & Hv & _). eauto.
Qed.
End created_pages.

Lemma createPage_valid_witness :
  ∃ tree,
    reifyIn (heap (finalState (createPage (H:=sampleRuntime) "city"
                                 "/perth/windows" registeredState)))
      (HRef 14) = Some tree
    ∧ isPage (H:=sampleRuntime) tree = true
    ∧ get tree "type" = VStr "city"
    ∧ get tree "slug" = VStr "/perth/windows"
    ∧ get tree "sections" = VArr []
    ∧ ∃ validated s'',
        validatePage (H:=sampleRuntime) validatedConfig tree true
          (finalState (createPage (H:=sampleRuntime) "city" "/perth/windows"
                         registeredState))
        = Ok validated s''.
Proof.
  apply (createPage_valid (H:=sampleRuntime) validatedConfig "city"
           "/perth/windows" registeredState).
  - intros n. reflexivity.
  - vm_compute. reflexivity.
Defined.

(** ** Resolving a resolved page *)

Section resolve_twice.
Context `{Runtime} (globalAppConfig : AppConfig.t).

Local Abbreviation pool := (sharedSectionPool globalAppConfig).

Lemma isSectionAt_prefix h h' v :
  h `prefix_of` h' → isSectionAt h v = true → isSectionAt h' v = true.
Proof.
  intros Hp. unfold isSectionAt, reifyIn.
  destruct (reify (S (length h)) h v) as [data|] eqn:Hdata; [|done].
  erewrite reify_mono; [done|exact Hdata| |done].
  apply prefix_length in Hp. lia.
Qed.

Lemma resolvesTo_prefix h h' id section :
  h `prefix_of` h' → resolvesTo pool h id = Some section →
  resolvesTo pool h' id = Some section.
Proof.
  intros Hp. unfold resolvesTo.
  destruct (find _ pool) as [e|]; [|done].
  destruct (isSectionAt h _) eqn:Hvalid; [|done].
  by rewrite (isSectionAt_prefix _ _ _ Hp Hvalid).
Qed.

(** X16. [resolveSharedSections] is not idempotent: its result keeps the ref
    list of the page, so resolving the result again appends the shared
    sections a second time, after the copies that the first call
    appended. *)
Theorem resolveSharedSections_twice s page ids original :
  FeatureFlags.enableSharedSections
    (AppConfig.featureFlags globalAppConfig) = true →
  pool ≠ [] →
  truthyH page = true →
  arrayElems (heap s) (propOf (heap s) page "sharedSectionRefs")
    = Some (HPrim ∘ PStr <$> ids) →
  spreadOrEmpty (heap s) (propOf (heap s) page "sections") = Some original →
  ∃ page1 s1 page2 s2 again,
    resolveSharedSections globalAppConfig page s = Ok page1 s1
    ∧ resolveSharedSections globalAppConfig page1 s1 = Ok page2 s2
    ∧ arrayElems (heap s2) (propOf (heap s2) page2 "sections")
      = Some (original ++ resolvedSections pool (heap s) ids ++ again)
    ∧ ∀ section, section ∈ resolvedSections pool (heap s) ids →
                 section ∈ again.
Proof.
  intros Hflag Hpool Hpage Hrefs Hsections.
  destruct page as [p|l]; [done|].
  unfold propOf in Hrefs, Hsections.
  destruct (heap s !! l) as [[props|elems]|] eqn:Hl; [|done..].
  (* the first call *)
  pose proof (resolveSharedSections_unfold globalAppConfig (HRef l) s
                Hpage Hflag Hpool) as Hfirst.
  unfold propOf in Hfirst. rewrite Hl, Hrefs, Hsections in Hfirst.
  destruct (resolveRefs_strings pool ids original ∅ s)
    as (s0 & Hloop & Hh0 & Hregs0).
  rewrite filter_not_in in Hloop by done.
  fold (resolvedSections pool (heap s) ids) in Hloop.
  rewrite Hloop, Hh0 in Hfirst. unfold ownProps in Hfirst.
  rewrite Hl in Hfirst.
  set (resolved := resolvedSections pool (heap s) ids) in *.
  set (n := length (heap s)) in *.
  set (s1 := setHeap _ s0) in Hfirst.
  assert (heap s1 = heap s ++
            [HArray (original ++ resolved);
             HObject (setProp "sections" (HRef n) props)]) as Hh1 by done.
  (* the second call *)
  pose proof (resolveSharedSections_unfold globalAppConfig (HRef (S n)) s1
                eq_refl Hflag Hpool) as Hsecond.
  unfold propOf in Hsecond. rewrite Hh1 in Hsecond.
  replace (S n) with (n + 1) in Hsecond by lia. subst n.
  rewrite lookup_app_plus in Hsecond. cbn [lookup list_lookup] in Hsecond.
  rewrite !assoc_setProp in Hsecond. cbn [String.eqb Ascii.eqb Bool.eqb] in Hsecond.
  cbn [default from_option id] in Hsecond.
  assert (arrayElems (heap s ++
                        [HArray (original ++ resolved);
                         HObject (setProp "sections"
                                    (HRef (length (heap s))) props)])
            (default HUndefined (assoc "sharedSectionRefs" props))
          = Some (HPrim ∘ PStr <$> ids)) as Hrefs1.
  { by apply arrayElems_app. }
  rewrite Hrefs1 in Hsecond.
  unfold spreadOrEmpty, nullish, spread, arrayElems in Hsecond.
  rewrite list_lookup_middle in Hsecond by done.
  destruct (resolveRefs_strings pool ids (original ++ resolved) ∅ s1)
    as (s1' & Hloop1 & Hh1' & _).
  rewrite filter_not_in in Hloop1 by done.
  fold (resolvedSections pool (heap s1) ids) in Hloop1.
  rewrite <-Hh1 in Hsecond. rewrite Hloop1 in Hsecond.
  eexists _, _, _, _, (resolvedSections pool (heap s1) ids).
  split; [exact Hfirst|]. replace (S (length (heap s))) with (length (heap s) + 1) by lia.
  split; [exact Hsecond|]. split.
  - cbn [heap setHeap]. unfold propOf.
    rewrite lookup_app_r by lia.
    replace (S (length (heap s1')) - length (heap s1')) with 1 by lia.
    cbn [lookup list_lookup]. rewrite assoc_setProp. simpl.
    rewrite list_lookup_middle by done. by rewrite <-app_assoc.
  - intros section Hin. unfold resolvedSections in *.
    apply list_elem_of_omap in Hin as (id & Hid & Hres).
    apply list_elem_of_omap. exists id. split; [done|].
    eapply resolvesTo_prefix; [|exact Hres]. rewrite Hh1.
    by apply prefix_app_r.
Qed.
End resolve_twice.

Lemma resolveSharedSections_twice_witness :
  ∃ page1 s1 page2 s2 again,
    resolveSharedSections (H:=sampleRuntime) sharedConfig (HRef 6) sharedState
    = Ok page1 s1
    ∧ resolveSharedSections (H:=sampleRuntime) sharedConfig page1 s1
      = Ok page2 s2
    ∧ arrayElems (heap s2) (propOf (heap s2) page2 "sections")
      = Some ([HRef 3]
              ++ resolvedSections (H:=sampleRuntime)
                   (sharedSectionPool sharedConfig) (heap sharedState)
                   ["promo"; "does-not-exist"; "promo"]
              ++ again)
    ∧ ∀ section,
        section ∈ resolvedSections (H:=sampleRuntime)
                    (sharedSectionPool sharedConfig) (heap sharedState)
                    ["promo"; "does-not-exist"; "promo"] →
        section ∈ again.
Proof.
  apply (resolveSharedSections_twice (H:=sampleRuntime) sharedConfig
           sharedState (HRef 6) ["promo"; "does-not-exist"; "promo"]
           [HRef 3]); try reflexivity.
  done.
Defined.

(** ** Validated data *)

Section validated_data.
Context `{Runtime} (globalAppConfig : AppConfig.t).

(** X17. Validation is idempotent: what [validateSafely] returns for one of the
    schemas of the program (the field, section, page and application
    configuration schemas, whose descriptions are well formed) is returned
    unchanged when it is validated again, whatever the error code; and
    validating changes nothing in the state. *)
Theorem validateSafely_idempotent :
  Forall (λ schema, wellFormed schema = true)
    [fieldSchema; sectionSchema; pageSchema; appConfigSchema]
  ∧ ∀ schema data data' errorCode errorCode' s s',
      wellFormed schema = true →
      validateSafely schema data errorCode s = Ok data' s' →
      s' = s ∧ validateSafely schema data' errorCode' s = Ok data' s.
Proof.
  split; [repeat constructor; by vm_compute|].
  intros schema data data' code code' s s' Hwf. unfold validateSafely.
  destruct (safeParse schema data) as [out|] eqn:Hparse; [|done].
  intros [= <- <-]. split; [done|].
  by rewrite (safeParse_idempotent schema Hwf _ _ Hparse).
Qed.

Lemma parseRecord_values t props out :
  parseRecord safeParse t props = Some out →
  Forall (λ kv, is_Some (safeParse t kv.2)) props.
Proof.
  revert out. induction props as [|[k v] props IH]; intros out;
    [by constructor|].
  cbn [parseRecord]. intros Hp.
  destruct (safeParse t v) as [v'|] eqn:Hv; [|done].
  destruct (parseRecord safeParse t props) as [out'|]; [|done].
  constructor; [simpl; rewrite Hv; eauto|]. by eapply IH.
Qed.

(** X18. The type guards nest: what [isPage] accepts has an array of sections
    that [isSection] accepts, and what [isSection] accepts has an object of
    fields that [isField] accepts. *)
Theorem typeGuards_nest :
  (∀ page, isPage page = true →
     ∃ sections, get page "sections" = VArr sections
                 ∧ Forall (λ x, isSection x = true) sections)
  ∧ (∀ section, isSection section = true →
       ∃ fields, get section "fields" = VObj fields
                 ∧ Forall (λ kv, isField kv.2 = true) fields).
Proof.
  split.
  - intros page [out Hp]%bool_decide_eq_true.
    unfold pageSchema, z.strict, z.object in Hp.
    eapply (safeParse_object_get _ _ _ _ "sections" (z.array sectionSchema))
      in Hp; [|by vm_compute|reflexivity].
    unfold z.array in Hp. rewrite safeParse_array in Hp.
    destruct (get page "sections") as [|xs|]; [done| |done].
    destruct (mapM (safeParse sectionSchema) xs) as [xs'|] eqn:Hxs; [|done].
    exists xs. split; [done|]. apply mapM_Some in Hxs.
    clear Hp. induction Hxs as [|x x' xs xs' Hx _ IH]; constructor; [|done].
    unfold isSection. apply bool_decide_eq_true_2. eauto.
  - intros section [out Hp]%bool_decide_eq_true.
    unfold sectionSchema, z.strict, z.object in Hp.
    eapply (safeParse_object_get _ _ _ _ "fields" (z.record fieldSchema))
      in Hp; [|by vm_compute|reflexivity].
    unfold z.record in Hp. cbn [safeParse] in Hp.
    destruct (get section "fields") as [| |fields]; [done..|].
    destruct (parseRecord safeParse fieldSchema fields) as [out'|] eqn:Hf;
      [|done].
    exists fields. split; [done|].
    eapply Forall_impl; [by eapply parseRecord_values|].
    intros kv Hkv. unfold isField. by apply bool_decide_eq_true_2.
Qed.
End validated_data.

Lemma validateSafely_idempotent_witness :
  ∃ validated,
    validateSafely (H:=sampleRuntime) pageSchema samplePage
      "INVALID_PAGE_STRUCTURE" emptyState = Ok validated emptyState
    ∧ validateSafely (H:=sampleRuntime) pageSchema validated "AGAIN" emptyState
      = Ok validated emptyState.
Proof.
  eexists. split; [vm_compute; reflexivity|].
  refine (proj2 (proj2 (validateSafely_idempotent (H:=sampleRuntime))
                   pageSchema samplePage _ "INVALID_PAGE_STRUCTURE" "AGAIN"
                   emptyState emptyState _ _)).
  - by vm_compute.
  - vm_compute. reflexivity.
Defined.

Lemma typeGuards_nest_witness :
  (∃ sections, get samplePage "sections" = VArr sections
               ∧ Forall (λ x, isSection (H:=sampleRuntime) x = true) sections)
  ∧ (∃ fields, get sampleSection "fields" = VObj fields
               ∧ Forall (λ kv, isField (H:=sampleRuntime) kv.2 = true) fields).
Proof.
  split.
  - apply (proj1 (typeGuards_nest (H:=sampleRuntime)) samplePage).
    by vm_compute.
  - apply (proj2 (typeGuards_nest (H:=sampleRuntime)) sampleSection).
    by vm_compute.
Defined.

(** ** Cache configuration *)

Section cache_theorems.
Context `{Runtime}.

Lemma positive_number v out :
  safeParse (z.number |> z.positive) v = Some out
  ↔ ∃ n, v = VNum n ∧ out = VNum n ∧ gtQ n 0 = true.
Proof.
  unfold z.positive, z.addNumberCheck, z.number. cbn [app safeParse].
  split.
  - destruct v as [[| | |n| |]| |]; try done.
    destruct (isNaN n); [done|]. cbn [forallb numberCheckOk].
    destruct (gtQ n 0) eqn:Hn; [|done]. intros [= <-]. eauto.
  - intros (n & -> & -> & Hn). destruct n as [q|b|]; [| |done].
    + cbn [isNaN forallb numberCheckOk]. by rewrite Hn.
    + cbn [isNaN forallb numberCheckOk]. by rewrite Hn.
Qed.

(** X19. [cacheUtils.validateConfig] returns exactly for an object whose
    [maxSize] and [ttl] are numbers above zero (infinity included, NaN
    excluded) and that has no other key, and what it returns holds these
    two members; for anything else it throws the SchemaError that carries
    the schema version. *)
Theorem validateConfig_accepts config :
  match validateConfig config with
  | inr out =>
      ∃ props maxSize ttl,
        config = VObj props
        ∧ getProp "maxSize" props = VNum maxSize
        ∧ getProp "ttl" props = VNum ttl
        ∧ gtQ maxSize 0 = true ∧ gtQ ttl 0 = true
        ∧ (∀ k, k ∈ props.*1 → k = "maxSize" ∨ k = "ttl")
        ∧ out = VObj [("maxSize", VNum maxSize); ("ttl", VNum ttl)]
  | inl error =>
      error = {| schemaError_message := "Invalid cache config";
                 schemaError_version := "5.0.0" |}
      ∧ ¬ ∃ props maxSize ttl,
            config = VObj props
            ∧ getProp "maxSize" props = VNum maxSize
            ∧ getProp "ttl" props = VNum ttl
            ∧ gtQ maxSize 0 = true ∧ gtQ ttl 0 = true
            ∧ (∀ k, k ∈ props.*1 → k = "maxSize" ∨ k = "ttl")
  end.
Proof.
  unfold validateConfig, cacheConfigSchema, z.strict, z.object.
  assert (∀ props : list (string * value),
            forallb (λ kv, hasProp kv.1
                             [("maxSize", z.number |> z.positive);
                              ("ttl", z.number |> z.positive)]) props = true
            ↔ ∀ k, k ∈ props.*1 → k = "maxSize" ∨ k = "ttl") as Hkeys.
  { intros props. rewrite forallb_Forall, Forall_forall. split.
    - intros Hall k [[k' v] [-> Hin]]%list_elem_of_fmap.
      specialize (Hall _ Hin). unfold hasProp in Hall.
      apply bool_decide_eq_true in Hall as [sk Hsk]. simpl in Hsk.
      destruct (String.eqb k' "maxSize") eqn:E1;
        [left; by apply String.eqb_eq|].
      destruct (String.eqb k' "ttl") eqn:E2;
        [right; by apply String.eqb_eq|done].
    - intros Hall [k v] Hin. unfold hasProp. apply bool_decide_eq_true.
      destruct (Hall k) as [-> | ->]; [|by eauto..].
      apply list_elem_of_fmap. by exists (k, v). }
  destruct config as [p|elems|props].
  1,2: cbn [safeParse]; split; [done|]; by intros (? & ? & ? & ? & _).
  cbn [safeParse parseShape unknownKeysOk].
  destruct (safeParse (z.number |> z.positive) (getProp "maxSize" props))
    as [m'|] eqn:Hm.
  2:{ cbn. split; [done|]. intros (props' & m & t & [= <-] & Hgm & _ & Hm' & _).
      assert (safeParse (z.number |> z.positive) (getProp "maxSize" props)
              = Some (VNum m)) as Hcontra.
      { apply positive_number. eauto. }
      congruence. }
  apply positive_number in Hm as (m & Hgm & -> & Hmpos).
  destruct (safeParse (z.number |> z.positive) (getProp "ttl" props))
    as [t'|] eqn:Ht.
  2:{ cbn. split; [done|]. intros (props' & m0 & t & [= <-] & _ & Hgt & _ & Ht' & _).
      assert (safeParse (z.number |> z.positive) (getProp "ttl" props)
              = Some (VNum t)) as Hcontra.
      { apply positive_number. eauto. }
      congruence. }
  apply positive_number in Ht as (t & Hgt & -> & Htpos).
  cbn [mbind option_bind isUndefined andb].
  destruct (forallb _ props) eqn:Hstrict.
  - exists props, m, t. pose proof (proj1 (Hkeys props) Hstrict). done.
  - split; [done|]. intros (props' & m0 & t0 & [= <-] & _ & _ & _ & _ & Hall).
    pose proof (proj2 (Hkeys props) Hall). congruence.
Qed.
End cache_theorems.

(** ** Generated pages are pages *)

Section generated_pages_valid.
Context `{Runtime} (globalAppConfig : AppConfig.t).

Lemma reifyIn_prefix h h' v tree :
  h `prefix_of` h' → reifyIn h v = Some tree → reifyIn h' v = Some tree.
Proof.
  intros Hp Hr. unfold reifyIn in *.
  eapply reify_mono; [exact Hr| |done]. apply prefix_length in Hp. lia.
Qed.

Lemma registersValid_refl s : registersValid s s.
Proof. split; [done|]. intros slug. by left. Qed.

Lemma registersValid_trans s1 s2 s3 :
  registersValid s1 s2 → registersValid s2 s3 → registersValid s1 s3.
Proof.
  intros [Hh1 Hp1] [Hh2 Hp2]. split; [by etrans|]. intros slug.
  destruct (Hp2 slug) as [Heq2|Hnew]; [|by right].
  destruct (Hp1 slug) as [Heq1|(entry & Hentry & tree & Htree & Hrest)].
  - left. congruence.
  - right. exists entry. split; [congruence|]. exists tree.
    split; [|done]. by eapply reifyIn_prefix.
Qed.

(** The tree of a page as [generatePage] builds it with an AI section. *)
Lemma generatedPage_parses slug id sectionId lastModified text :
  isDatetime lastModified = true →
  is_Some (safeParse pageSchema
    (VObj [("id", VStr id); ("type", VStr "city"); ("slug", VStr slug);
           ("sections",
            VArr [VObj [("id", VStr sectionId); ("type", VStr "text");
                        ("fields",
                         VObj [("intro",
                                VObj [("id", VStr "intro");
                                      ("type", VStr "text");
                                      ("value", VStr text)])]);
                        ("style", VObj []); ("tracking", VObj []);
                        ("seo", VObj [])]]);
           ("clusterRefs", VArr []);
           ("sharedSectionRefs", VArr []);
           ("meta", VObj [("title", VUndefined);
                          ("description", VUndefined);
                          ("image", VUndefined); ("schema", VUndefined);
                          ("robots", VUndefined)]);
           ("version", VNum (int 1));
           ("lastModified", VStr lastModified);
           ("lastModifiedBy", VStr "system"); ("locale", VUndefined)])).
Proof.
  intros Hdate. vm_compute in Hdate. vm_compute. rewrite Hdate. eauto.
Qed.

Lemma generateAIContentSections_heap instructions city service s out s' :
  generateAIContentSections globalAppConfig instructions
    [("city", PStr city); ("service", PStr service)] s = Ok out s' →
  _pageRegistry s' = _pageRegistry s
  ∧ ((out = [] ∧ heap s' = heap s)
     ∨ (out = [HRef (length (heap s) + 5)]
        ∧ heap s' = heap s ++
            [HObject [("id", HStr "intro"); ("type", HStr "text");
                      ("value", HStr ("AI generated content for " +:+ city
                                      +:+ " " +:+ service))];
             HObject [("intro", HRef (length (heap s)))];
             HObject []; HObject []; HObject [];
             HObject [("id", HStr (randomUUID (draws s)));
                      ("type", HStr "text");
                      ("fields", HRef (length (heap s) + 1));
                      ("style", HRef (length (heap s) + 2));
                      ("tracking", HRef (length (heap s) + 3));
                      ("seo", HRef (length (heap s) + 4))]])).
Proof.
  unfold generateAIContentSections.
  destruct (_ || _); [intros [= <- <-]; split; [done|by left]|].
  unfold createSection, sectionRegistry_has, alloc, draw. unfold_monad.
  cbn [heap setHeap setDraws draws _sectionRegistry].
  destruct (registryHas _ _); [|done]. cbn.
  rewrite !length_app. cbn [length]. rewrite <- !app_assoc. cbn [app].
  rewrite <- !Nat.add_assoc. cbn [Nat.add].
  intros [= <- <-]. split; [done|]. right. done.
Qed.

Lemma generatePage_tail_heap slug generatedSections s s' :
  String.eqb slug "" || isBlank slug = false →
  registeredAt s slug = false →
  (newPage ← createPage "city" slug;
   sections ← readProp newPage "sections";
   arrayPush sections generatedSections;;
   registerPage newPage) s = Ok tt s' →
  heap s' = heap s ++
    [HArray generatedSections; HArray []; HArray [];
     HObject [("title", HUndefined); ("description", HUndefined);
              ("image", HUndefined); ("schema", HUndefined);
              ("robots", HUndefined)];
     HObject [
       ("id", HStr (randomUUID (draws s)));
       ("type", HStr "city");
       ("slug", HStr slug);
       ("sections", HRef (length (heap s)));
       ("clusterRefs", HRef (length (heap s) + 1));
       ("sharedSectionRefs", HRef (length (heap s) + 2));
       ("meta", HRef (length (heap s) + 3));
       ("version", HNum (int 1));
       ("lastModified", HStr (toISOString (S (draws s))));
       ("lastModifiedBy", HStr "system");
       ("locale", HUndefined)]]
  ∧ _pageRegistry s'
    = <[slug := HRef (length (heap s) + 4)]> (_pageRegistry s).
Proof.
  intros Hslug Hreg. unfold createPage.
  replace (safeParse pageTypeEnum (VStr "city")) with (Some (VStr "city"))
    by reflexivity.
  rewrite Hslug. unfold draw, alloc. unfold_monad.
  cbn [heap setHeap setDraws draws].
  rewrite !length_app. cbn [length]. rewrite <- !app_assoc. cbn [app].
  rewrite <- !Nat.add_assoc. cbn [Nat.add].
  unfold readProp. cbn [heap setHeap setDraws].
  rewrite lookup_app_plus. cbn.
  rewrite list_lookup_middle by done.
  rewrite insert_app_r_alt by done. rewrite Nat.sub_diag. cbn.
  unfold registerPage, readProp. unfold_monad. cbn.
  rewrite lookup_app_plus. cbn.
  unfold registeredAt in Hreg. rewrite Hreg.
  intros [= <-]. cbn. done.
Qed.

Lemma generatePage_valid rule city service s s' :
  (∀ n, isDatetime (toISOString n) = true) →
  generatePage globalAppConfig rule city service s = Ok tt s' →
  registersValid s s'.
Proof.
  intros Hdate. unfold generatePage, getPageBySlug.
  rewrite bind_unfold. unfold getState at 1. rewrite bind_unfold.
  unfold mret at 1, M_ret at 1.
  fold (slugOf city service). fold (registeredAt s (slugOf city service)).
  destruct (registeredAt s (slugOf city service)) eqn:Hreg;
    simpl negb; cbv iota.
  { intros [= <-]. apply registersValid_refl. }
  intros Hr.
  apply bind_Ok in Hr as (generatedSections & s0 & Hgen & Hr).
  assert (_pageRegistry s0 = _pageRegistry s
          ∧ ((generatedSections = [] ∧ heap s0 = heap s)
             ∨ (generatedSections = [HRef (length (heap s) + 5)]
                ∧ heap s0 = heap s ++
                    [HObject [("id", HStr "intro"); ("type", HStr "text");
                              ("value",
                               HStr ("AI generated content for " +:+ city
                                     +:+ " " +:+ service))];
                     HObject [("intro", HRef (length (heap s)))];
                     HObject []; HObject []; HObject [];
                     HObject [("id", HStr (randomUUID (draws s)));
                              ("type", HStr "text");
                              ("fields", HRef (length (heap s) + 1));
                              ("style", HRef (length (heap s) + 2));
                              ("tracking", HRef (length (heap s) + 3));
                              ("seo", HRef (length (heap s) + 4))]])))
    as [Hp0 Hsections].
  { destruct (_ && _).
    - by apply generateAIContentSections_heap in Hgen.
    - injection Hgen as <- <-. split; [done|by left]. }
  assert (registeredAt s0 (slugOf city service) = false) as Hreg0.
  { rewrite <- Hreg. apply registeredAt_lookup. by rewrite Hp0. }
  destruct (generatePage_tail_heap _ _ _ _ (slugOf_not_blank _ _) Hreg0 Hr)
    as (Hh & Hp).
  split.
  { rewrite Hh. destruct Hsections as [[_ ->]|[_ ->]].
    - by apply prefix_app_r.
    - rewrite <-app_assoc. by apply prefix_app_r. }
  intros slug. rewrite Hp, Hp0.
  destruct (decide (slug = slugOf city service)) as [->|Hne];
    [|left; by rewrite lookup_insert_ne].
  right. rewrite lookup_insert_eq. eexists. split; [done|].
  destruct Hsections as [[-> Hh0]|[-> Hh0]].
  - eexists. split; [|split].
    + unfold reifyIn. rewrite Hh.
      eapply (reify_mono 2); [|rewrite length_app; simpl; lia|done].
      cbn [reify]. rewrite lookup_app_plus. cbn.
      rewrite !lookup_app_plus. cbn.
      rewrite list_lookup_middle by done. done.
    + unfold isPage. apply bool_decide_eq_true_2.
      apply createdPage_parses; [by eexists|done].
    + done.
  - eexists. split; [|split].
    + unfold reifyIn. rewrite Hh, Hh0.
      rewrite !length_app. cbn [length]. rewrite <- !app_assoc. cbn [app].
      rewrite <- !Nat.add_assoc. cbn [Nat.add].
      eapply (reify_mono 5); [|lia|done].
      cbn [reify]. rewrite lookup_app_plus. cbn.
      rewrite !lookup_app_plus. cbn.
      rewrite !lookup_app_plus. cbn.
      rewrite !lookup_app_plus. cbn.
      rewrite list_lookup_middle by done. cbn. done.
    + unfold isPage. apply bool_decide_eq_true_2.
      by apply generatedPage_parses.
    + done.
Qed.

(** X20. Every page that a returning run of [applyProgrammaticSEO] adds to the
    page registry is a page: the object, read back as a tree, passes the
    page schema (so [validatePage] returns for it), provided the
    timestamps of the runtime have the format that
    [z.string().datetime()] accepts. It is a city page under the slug it
    is registered at. *)
Theorem applyProgrammaticSEO_pages_valid s s1 slug :
  (∀ n, isDatetime (toISOString n) = true) →
  applyProgrammaticSEO globalAppConfig s = Ok tt s1 →
  _pageRegistry s1 !! slug ≠ _pageRegistry s !! slug →
  ∃ entry tree,
    _pageRegistry s1 !! slug = Some entry
    ∧ reifyIn (heap s1) entry = Some tree
    ∧ isPage tree = true
    ∧ get tree "slug" = VStr slug
    ∧ get tree "type" = VStr "city".
Proof.
  intros Hdate Hrun Hnew.
  assert (registersValid s s1) as [_ Hvalid].
  { unfold applyProgrammaticSEO in Hrun.
    destruct (_ || _); [injection Hrun as <-; apply registersValid_refl|].
    clear Hnew. revert s s1 Hrun.
    apply forOf_Ok_ind;
      [apply registersValid_refl|apply registersValid_trans|].
    intros rule s s1 _.
    destruct (isLocationsRule rule);
      [|intros [= <-]; apply registersValid_refl].
    revert s s1. apply forOf_Ok_ind;
      [apply registersValid_refl|apply registersValid_trans|].
    intros city s s1 _. revert s s1. apply forOf_Ok_ind;
      [apply registersValid_refl|apply registersValid_trans|].
    intros service s s1 _. by apply generatePage_valid. }
  destruct (Hvalid slug) as [Heq|(entry & Hentry & tree & Htree)]; [done|].
  exists entry, tree. done.
Qed.
End generated_pages_valid.

Lemma applyProgrammaticSEO_pages_valid_witness :
  ∃ entry tree,
    _pageRegistry
      (finalState (applyProgrammaticSEO (H:=sampleRuntime) validatedConfig
                     registeredState))
    !! "/brisbane/house-cleaning" = Some entry
    ∧ reifyIn
        (heap (finalState (applyProgrammaticSEO (H:=sampleRuntime)
                             validatedConfig registeredState)))
        entry = Some tree
    ∧ isPage (H:=sampleRuntime) tree = true
    ∧ get tree "slug" = VStr "/brisbane/house-cleaning"
    ∧ get tree "type" = VStr "city".
Proof.
  apply (applyProgrammaticSEO_pages_valid (H:=sampleRuntime) validatedConfig
           registeredState).
  - intros n. reflexivity.
  - vm_compute. reflexivity.
  - vm_compute. discriminate.
Defined.

(** ** Templates with an AI prompt *)

Section instantiate_ai.
Context `{Runtime} (globalAppConfig : AppConfig.t).

Local Abbreviation templateOf s templateId :=
  (registryGet (_templateRegistry s) templateId).

(** X21. With an AI prompt and AI content switched on, what
    [templateUtils.instantiate] returns is the generated section in all
    but name: the spread [{...section, ...aiContent[0]}] overwrites the
    [id], [type], [fields], [style], [tracking] and [seo] of the
    template's skeleton, so the result is a text section whose only field
    is the generated [intro], and nothing of the skeleton's fields is
    left. (Stated for a template that declares no variable.) *)
Theorem template_instantiate_ai_overrides templateId variables s :
  let n := length (heap s) in
  let skeleton :=
    ownProps (heap s) (propOf (heap s) (templateOf s templateId) "section") in
  let generated :=
    [("id", HStr (randomUUID (draws s))); ("type", HStr "text");
     ("fields", HRef (n + 2)); ("style", HRef (n + 3));
     ("tracking", HRef (n + 4)); ("seo", HRef (n + 5))] in
  arrayElems (heap s)
    (propOf (heap s) (templateOf s templateId) "variables") = Some [] →
  truthyH (propOf (heap s) (templateOf s templateId) "aiPrompt") = true →
  aiContentEnabled globalAppConfig = true →
  registryHas (_sectionRegistry s) "text" = true →
  ∃ s',
    template_instantiate globalAppConfig templateId variables s
    = Ok (HRef (n + 7)) s'
    ∧ heap s' = heap s ++
        [HObject skeleton;
         HObject [("id", HStr "intro"); ("type", HStr "text");
                  ("value",
                   HStr ("AI generated content for "
                         +:+ interpolate variables "city" +:+ " "
                         +:+ interpolate variables "service"))];
         HObject [("intro", HRef (n + 1))];
         HObject []; HObject []; HObject [];
         HObject generated;
         HObject (mergeProps skeleton generated)]
    ∧ ∀ k, propOf (heap s') (HRef (n + 7)) k
           = match assoc k generated with
             | Some v => v
             | None => default HUndefined (assoc k skeleton)
             end.
Proof.
  intros n skeleton generated Hvars Hai Henabled Htext.
  assert (truthyH (templateOf s templateId) = true) as Htruthy.
  { destruct (templateOf s templateId) as [[]|]; try done. }
  unfold template_instantiate.
  unfold template_get. unfold_monad. rewrite Htruthy. simpl.
  rewrite readProp_truthy by done. unfold alloc at 1. simpl.
  rewrite readProp_truthy by done. simpl.
  rewrite (propOf_app _ _ _ _ _ Hvars).
  erewrite lengthPositive_array by (simpl; by apply arrayElems_app).
  simpl. rewrite readProp_truthy by done. simpl.
  rewrite (propOf_app _ _ _ _ _ Hvars). rewrite Hai.
  unfold generateAIContentSections. rewrite Hai, Henabled. simpl.
  unfold createSection, sectionRegistry_has, alloc, draw. unfold_monad.
  cbn [heap setHeap setDraws draws _sectionRegistry]. rewrite Htext.
  cbn [negb heap setHeap setDraws draws].
  rewrite !length_app. cbn [length]. rewrite <- !app_assoc. cbn [app].
  rewrite <- !Nat.add_assoc. cbn [Nat.add].
  rewrite list_lookup_middle by done.
  unfold ownProps at 3.
  rewrite (lookup_app_plus _ _ 6). cbn [lookup list_lookup].
  fold n. fold skeleton. fold generated.
  eexists. split; [reflexivity|]. cbn [heap setHeap].
  split; [reflexivity|]. intros k. unfold propOf.
  change (n + 7) with (length (heap s) + 7).
  rewrite (lookup_app_plus _ _ 7). cbn [lookup list_lookup].
  rewrite ToastTheorems.assoc_mergeProps.
  - transitivity (match assoc k generated with
                  | Some v => v
                  | None => default HUndefined (assoc k skeleton)
                  end); [by destruct (assoc k generated)|reflexivity].
  - subst generated. cbn [fmap list_fmap fst].
    apply (bool_decide_unpack _). by vm_compute.
Qed.
End instantiate_ai.

Lemma template_instantiate_ai_overrides_witness :
  ∃ s',
    template_instantiate (H:=sampleRuntime) validatedConfig "ai-greeting"
      [("city", PStr "Sydney"); ("service", PStr "oven-cleaning")]
      aiTemplateState = Ok (HRef 18) s'
    ∧ propOf (heap s') (HRef 18) "type" = HStr "text"
    ∧ propOf (heap s') (HRef 18) "fields" = HRef 13
    ∧ heap s' !! 13 = Some (HObject [("intro", HRef 12)])
    ∧ heap s' !! 12
      = Some (HObject [("id", HStr "intro"); ("type", HStr "text");
                       ("value",
                        HStr "AI generated content for Sydney oven-cleaning")]).
Proof.
  destruct (template_instantiate_ai_overrides (H:=sampleRuntime)
              validatedConfig "ai-greeting"
              [("city", PStr "Sydney"); ("service", PStr "oven-cleaning")]
              aiTemplateState)
    as (s' & Hrun & Hheap & Hkeys); [reflexivity..|].
  exists s'. split; [exact Hrun|].
  split; [exact (Hkeys "type")|]. split; [exact (Hkeys "fields")|].
  rewrite Hheap. split; reflexivity.
Defined.

(** ** What [validatePage] returns *)

Section validate_page_result.
Context `{Runtime} (globalAppConfig : AppConfig.t).

Lemma safeParse_number_out checks v out :
  safeParse (ZNumber checks) v = Some out → ∃ n, out = VNum n.
Proof.
  destruct v as [[| | |n| |]| |]; try done. cbn [safeParse].
  destruct (isNaN n); [done|]. destruct (forallb _ _); [|done].
  intros [= <-]. eauto.
Qed.

(** X22. Without resolution, what [validatePage] returns is the output of the
    page schema, built as new objects: it denotes a tree that the schema
    produced from the input, that the schema accepts again unchanged, and
    in which the defaults are filled in ([clusterRefs] and
    [sharedSectionRefs] are arrays, [version] is a number). *)
Theorem validatePage_returns_parsed page s validated s' :
  validatePage globalAppConfig page false s = Ok validated s' →
  ∃ tree,
    safeParse pageSchema page = Some tree
    ∧ represents (heap s') validated tree
    ∧ freshFrom (length (heap s)) validated
    ∧ safeParse pageSchema tree = Some tree
    ∧ (∃ refs, get tree "clusterRefs" = VArr refs)
    ∧ (∃ refs, get tree "sharedSectionRefs" = VArr refs)
    ∧ (∃ n, get tree "version" = VNum n).
Proof.
  unfold validatePage. rewrite bind_unfold.
  destruct (safeParse pageSchema page) as [vp|] eqn:Hparse.
  2:{ by rewrite validateSafely_None. }
  rewrite (validateSafely_Some _ _ _ _ _ Hparse). rewrite bind_unfold.
  unfold allocTree at 1.
  destruct (allocValue vp (heap s)) as [h1 r] eqn:Halloc.
  rewrite bind_unfold, validateSections_ok.
  2:{ eapply Forall_impl; [by eapply pageSchema_sections|].
      intros x ->. eauto. }
  intros [= <- <-]. exists vp. split; [done|].
  split; [by eapply allocValue_represents|].
  split; [by apply allocValue_closed in Halloc as (? & _ & ? & _)|].
  split; [eapply safeParse_idempotent; [by vm_compute|done]|].
  pose proof Hparse as Hp. unfold pageSchema, z.strict, z.object in Hp.
  split; [|split].
  - eapply (safeParse_object_get _ _ _ _ "clusterRefs"
              (ZDefault (ZArray (ZString [])) (VArr [])))
      in Hp; [|by vm_compute|reflexivity].
    rewrite safeParse_default in Hp.
    destruct (get page "clusterRefs") as [[]| |];
      apply safeParse_strings in Hp as [ids ->]; eauto.
  - destruct (pageSchema_arrays _ _ Hparse) as [_ [ids ->]]. eauto.
  - eapply (safeParse_object_get _ _ _ _ "version"
              (ZDefault (ZNumber [CkInt; CkMin 0 false]) (VNum (int 1))))
      in Hp; [|by vm_compute|reflexivity].
    rewrite safeParse_default in Hp.
    destruct (get page "version") as [[]| |];
      by apply safeParse_number_out in Hp.
Qed.
End validate_page_result.

Lemma validatePage_returns_parsed_witness :
  ∃ tree,
    safeParse (H:=sampleRuntime) pageSchema samplePage = Some tree
    ∧ represents
        (heap (finalState (validatePage (H:=sampleRuntime) validatedConfig
                             samplePage false emptyState)))
        (HRef 6) tree
    ∧ get tree "version" = VNum (int 1)
    ∧ get tree "sharedSectionRefs" = VArr [].
Proof.
  destruct (validatePage_returns_parsed (H:=sampleRuntime) validatedConfig
              samplePage emptyState (HRef 6)
              (finalState (validatePage (H:=sampleRuntime) validatedConfig
                             samplePage false emptyState)))
    as (tree & Hparse & Hrep & _); [vm_compute; reflexivity|].
  exists tree. split; [exact Hparse|]. split; [exact Hrep|].
  vm_compute in Hparse. injection Hparse as <-. split; reflexivity.
Defined.

(** ** Sections made by the page builder *)

Section created_sections.
Context `{Runtime} (globalAppConfig : AppConfig.t).




End created_sections.

